(** * Tamur AI client: streaming and session-orchestration core

    A shallow embedding of the chat stream assembler ([handleSendMessage]),
    the inline citation renderer ([SimpleMarkdown]), the video job poll loop
    ([handleGenerate] of [VideoGeneratorPanel]) and the live audio session
    ([LiveConversation]), with the properties the design document states
    about them.

    Conventions.  React state is a record threaded through the handlers; a
    [setX(prev => f prev)] call is the record update by [f].  An [async]
    function is cut at its [await]s into segments, one Rocq function per
    segment, named after the handler it belongs to.  What the browser or the
    remote service answers (stream fragments, poll replies, clock readings)
    is an input of the segment.  A JavaScript exception is the [Throw]
    result. *)

From Stdlib Require Import ZArith String Ascii Bool Lia.
From Stdlib Require Import Floats.SpecFloat.
From stdpp Require Import base option list gmap strings pretty.

(** ** JavaScript values shared by all components *)

Record JsError := mkError { e_message : string }.

Inductive result (A : Type) : Type :=
| Ok (a : A)
| Throw (e : JsError).
Arguments Ok {A} a.
Arguments Throw {A} e.

(** Truthiness of a string-or-undefined value: [undefined] and the empty
    string are falsy. *)
Definition truthy_string (s : option string) : bool :=
  match s with
  | Some (String _ _) => true
  | _ => false
  end.

(** String conversion of a string-or-undefined value, as done by [+=] and by
    template literals. *)
Definition js_to_string (s : option string) : string :=
  match s with
  | Some t => t
  | None => "undefined"
  end.

(** ** Chat: the streaming response assembler (App, [handleSendMessage]) *)

Module Chat.

Inductive ChatMessageRole := USER | MODEL.

Record Source := mkSource
  { s_id : string; s_url : string; s_title : string; s_domain : string }.

Inductive MediaType := image | video | audio.

Record Media := mkMedia
  { md_type : MediaType; md_url : string; md_prompt : option string;
    md_mimeType : option string; md_base64Data : option string }.

Record ChatMessage := mkMessage
  { m_id : string;
    m_role : ChatMessageRole;
    m_text : string;
    m_sources : option (list Source);
    m_media : option (list Media);
    m_isLoading : option bool }.

(** One streamed fragment, as far as [handleSendMessage] reads it:
    [chunk.text] and [chunk.candidates?.[0]?.groundingMetadata]. *)
Record Web := mkWeb { uri : string; title : string }.
Record GroundingChunk := mkChunk { web : option Web }.
Record GroundingMetadata := mkGM
  { groundingChunks : option (list GroundingChunk) }.
Record Candidate := mkCandidate
  { groundingMetadata : option GroundingMetadata }.
Record GenerateContentResponse := mkResponse
  { text : option string; candidates : option (list Candidate) }.

(** The component state of [App] that [handleSendMessage] and the source
    click handler touch.  [chatSession] is [true] once the effect that
    creates the session has run ([chatSession.current] is not null). *)
Record App := mkApp
  { messages : list ChatMessage;
    prompt : string;
    isLoading : bool;
    sources : list Source;
    activeSource : option Source;
    chatSession : bool }.

(** The locals of one running [handleSendMessage] call. *)
Record Exchange := mkExchange
  { modelMessageId : string;
    fullText : string;
    currentSources : list Source }.

Inductive Effect :=
| StreamChat (userPrompt : string)
| ConsoleError (what : string) (e : JsError).

Definition apology : string :=
  "Sorry, I encountered an error. Please try again.".

(** [String.prototype.trim] yields the empty string exactly when every
    code unit is white space; code units above 255 are outside this
    model of strings. *)
Definition is_white_space (a : ascii) : bool :=
  let n := nat_of_ascii a in
  ((9 <=? n) && (n <=? 13)) || (n =? 32) || (n =? 160).

Fixpoint trim_is_empty (s : string) : bool :=
  match s with
  | EmptyString => true
  | String a s' => is_white_space a && trim_is_empty s'
  end.

(** [Date.now().toString()] *)
Definition toString (n : Z) : string := pretty n.

(** [prev.map(msg => msg.id === id ? f msg : msg)] *)
Definition mapMessage (mid : string) (f : ChatMessage → ChatMessage)
    (prev : list ChatMessage) : list ChatMessage :=
  (λ msg, if decide (m_id msg = mid) then f msg else msg) <$> prev.

Definition setMessages (f : list ChatMessage → list ChatMessage)
    (app : App) : App :=
  mkApp (f (messages app)) (prompt app) (isLoading app) (sources app)
        (activeSource app) (chatSession app).
Definition setPrompt (p : string) (app : App) : App :=
  mkApp (messages app) p (isLoading app) (sources app)
        (activeSource app) (chatSession app).
Definition setIsLoading (b : bool) (app : App) : App :=
  mkApp (messages app) (prompt app) b (sources app)
        (activeSource app) (chatSession app).
Definition setSources (l : list Source) (app : App) : App :=
  mkApp (messages app) (prompt app) (isLoading app) l
        (activeSource app) (chatSession app).
Definition setActiveSource (s : option Source) (app : App) : App :=
  mkApp (messages app) (prompt app) (isLoading app) (sources app)
        s (chatSession app).

(** [{ ...msg, text: fullText, sources: currentSources }] *)
Definition withTextSources (t : string) (l : list Source)
    (msg : ChatMessage) : ChatMessage :=
  mkMessage (m_id msg) (m_role msg) t (Some l) (m_media msg)
            (m_isLoading msg).
(** [{ ...msg, isLoading: false }] *)
Definition withLoaded (msg : ChatMessage) : ChatMessage :=
  mkMessage (m_id msg) (m_role msg) (m_text msg) (m_sources msg)
            (m_media msg) (Some false).
(** [{ ...msg, text: "Sorry, ...", isLoading: false }] *)
Definition withApology (msg : ChatMessage) : ChatMessage :=
  mkMessage (m_id msg) (m_role msg) apology (m_sources msg)
            (m_media msg) (Some false).

Section WithURL.

(** [new URL(u).hostname]: the host of [u], or [None] where the [URL]
    constructor throws a [TypeError].  The browser's URL parser is
    outside the repository. *)
Variable hostname : string → option string.

(** [chunk.candidates?.[0]?.groundingMetadata?.groundingChunks] *)
Definition chunkGroundingChunks (chunk : GenerateContentResponse)
    : option (list GroundingChunk) :=
  cs ← candidates chunk; c ← head cs; gm ← groundingMetadata c;
  groundingChunks gm.

(** The entries that pass [.filter(c => c.web)], in order. *)
Definition webEntries (gcs : list GroundingChunk) : list Web :=
  omap web gcs.

(** The callback of [.map((c, i) => ...)]. *)
Definition toSource (i : nat) (w : Web) : option Source :=
  d ← hostname (uri w);
  Some (mkSource ("S" +:+ pretty (i + 1)%nat) (uri w) (title w) d).

(** [newSources]; [None] when a [URL] constructor throws. *)
Definition newSources (gcs : list GroundingChunk) : option (list Source) :=
  mapM id (imap toSource (webEntries gcs)).

(** Lines 178-191: the guard, the two appended messages and the call of
    [streamChat].  [now1] and [now2] are the two readings of
    [Date.now()]; [opened] is the error with which the promise of
    [streamChat] rejects, if it does. *)
Definition userMessage (now1 : Z) (userPrompt : string) : ChatMessage :=
  mkMessage (toString now1) USER userPrompt None None None.
Definition initialModelMessage (now2 : Z) : ChatMessage :=
  mkMessage (toString (now2 + 1)) MODEL "" None None (Some true).

Definition send_guard (userPrompt : string) (app : App) : bool :=
  isLoading app || trim_is_empty userPrompt.

Definition send_begin (now1 now2 : Z) (userPrompt : string) (app : App)
    : App :=
  let app := setIsLoading true app in
  let app := setMessages (λ prev, prev ++ [userMessage now1 userPrompt]) app in
  let app := setPrompt "" app in
  setMessages (λ prev, prev ++ [initialModelMessage now2]) app.

(** Lines 196-212: the body of [for await (const chunk of stream)]. *)
Definition on_chunk (chunk : GenerateContentResponse) (ex : Exchange)
    (app : App) : result (Exchange * App) :=
  let fullText' := fullText ex +:+ js_to_string (text chunk) in
  match chunkGroundingChunks chunk with
  | Some gcs =>
      match newSources gcs with
      | None => Throw (mkError "Invalid URL")
      | Some ns =>
          let app := setSources ns app in
          Ok (mkExchange (modelMessageId ex) fullText' ns,
              setMessages (mapMessage (modelMessageId ex)
                             (withTextSources fullText' ns)) app)
      end
  | None =>
      Ok (mkExchange (modelMessageId ex) fullText' (currentSources ex),
          setMessages (mapMessage (modelMessageId ex)
                         (withTextSources fullText' (currentSources ex)))
                      app)
  end.

(** Line 215 and the [finally] block: the stream ended. *)
Definition on_end (ex : Exchange) (app : App) : App :=
  setIsLoading false
    (setMessages (mapMessage (modelMessageId ex) withLoaded) app).

(** Lines 217-222: the [catch] and [finally] blocks. *)
Definition on_catch (mid : string) (app : App) : App :=
  setIsLoading false (setMessages (mapMessage mid withApology) app).

(** What the stream does next while the handler awaits it. *)
Inductive Event :=
| Send (now1 now2 : Z) (userPrompt : string) (opened : option JsError)
| Chunk (chunk : GenerateContentResponse)
| StreamEnd
| StreamError (e : JsError).

(** The page: the component state, the exchange in flight (the frame of
    the suspended [handleSendMessage] call) and what was done to the
    outside so far, latest first. *)
Record Page := mkPage
  { app : App; inflight : option Exchange; log : list Effect }.

Definition fail (mid : string) (e : JsError) (a : App) (l : list Effect)
    : Page :=
  mkPage (on_catch mid a) None
         (ConsoleError "Error streaming chat:" e :: l).

Definition step (ev : Event) (p : Page) : Page :=
  match ev with
  | Send now1 now2 userPrompt opened =>
      if send_guard userPrompt (app p) then p
      else
        let a := send_begin now1 now2 userPrompt (app p) in
        let mid := toString (now2 + 1) in
        if chatSession a then
          match opened with
          | Some e => fail mid e a (StreamChat userPrompt :: log p)
          | None => mkPage a (Some (mkExchange mid "" []))
                           (StreamChat userPrompt :: log p)
          end
        else fail mid (mkError "Chat session not initialized.") a (log p)
  | Chunk chunk =>
      match inflight p with
      | Some ex =>
          match on_chunk chunk ex (app p) with
          | Ok (ex', a) => mkPage a (Some ex') (log p)
          | Throw e => fail (modelMessageId ex) e (app p) (log p)
          end
      | None => p
      end
  | StreamEnd =>
      match inflight p with
      | Some ex => mkPage (on_end ex (app p)) None (log p)
      | None => p
      end
  | StreamError e =>
      match inflight p with
      | Some ex => fail (modelMessageId ex) e (app p) (log p)
      | None => p
      end
  end.

Definition run (evs : list Event) (p : Page) : Page :=
  foldl (λ p ev, step ev p) p evs.

(** [handleSendMessage] run from the call to its end with nothing else
    happening meanwhile, on a stream that delivers [chunks] and then ends,
    or breaks with the error [failure]. *)
Definition handleSendMessage (now1 now2 : Z) (userPrompt : string)
    (opened : option JsError) (chunks : list GenerateContentResponse)
    (failure : option JsError) (p : Page) : Page :=
  run (Send now1 now2 userPrompt opened ::
       (Chunk <$> chunks) ++
       [match failure with Some e => StreamError e | None => StreamEnd end]) p.

(** The pages that can come about: from a page with no exchange in
    flight, by any sequence of events. *)
Definition reachable (p : Page) : Prop :=
  ∃ a0 evs, isLoading a0 = false ∧ p = run evs (mkPage a0 None []).

(** The error an event makes the suspended handler catch: one raised
    by the stream, or one raised while the fragment is processed. *)
Definition raised (ev : Event) (p : Page) : option JsError :=
  match ev, inflight p with
  | StreamError e, Some _ => Some e
  | Chunk chunk, Some ex =>
      match on_chunk chunk ex (app p) with
      | Throw e => Some e
      | Ok _ => None
      end
  | _, _ => None
  end.

Definition is_send (ev : Event) : bool :=
  match ev with Send _ _ _ _ => true | _ => false end.

(** While an exchange is in flight the loading flag is up and the
    transcript holds its pending model message; otherwise the flag is
    down. *)
Definition in_flight_ok (p : Page) : Prop :=
  match inflight p with
  | Some ex =>
      isLoading (app p) = true ∧
      ∃ i m, messages (app p) !! i = Some m ∧
             m_id m = modelMessageId ex ∧ m_isLoading m = Some true
  | None => isLoading (app p) = false
  end.

(** The number of streams opened so far. *)
Definition isStreamChat (e : Effect) : bool :=
  match e with StreamChat _ => true | _ => false end.
Definition streamsOpened (l : list Effect) : nat :=
  length (List.filter isStreamChat l).

(** [onSourceClick] as [App] passes it to [Message]:
    [setActiveSource(sources.find(s => s.id === id) || null)]. *)
Definition onSourceClick (sid : string) (a : App) : App :=
  setActiveSource (find (λ s, bool_decide (s_id s = sid)) (sources a)) a.

End WithURL.

Definition initialApp : App := mkApp [] "" false [] None true.
Definition initialPage : Page := mkPage initialApp None [].

(** [addMediaMessage] (lines 229-238), by which the feature panels hand
    over what they made, as far as it touches this state: a model message
    with the media is appended, its id the reading [now] of [Date.now()].
    The [setActiveFeature] that follows acts on state of [App] that is not
    in this record. *)
Definition addMediaMessage (now : Z) (media : list Media) (text : string)
    (a : App) : App :=
  setMessages
    (λ prev, prev ++ [mkMessage (toString now) MODEL text None (Some media) None])
    a.

(** Every message shown as loading is the pending message of the exchange
    in flight. *)
Definition pending_are_in_flight (p : Page) : Prop :=
  ∀ m, m ∈ messages (app p) → m_isLoading m = Some true →
       ∃ ex, inflight p = Some ex ∧ m_id m = modelMessageId ex.

(** A fragment that the assembler can take in: the web addresses of its
    list of sources, if it has one, parse as URLs. *)
Definition acceptable (hostname : string → option string)
    (chunk : GenerateContentResponse) : Prop :=
  ∀ gcs, chunkGroundingChunks chunk = Some gcs →
         Forall (λ w, is_Some (hostname (uri w))) (webEntries gcs).

(** The texts of the fragments, one after the other. *)
Definition joined (chunks : list GenerateContentResponse) : string :=
  foldl (λ t chunk, t +:+ js_to_string (text chunk)) EmptyString chunks.

End Chat.

(** ** Markdown: inline citation markers ([SimpleMarkdown], [Message]) *)

Module Markdown.

(** [\d] without the unicode flag: the ten ASCII digits. *)
Definition is_digit (a : ascii) : bool :=
  let n := nat_of_ascii a in (48 <=? n) && (n <=? 57).

(** The longest run of digits at the head of [s], and what follows it. *)
Fixpoint span_digits (s : string) : string * string :=
  match s with
  | String a s' =>
      if is_digit a
      then let '(ds, r) := span_digits s' in (String a ds, r)
      else (EmptyString, s)
  | EmptyString => (EmptyString, EmptyString)
  end.

(** A match of [\[S(\d+)\]] that starts at the head of [s]: the captured
    digits and the text after the closing bracket.  The digits are
    matched greedily and a digit is never a bracket, so the longest run is
    the only candidate. *)
Definition marker_at (s : string) : option (string * string) :=
  match s with
  | String a (String b s1) =>
      if Ascii.eqb a "[" && Ascii.eqb b "S" then
        match span_digits s1 with
        | (String d ds, String c r) =>
            if Ascii.eqb c "]" then Some (String d ds, r) else None
        | _ => None
        end
      else None
  | _ => None
  end.

Definition marker (ds : string) : string := "[S" +:+ ds +:+ "]".

Definition all_digits (ds : string) : bool :=
  forallb is_digit (list_ascii_of_string ds).

(** [text.split(/(\[S\d+\])/g)]: the literal pieces and, between them,
    the matched markers (the pattern is one capture group).  [skip]
    counts the characters of a marker already emitted that are still
    ahead. *)
Fixpoint split_from (s : string) (skip : nat) : list string :=
  match s with
  | EmptyString => [EmptyString]
  | String a s' =>
      match skip with
      | S k => split_from s' k
      | O =>
          match marker_at s with
          | Some (ds, _) =>
              EmptyString :: marker ds :: split_from s' (String.length ds + 2)
          | None =>
              match split_from s' 0 with
              | lit :: parts => String a lit :: parts
              | [] => [String a EmptyString]
              end
          end
      end
  end.

Definition split (text : string) : list string := split_from text 0.

(** [part.match(/\[S(\d+)\]/)]: the first match anywhere in [part]; the
    result is its capture group. *)
Fixpoint match_marker (part : string) : option string :=
  match marker_at part with
  | Some (ds, _) => Some ds
  | None =>
      match part with
      | String _ part' => match_marker part'
      | EmptyString => None
      end
  end.

(** The elements [SimpleMarkdown] returns inside its paragraph: a button
    that calls [onSourceClick(sourceId)] and shows [sourceId], or a span
    with the text of the part. *)
Inductive Element :=
| button (sourceId : string)
| span (part : string).

Definition SimpleMarkdown (text : string) : list Element :=
  (λ part, match match_marker part with
           | Some ds => button ("S" +:+ ds)
           | None => span part
           end) <$> split text.

(** [Message] hands [message.text] to [SimpleMarkdown]; neither
    [message.sources] nor the panel's [sources] reaches the renderer. *)
Definition Message (message : Chat.ChatMessage) : list Element :=
  SimpleMarkdown (Chat.m_text message).

(** Clicking the element: a button runs the click handler of [App], a
    span has none. *)
Definition click (el : Element) (a : Chat.App) : Chat.App :=
  match el with
  | button sourceId => Chat.onSourceClick sourceId a
  | span _ => a
  end.

(** [s] without its first [k] characters. *)
Fixpoint skip_chars (k : nat) (s : string) : string :=
  match k, s with
  | S k', String _ s' => skip_chars k' s'
  | _, _ => s
  end.

(** The parts put together again. *)
Definition join (parts : list string) : string :=
  foldr String.append EmptyString parts.

(** The text an element stands for: a span its part, a button the marker
    of its id. *)
Definition source_of (el : Element) : string :=
  match el with
  | button sourceId => "[" +:+ sourceId +:+ "]"
  | span part => part
  end.

(** Parts that take turns: a literal part without a marker in it, then a
    marker, and so on, ending with a literal part. *)
Inductive alternating : list string → Prop :=
| alternating_last lit :
    match_marker lit = None → alternating [lit]
| alternating_more lit ds rest :
    match_marker lit = None → all_digits ds = true → ds ≠ EmptyString →
    alternating rest → alternating (lit :: marker ds :: rest).

(** The callback of [parts.map] in [SimpleMarkdown]: what one part
    becomes. *)
Definition render (part : string) : Element :=
  match match_marker part with
  | Some ds => button ("S" +:+ ds)
  | None => span part
  end.

End Markdown.

(** ** Poller: the video job loop ([VideoGeneratorPanel], [handleGenerate]) *)

Module Poller.

Record Video := mkVideo { v_uri : option string }.
Record GeneratedVideo := mkGenerated { gv_video : option Video }.
Record GenerateVideosResponse := mkVideos
  { generatedVideos : option (list GeneratedVideo) }.
Record Operation := mkOperation
  { done : option bool; response : option GenerateVideosResponse }.

(** [!operation.done] *)
Definition not_done (operation : Operation) : bool :=
  match done operation with
  | Some true => false
  | _ => true
  end.

(** [operation.response?.generatedVideos?.[0]?.video?.uri] *)
Definition downloadLink (operation : Operation) : option string :=
  r ← response operation; gs ← generatedVideos r; g ← head gs;
  v ← gv_video g; v_uri v.

Record File := mkFile { f_type : string }.

Inductive AspectRatio := landscape | portrait.

Record Panel := mkPanel
  { prompt : string;
    imageFile : option File;
    previewUrl : option string;
    aspectRatio : AspectRatio;
    isLoading : bool;
    loadingMessage : string;
    error : string }.

Definition setIsLoading (b : bool) (p : Panel) : Panel :=
  mkPanel (prompt p) (imageFile p) (previewUrl p) (aspectRatio p) b
          (loadingMessage p) (error p).
Definition setLoadingMessage (m : string) (p : Panel) : Panel :=
  mkPanel (prompt p) (imageFile p) (previewUrl p) (aspectRatio p)
          (isLoading p) m (error p).
Definition setError (m : string) (p : Panel) : Panel :=
  mkPanel (prompt p) (imageFile p) (previewUrl p) (aspectRatio p)
          (isLoading p) (loadingMessage p) m.

(** What [handleGenerate] does to the outside, in the order it does it. *)
Inductive Effect :=
| CheckApiKey
| FileToBase64
| GenerateVideo
| SetTimeout (ms : Z)
| CheckVideoStatus (operation : Operation)
| OnGenerationComplete (videoUrl userPrompt : string) (thumbUrl : option string)
| ConsoleError (e : JsError).

(** What the outside answers: the outcome of each awaited call.  [polls]
    are the replies to the successive [checkVideoStatus] calls; when the
    list is used up the next reply has not come (yet). *)
Record Remote := mkRemote
  { API_KEY : option string;
    checkApiKey : result unit;
    fileToBase64 : result string;
    generateVideo : result Operation;
    polls : list (result Operation) }.

(** How the [try] block can end. *)
Inductive Completion :=
| Returned
| Thrown (e : JsError)
| Suspended.

(** Lines 530-534: [while (!operation.done) { sleep; poll }].  Returns
    the last handle of a finished loop. *)
Fixpoint poll_loop (replies : list (result Operation)) (operation : Operation)
    (p : Panel) : Panel * list Effect * result (option Operation) :=
  if not_done operation then
    let p := setLoadingMessage "Still processing... Please wait." p in
    match replies with
    | [] => (p, [SetTimeout 10000; CheckVideoStatus operation], Ok None)
    | Ok operation' :: replies' =>
        let '(p', effs, r) := poll_loop replies' operation' p in
        (p', SetTimeout 10000 :: CheckVideoStatus operation :: effs, r)
    | Throw e :: _ =>
        (p, [SetTimeout 10000; CheckVideoStatus operation], Throw e)
    end
  else (p, [], Ok (Some operation)).

(** [s.includes(sub)] *)
Fixpoint includes (sub s : string) : bool :=
  String.prefix sub s ||
  match s with
  | String _ s' => includes sub s'
  | EmptyString => false
  end.

(** Lines 536-542: what is done with the handle of a finished job. *)
Definition deliver (env : Remote) (operation : Operation) (p : Panel)
    : list Effect * Completion :=
  if truthy_string (downloadLink operation) then
    ([OnGenerationComplete
        (js_to_string (downloadLink operation) +:+ "&key=" +:+
         js_to_string (API_KEY env))
        (prompt p) (previewUrl p)],
     Returned)
  else
    ([], Thrown (mkError "Video generation finished but no URI was returned.")).

(** Lines 522-542: the [try] block. *)
Definition try_block (env : Remote) (p : Panel)
    : Panel * list Effect * Completion :=
  match checkApiKey env with
  | Throw e => (p, [CheckApiKey], Thrown e)
  | Ok _ =>
    let p := setLoadingMessage "Uploading image and starting generation..." p in
    match fileToBase64 env with
    | Throw e => (p, [CheckApiKey; FileToBase64], Thrown e)
    | Ok _ =>
      match generateVideo env with
      | Throw e => (p, [CheckApiKey; FileToBase64; GenerateVideo], Thrown e)
      | Ok operation =>
        let p := setLoadingMessage
          "Video generation in progress... this can take a few minutes. Checking status every 10 seconds." p in
        let '(p, effs, r) := poll_loop (polls env) operation p in
        let before := [CheckApiKey; FileToBase64; GenerateVideo] ++ effs in
        match r with
        | Throw e => (p, before, Thrown e)
        | Ok None => (p, before, Suspended)
        | Ok (Some operation) =>
            let '(effs', c) := deliver env operation p in
            (p, before ++ effs', c)
        end
      end
    end
  end.

(** Lines 544-554: the [catch] and [finally] blocks. *)
Definition catch_block (e : JsError) (p : Panel) : Panel :=
  setError
    (if includes "Requested entity was not found" (e_message e)
     then "API Key is invalid or not found. Please select a valid key and try again."
     else "Failed to generate video. Please check the console.") p.

Definition finally_block (p : Panel) : Panel :=
  setLoadingMessage "" (setIsLoading false p).

(** [handleGenerate]: the panel after the call and what was done. *)
Definition handleGenerate (env : Remote) (p : Panel) : Panel * list Effect :=
  match prompt p, imageFile p with
  | String _ _, Some _ =>
      let p := setLoadingMessage "Checking API key..."
                 (setError "" (setIsLoading true p)) in
      match try_block env p with
      | (p, effs, Returned) => (finally_block p, effs)
      | (p, effs, Thrown e) =>
          (finally_block (catch_block e p), effs ++ [ConsoleError e])
      | (p, effs, Suspended) => (p, effs)
      end
  | _, _ => (setError "Please provide an image and a prompt." p, [])
  end.

Definition isSleep (e : Effect) : bool :=
  match e with SetTimeout _ => true | _ => false end.
Definition isPoll (e : Effect) : bool :=
  match e with CheckVideoStatus _ => true | _ => false end.
Definition sleeps (effs : list Effect) : nat := length (List.filter isSleep effs).
Definition pollsIssued (effs : list Effect) : nat :=
  length (List.filter isPoll effs).

(** One cycle per handle that is not done: a sleep of ten seconds, then a
    poll with that handle. *)
Definition cycles (operations : list Operation) : list Effect :=
  operations ≫= λ operation, [SetTimeout 10000; CheckVideoStatus operation].

Definition waiting (p : Panel) : Panel :=
  setLoadingMessage "Still processing... Please wait." p.

(** A run of the panel that the user gives up: [abandonedBefore] is the
    cycle before whose sleep they turn away from the job, if they do.
    [handleGenerate] has no parameter, no state and no check for it. *)
Definition handleGenerate_abandoned (abandonedBefore : option nat)
    (env : Remote) (p : Panel) : Panel * list Effect :=
  handleGenerate env p.

Definition isCallback (e : Effect) : bool :=
  match e with OnGenerationComplete _ _ _ => true | _ => false end.
Definition isConsoleError (e : Effect) : bool :=
  match e with ConsoleError _ => true | _ => false end.
(** How often the video was handed over, and how often an error was
    logged. *)
Definition handedOver (effs : list Effect) : nat :=
  length (List.filter isCallback effs).
Definition errorsLogged (effs : list Effect) : nat :=
  length (List.filter isConsoleError effs).

(** The calls in front of the loop. *)
Definition isRequest (e : Effect) : bool :=
  match e with CheckApiKey | FileToBase64 | GenerateVideo => true | _ => false end.

End Poller.

(** ** Images: the image requests ([generateImage], [editImage]) and the
    panels that issue them ([ImageGeneratorPanel], [ImageEditorPanel]) *)

Module Images.

(** The reply of [ai.models.generateImages], as far as [generateImage]
    reads it. *)
Record Image := mkImage { imageBytes : option string }.
Record GeneratedImage := mkGeneratedImage { image : option Image }.
Record GenerateImagesResponse := mkImages
  { generatedImages : option (list GeneratedImage) }.

(** The reply of [ai.models.generateContent], as far as [editImage] reads
    it. *)
Record InlineData := mkInlineData
  { data : option string; mimeType : option string }.
Record Part := mkPart { inlineData : option InlineData; text : option string }.
Record Content := mkContent { parts : option (list Part) }.
Record Candidate := mkCandidate { content : option Content }.
Record GenerateContentResponse := mkResponse
  { candidates : option (list Candidate) }.

(** The state of [ImageGeneratorPanel]. *)
Record Generator := mkGenerator
  { g_prompt : string;
    g_aspectRatio : string;
    g_isLoading : bool;
    g_error : string }.

Definition g_setIsLoading (b : bool) (p : Generator) : Generator :=
  mkGenerator (g_prompt p) (g_aspectRatio p) b (g_error p).
Definition g_setError (m : string) (p : Generator) : Generator :=
  mkGenerator (g_prompt p) (g_aspectRatio p) (g_isLoading p) m.

(** The state of [ImageEditorPanel]. *)
Record Editor := mkEditor
  { prompt : string;
    imageFile : option Poller.File;
    previewUrl : option string;
    isLoading : bool;
    error : string }.

Definition setImageFile (f : option Poller.File) (p : Editor) : Editor :=
  mkEditor (prompt p) f (previewUrl p) (isLoading p) (error p).
Definition setPreviewUrl (u : option string) (p : Editor) : Editor :=
  mkEditor (prompt p) (imageFile p) u (isLoading p) (error p).
Definition setPrompt (s : string) (p : Editor) : Editor :=
  mkEditor s (imageFile p) (previewUrl p) (isLoading p) (error p).
Definition setIsLoading (b : bool) (p : Editor) : Editor :=
  mkEditor (prompt p) (imageFile p) (previewUrl p) b (error p).
Definition setError (m : string) (p : Editor) : Editor :=
  mkEditor (prompt p) (imageFile p) (previewUrl p) (isLoading p) m.

(** What the two panels do to the outside, in the order they do it. *)
Inductive Effect :=
| GenerateImages (prompt aspectRatio : string)
| FileToBase64 (file : Poller.File)
| GenerateContent (prompt data mimeType : string)
| OnGenerationComplete (imageUrl prompt : string)
| OnEditComplete (editedUrl : string) (originalUrl : option string)
    (prompt : string)
| ConsoleError (e : JsError).

(** What the outside answers to [handleEdit]: the outcome of each awaited
    call. *)
Record Remote := mkRemote
  { fileToBase64 : result string;
    generateContent : result GenerateContentResponse }.

Section WithTypeError.

(** The [TypeError] the engine raises when a property is read of
    [undefined], by the name of the property; its message is the
    engine's. *)
Variable TypeError : string → JsError.

(** [generateImage], from the reply of the awaited request on. *)
Definition generateImage (reply : result GenerateImagesResponse)
    : result string :=
  match reply with
  | Throw e => Throw e
  | Ok response =>
    match generatedImages response with
    | None => Throw (TypeError "0")
    | Some gs =>
      match gs !! 0 with
      | None => Throw (TypeError "image")
      | Some g =>
        match image g with
        | None => Throw (TypeError "imageBytes")
        | Some i =>
            Ok ("data:image/jpeg;base64," +:+ js_to_string (imageBytes i))
        end
      end
    end
  end.

(** Lines 67-72: [for (const part of parts) { if (part.inlineData) return
    ... } throw ...]. *)
Fixpoint for_of_parts (ps : list Part) : result string :=
  match ps with
  | [] => Throw (mkError "No image generated from edit.")
  | part :: ps' =>
    match inlineData part with
    | Some d =>
        Ok ("data:" +:+ js_to_string (mimeType d) +:+ ";base64," +:+
            js_to_string (data d))
    | None => for_of_parts ps'
    end
  end.

(** [editImage], from the reply of the awaited request on. *)
Definition editImage (reply : result GenerateContentResponse)
    : result string :=
  match reply with
  | Throw e => Throw e
  | Ok response =>
    match candidates response with
    | None => Throw (TypeError "0")
    | Some cs =>
      match cs !! 0 with
      | None => Throw (TypeError "content")
      | Some c =>
        match content c with
        | None => Throw (TypeError "parts")
        | Some ct =>
          match parts ct with
          | None => Throw (TypeError "Symbol.iterator")
          | Some ps => for_of_parts ps
          end
        end
      end
    end
  end.

(** [ImageGeneratorPanel.handleGenerate]: the panel after the call and
    what was done. *)
Definition handleGenerate (reply : result GenerateImagesResponse)
    (p : Generator) : Generator * list Effect :=
  match g_prompt p with
  | EmptyString => (g_setError "Please enter a prompt." p, [])
  | String _ _ =>
    let p := g_setError "" (g_setIsLoading true p) in
    let request := GenerateImages (g_prompt p) (g_aspectRatio p) in
    match generateImage reply with
    | Ok imageUrl =>
        (g_setIsLoading false p,
         [request; OnGenerationComplete imageUrl (g_prompt p)])
    | Throw e =>
        (g_setIsLoading false
           (g_setError
              "Failed to generate image. Please check the console for details."
              p),
         [request; ConsoleError e])
    end
  end.

(** [ImageEditorPanel.handleFileChange]: [file] is [e.target.files?.[0]],
    [url] what [URL.createObjectURL] gives for it. *)
Definition handleFileChange (file : option Poller.File) (url : string)
    (p : Editor) : Editor :=
  match file with
  | Some f => setPreviewUrl (Some url) (setImageFile (Some f) p)
  | None => p
  end.

(** [ImageEditorPanel.handleEdit]: the panel after the call and what was
    done. *)
Definition handleEdit (env : Remote) (p : Editor) : Editor * list Effect :=
  match prompt p, imageFile p with
  | String _ _, Some file =>
    let p := setError "" (setIsLoading true p) in
    match fileToBase64 env with
    | Throw e =>
        (setIsLoading false (setError "Failed to edit image." p),
         [FileToBase64 file; ConsoleError e])
    | Ok base64Data =>
      let request :=
        GenerateContent (prompt p) base64Data (Poller.f_type file) in
      match editImage (generateContent env) with
      | Ok editedUrl =>
          (setIsLoading false p,
           [FileToBase64 file; request;
            OnEditComplete editedUrl (previewUrl p) (prompt p)])
      | Throw e =>
          (setIsLoading false (setError "Failed to edit image." p),
           [FileToBase64 file; request; ConsoleError e])
      end
    end
  | _, _ => (setError "Please provide an image and a prompt." p, [])
  end.

(** What can happen to the editor panel: a file is chosen, the prompt is
    typed, the button is clicked (with what the outside answers, the call
    being taken to its end before the next event). *)
Inductive Event :=
| FileChange (file : option Poller.File) (url : string)
| PromptChange (value : string)
| EditClick (env : Remote).

Definition step (st : Editor * list Effect) (ev : Event)
    : Editor * list Effect :=
  match ev with
  | FileChange file url => (handleFileChange file url (fst st), snd st)
  | PromptChange value => (setPrompt value (fst st), snd st)
  | EditClick env =>
      let '(p, effs) := handleEdit env (fst st) in (p, snd st ++ effs)
  end.

Definition run (evs : list Event) (st : Editor * list Effect)
    : Editor * list Effect :=
  foldl step st evs.

End WithTypeError.

(** [useState] initial values of [ImageEditorPanel]. *)
Definition initialEditor : Editor :=
  mkEditor "" None None false "".

(** [response.candidates?.[0]?.content?.parts] *)
Definition partsOf (response : GenerateContentResponse)
    : option (list Part) :=
  cs ← candidates response; c ← head cs; ct ← content c; parts ct.

(** The data URL of an inline part. *)
Definition dataUrl (d : InlineData) : string :=
  "data:" +:+ js_to_string (mimeType d) +:+ ";base64," +:+
  js_to_string (data d).

(** [response.generatedImages?.[0]?.image] *)
Definition firstImage (response : GenerateImagesResponse) : option Image :=
  gs ← generatedImages response; g ← head gs; image g.

(** The first image of the reply of a request that succeeded. *)
Definition receivedImage (reply : result GenerateImagesResponse)
    : option Image :=
  match reply with
  | Ok response => firstImage response
  | Throw _ => None
  end.

Definition isCallback (e : Effect) : bool :=
  match e with
  | OnGenerationComplete _ _ | OnEditComplete _ _ _ => true
  | _ => false
  end.
Definition isConsoleError (e : Effect) : bool :=
  match e with ConsoleError _ => true | _ => false end.

End Images.

(** ** Live: the real-time audio session ([LiveConversation]) *)

Module Live.

Record Transcription := mkTranscription { user : string; model : string }.

(** Clock readings of the output context ([currentTime]) and buffer
    durations are counted in sample frames of that context (24000 to the
    second), in which both are whole numbers; the rounding of the
    JavaScript numbers that hold them in seconds is not modelled. *)
Definition seconds (n : N) : N := (n * 24000)%N.

(** [AudioContext.state]; a suspended context behaves as a running one
    in everything the component does. *)
Inductive ContextState := running | closed.

(** An [AudioBufferSourceNode]: the duration of its buffer, the time
    given to [start] once it was called, and whether [stop] was called. *)
Record SourceNode := mkNode
  { duration : N; startedAt : option N; stopped : bool }.

(** A server message, as far as [onmessage] reads it. *)
Record Blob := mkBlob { data : option string }.
Record Part := mkPart { inlineData : option Blob }.
Record Content := mkContent { parts : option (list Part) }.
Record TranscriptionText := mkText { text : option string }.
Record ServerContent := mkServerContent
  { inputTranscription : option TranscriptionText;
    outputTranscription : option TranscriptionText;
    turnComplete : bool;
    modelTurn : option Content;
    interrupted : bool }.
Record LiveServerMessage := mkMessage
  { serverContent : option ServerContent }.

(** What is done to the objects the refs point to, latest first. *)
Inductive Effect :=
| SessionClose
| TracksStop
| ProcessorDisconnect
| InputContextClose
| OutputContextClose
| SendRealtimeInput (payload : string)
| ConsoleError (what : string).

(** A handler suspended in [await decodeAudioData(...)]: of its message
    it still needs the interruption flag. *)
Record Frame := mkFrame { f_interrupted : bool }.

(** The state of the component: the React state, the refs, and behind
    them the source nodes created so far ([nodes], a node's handle is its
    index), the suspended [onmessage] calls and the effects. *)
Record State := mkState
  { isActive : bool;
    error : option string;
    transcriptionHistory : list Transcription;
    currentTranscription : Transcription;
    sessionPromiseRef : option unit;
    inputAudioContextRef : option ContextState;
    outputAudioContextRef : option ContextState;
    mediaStreamRef : option unit;
    scriptProcessorRef : option unit;
    nextStartTimeRef : N;
    audioSourcesRef : gset nat;
    nodes : list SourceNode;
    suspended : list Frame;
    effects : list Effect }.

Definition initial : State :=
  mkState false None [] (mkTranscription "" "") None None None None None
          0%N ∅ [] [] [].

Definition setIsActive (b : bool) (s : State) : State :=
  mkState b (error s) (transcriptionHistory s) (currentTranscription s)
    (sessionPromiseRef s) (inputAudioContextRef s) (outputAudioContextRef s)
    (mediaStreamRef s) (scriptProcessorRef s) (nextStartTimeRef s)
    (audioSourcesRef s) (nodes s) (suspended s) (effects s).
Definition setError (e : option string) (s : State) : State :=
  mkState (isActive s) e (transcriptionHistory s) (currentTranscription s)
    (sessionPromiseRef s) (inputAudioContextRef s) (outputAudioContextRef s)
    (mediaStreamRef s) (scriptProcessorRef s) (nextStartTimeRef s)
    (audioSourcesRef s) (nodes s) (suspended s) (effects s).
Definition setTranscriptionHistory (h : list Transcription) (s : State) : State :=
  mkState (isActive s) (error s) h (currentTranscription s)
    (sessionPromiseRef s) (inputAudioContextRef s) (outputAudioContextRef s)
    (mediaStreamRef s) (scriptProcessorRef s) (nextStartTimeRef s)
    (audioSourcesRef s) (nodes s) (suspended s) (effects s).
Definition setCurrentTranscription (t : Transcription) (s : State) : State :=
  mkState (isActive s) (error s) (transcriptionHistory s) t
    (sessionPromiseRef s) (inputAudioContextRef s) (outputAudioContextRef s)
    (mediaStreamRef s) (scriptProcessorRef s) (nextStartTimeRef s)
    (audioSourcesRef s) (nodes s) (suspended s) (effects s).
Definition setSessionPromise (r : option unit) (s : State) : State :=
  mkState (isActive s) (error s) (transcriptionHistory s) (currentTranscription s)
    r (inputAudioContextRef s) (outputAudioContextRef s)
    (mediaStreamRef s) (scriptProcessorRef s) (nextStartTimeRef s)
    (audioSourcesRef s) (nodes s) (suspended s) (effects s).
Definition setInputAudioContext (r : option ContextState) (s : State) : State :=
  mkState (isActive s) (error s) (transcriptionHistory s) (currentTranscription s)
    (sessionPromiseRef s) r (outputAudioContextRef s)
    (mediaStreamRef s) (scriptProcessorRef s) (nextStartTimeRef s)
    (audioSourcesRef s) (nodes s) (suspended s) (effects s).
Definition setOutputAudioContext (r : option ContextState) (s : State) : State :=
  mkState (isActive s) (error s) (transcriptionHistory s) (currentTranscription s)
    (sessionPromiseRef s) (inputAudioContextRef s) r
    (mediaStreamRef s) (scriptProcessorRef s) (nextStartTimeRef s)
    (audioSourcesRef s) (nodes s) (suspended s) (effects s).
Definition setMediaStream (r : option unit) (s : State) : State :=
  mkState (isActive s) (error s) (transcriptionHistory s) (currentTranscription s)
    (sessionPromiseRef s) (inputAudioContextRef s) (outputAudioContextRef s)
    r (scriptProcessorRef s) (nextStartTimeRef s)
    (audioSourcesRef s) (nodes s) (suspended s) (effects s).
Definition setScriptProcessor (r : option unit) (s : State) : State :=
  mkState (isActive s) (error s) (transcriptionHistory s) (currentTranscription s)
    (sessionPromiseRef s) (inputAudioContextRef s) (outputAudioContextRef s)
    (mediaStreamRef s) r (nextStartTimeRef s)
    (audioSourcesRef s) (nodes s) (suspended s) (effects s).
Definition setNextStartTime (t : N) (s : State) : State :=
  mkState (isActive s) (error s) (transcriptionHistory s) (currentTranscription s)
    (sessionPromiseRef s) (inputAudioContextRef s) (outputAudioContextRef s)
    (mediaStreamRef s) (scriptProcessorRef s) t
    (audioSourcesRef s) (nodes s) (suspended s) (effects s).
Definition setAudioSources (a : gset nat) (s : State) : State :=
  mkState (isActive s) (error s) (transcriptionHistory s) (currentTranscription s)
    (sessionPromiseRef s) (inputAudioContextRef s) (outputAudioContextRef s)
    (mediaStreamRef s) (scriptProcessorRef s) (nextStartTimeRef s)
    a (nodes s) (suspended s) (effects s).
Definition setNodes (n : list SourceNode) (s : State) : State :=
  mkState (isActive s) (error s) (transcriptionHistory s) (currentTranscription s)
    (sessionPromiseRef s) (inputAudioContextRef s) (outputAudioContextRef s)
    (mediaStreamRef s) (scriptProcessorRef s) (nextStartTimeRef s)
    (audioSourcesRef s) n (suspended s) (effects s).
Definition setSuspended (f : list Frame) (s : State) : State :=
  mkState (isActive s) (error s) (transcriptionHistory s) (currentTranscription s)
    (sessionPromiseRef s) (inputAudioContextRef s) (outputAudioContextRef s)
    (mediaStreamRef s) (scriptProcessorRef s) (nextStartTimeRef s)
    (audioSourcesRef s) (nodes s) f (effects s).
Definition effect (e : Effect) (s : State) : State :=
  mkState (isActive s) (error s) (transcriptionHistory s) (currentTranscription s)
    (sessionPromiseRef s) (inputAudioContextRef s) (outputAudioContextRef s)
    (mediaStreamRef s) (scriptProcessorRef s) (nextStartTimeRef s)
    (audioSourcesRef s) (nodes s) (suspended s) (e :: effects s).

(** A handler ends with the state it leaves and the exception it raised,
    if it raised one. *)
Definition outcome : Type := State * option JsError.

(** [source.stop()]: an [InvalidStateError] unless [start] was called on
    the node before. *)
Definition stop (source : nat) (s : State) : outcome :=
  match nodes s !! source with
  | Some n =>
      match startedAt n with
      | Some _ =>
          (setNodes (<[source := mkNode (duration n) (startedAt n) true]> (nodes s)) s,
           None)
      | None => (s, Some (mkError "InvalidStateError"))
      end
  | None => (s, Some (mkError "InvalidStateError"))
  end.

(** [sources.forEach(source => source.stop())] *)
Fixpoint forEach_stop (sources : list nat) (s : State) : outcome :=
  match sources with
  | [] => (s, None)
  | source :: rest =>
      match stop source s with
      | (s', None) => forEach_stop rest s'
      | thrown => thrown
      end
  end.

(** Lines 51-53 and 147-149: stop every tracked source, clear the set,
    reset the cursor. *)
Definition stopAndClear (s : State) : outcome :=
  match forEach_stop (elements (audioSourcesRef s)) s with
  | (s, None) => (setNextStartTime 0%N (setAudioSources ∅ s), None)
  | thrown => thrown
  end.

(** [ctx && ctx.state !== 'closed'], the guard of [ctx.close()].  [close]
    marks the context closed at once (the control thread state of the Web
    Audio specification); on a closed context it would return a rejected
    promise, it does not throw. *)
Definition is_open (ctx : option ContextState) : bool :=
  match ctx with Some running => true | _ => false end.

(** Lines 29-55. *)
Definition stopConversation (s : State) : outcome :=
  let s := setIsActive false s in
  let s := setError None s in
  let s := match sessionPromiseRef s with
           | Some _ => setSessionPromise None (effect SessionClose s)
           | None => s
           end in
  let s := match mediaStreamRef s with
           | Some _ => setMediaStream None (effect TracksStop s)
           | None => s
           end in
  let s := match scriptProcessorRef s with
           | Some _ => setScriptProcessor None (effect ProcessorDisconnect s)
           | None => s
           end in
  let s := if is_open (inputAudioContextRef s)
           then setInputAudioContext (Some closed) (effect InputContextClose s)
           else s in
  let s := if is_open (outputAudioContextRef s)
           then setOutputAudioContext (Some closed) (effect OutputContextClose s)
           else s in
  stopAndClear s.

(** Lines 57-167, [startConversation]: [contexts] is the outcome of
    constructing the two audio contexts, [mic] that of [getUserMedia],
    [connect] that of creating the client and calling [ai.live.connect]. *)
Definition start_failed (s : State) : State :=
  setIsActive false
    (setError (Some "Could not access microphone or start session.")
       (effect (ConsoleError "Failed to start conversation:") s)).

Definition startConversation (contexts mic connect : result unit) (s : State)
    : outcome :=
  if isActive s then stopConversation s
  else
    let s := setIsActive true s in
    let s := setError None s in
    let s := setTranscriptionHistory [] s in
    let s := setCurrentTranscription (mkTranscription "" "") s in
    match contexts with
    | Throw _ => (start_failed s, None)
    | Ok _ =>
        let s := setInputAudioContext (Some running) s in
        let s := setOutputAudioContext (Some running) s in
        match mic with
        | Throw _ => (start_failed s, None)
        | Ok _ =>
            let s := setMediaStream (Some ()) s in
            match connect with
            | Throw _ => (start_failed s, None)
            | Ok _ => (setSessionPromise (Some ()) s, None)
            end
        end
    end.

(** Lines 90-112, [onopen]: the capture node is created from the input
    context and the microphone stream, both dereferenced unchecked. *)
Definition onopen (s : State) : outcome :=
  match inputAudioContextRef s, mediaStreamRef s with
  | Some _, Some _ => (setScriptProcessor (Some ()) s, None)
  | _, _ => (s, Some (mkError "TypeError"))
  end.

(** Lines 114-125: the transcript fragments and the end of a turn. *)
Definition onmessage_transcripts (message : LiveServerMessage) (s : State) : State :=
  match serverContent message with
  | None => s
  | Some sc =>
      let s := match inputTranscription sc with
               | Some t =>
                   let prev := currentTranscription s in
                   setCurrentTranscription
                     (mkTranscription (user prev +:+ js_to_string (text t)) (model prev)) s
               | None => s
               end in
      let s := match outputTranscription sc with
               | Some t =>
                   let prev := currentTranscription s in
                   setCurrentTranscription
                     (mkTranscription (user prev) (model prev +:+ js_to_string (text t))) s
               | None => s
               end in
      if turnComplete sc
      then setCurrentTranscription (mkTranscription "" "")
             (setTranscriptionHistory
                (transcriptionHistory s ++ [currentTranscription s]) s)
      else s
  end.

(** Line 127: [message.serverContent?.modelTurn?.parts[0]?.inlineData.data].
    Indexing a missing [parts] and reading [data] of a missing
    [inlineData] raise a [TypeError]. *)
Definition base64Audio (message : LiveServerMessage) : result (option string) :=
  match serverContent message with
  | None => Ok None
  | Some sc =>
      match modelTurn sc with
      | None => Ok None
      | Some turn =>
          match parts turn with
          | None => Throw (mkError "TypeError")
          | Some [] => Ok None
          | Some (part :: _) =>
              match inlineData part with
              | None => Throw (mkError "TypeError")
              | Some blob => Ok (data blob)
              end
          end
      end
  end.

(** [message.serverContent?.interrupted] *)
Definition is_interrupted (message : LiveServerMessage) : bool :=
  match serverContent message with
  | Some sc => interrupted sc
  | None => false
  end.

(** Lines 146-150. *)
Definition onmessage_interrupted (flag : bool) (s : State) : outcome :=
  if flag then stopAndClear s else (s, None).

(** How the first segment of [onmessage] ends. *)
Inductive begun :=
| Finished (r : outcome)
| Awaiting (s : State) (frame : Frame).

(** Lines 114-131: up to the [await] of the decoder, or to the end when
    the message has no audio to play. *)
Definition onmessage_begin (message : LiveServerMessage) (currentTime : N)
    (s : State) : begun :=
  let s := onmessage_transcripts message s in
  match base64Audio message with
  | Throw e => Finished (s, Some e)
  | Ok payload =>
      if truthy_string payload && bool_decide (is_Some (outputAudioContextRef s))
      then Awaiting (setNextStartTime (N.max (nextStartTimeRef s) currentTime) s)
                    (mkFrame (is_interrupted message))
      else Finished (onmessage_interrupted (is_interrupted message) s)
  end.

(** Lines 133-143: a new source node is started at the cursor, the cursor
    moves on by the duration of the buffer, the node is tracked. *)
Definition schedule (bufferDuration : N) (s : State) : State :=
  let source := length (nodes s) in
  let s := setNodes (nodes s ++ [mkNode bufferDuration (Some (nextStartTimeRef s)) false]) s in
  let s := setNextStartTime (nextStartTimeRef s + bufferDuration)%N s in
  setAudioSources ({[ source ]} ∪ audioSourcesRef s) s.

(** Lines 131-150: the decoder has answered with the duration of the
    decoded buffer, or has failed. *)
Definition onmessage_resume (frame : Frame) (audioBuffer : result N)
    (s : State) : outcome :=
  match audioBuffer with
  | Throw e => (s, Some e)
  | Ok bufferDuration =>
      onmessage_interrupted (f_interrupted frame) (schedule bufferDuration s)
  end.

(** Lines 137-139: the listener of a source's [ended] event. *)
Definition onended (source : nat) (s : State) : State :=
  setAudioSources (audioSourcesRef s ∖ {[ source ]}) s.

(** Lines 152-156. *)
Definition onerror (s : State) : outcome :=
  stopConversation
    (setError (Some "A connection error occurred.")
       (effect (ConsoleError "Live session error:") s)).

(** What can happen to the mounted component. *)
Inductive Event :=
| Click (contexts mic connect : result unit)
| Opened
| Received (message : LiveServerMessage) (currentTime : N)
| Decoded (i : nat) (audioBuffer : result N)
| Ended (source : nat)
| Errored
| Cleanup.

(** An exception leaves a handler with the state as it is then; the next
    event finds that state. *)
Definition step (ev : Event) (s : State) : State :=
  match ev with
  | Click contexts mic connect => fst (startConversation contexts mic connect s)
  | Opened => fst (onopen s)
  | Received message currentTime =>
      match onmessage_begin message currentTime s with
      | Finished r => fst r
      | Awaiting s frame => setSuspended (suspended s ++ [frame]) s
      end
  | Decoded i audioBuffer =>
      match suspended s !! i with
      | Some frame =>
          fst (onmessage_resume frame audioBuffer
                 (setSuspended (delete i (suspended s)) s))
      | None => s
      end
  | Ended source => onended source s
  | Errored => fst (onerror s)
  | Cleanup => fst (stopConversation s)
  end.

Definition run (evs : list Event) (s : State) : State :=
  foldl (λ s ev, step ev s) s evs.

(** The states the component can be in. *)
Definition reachable (s : State) : Prop := ∃ evs, run evs initial = s.

(** [start] was called on the node behind the handle. *)
Definition started (ns : list SourceNode) (source : nat) : Prop :=
  ∃ n, ns !! source = Some n ∧ is_Some (startedAt n).

(** Every tracked source has been started: [onmessage] adds a source to
    the set only after starting it. *)
Definition tracked_started (s : State) : Prop :=
  ∀ source, source ∈ audioSourcesRef s → started (nodes s) source.

(** What [stop] may have done to a node. *)
Definition stopped_later (n0 n : SourceNode) : Prop :=
  duration n = duration n0 ∧ startedAt n = startedAt n0 ∧
  (stopped n0 = true → stopped n = true).

(** The session at rest: not active, nothing held, nothing playing. *)
Definition idle (s : State) : Prop :=
  isActive s = false ∧ error s = None ∧
  sessionPromiseRef s = None ∧ mediaStreamRef s = None ∧
  scriptProcessorRef s = None ∧
  is_open (inputAudioContextRef s) = false ∧
  is_open (outputAudioContextRef s) = false ∧
  audioSourcesRef s = ∅ ∧ nextStartTimeRef s = 0%N.

(** The releases [stopConversation] performs in a state, latest first:
    one for each resource that is held. *)
Definition releases (s : State) : list Effect :=
  (if is_open (outputAudioContextRef s) then [OutputContextClose] else []) ++
  (if is_open (inputAudioContextRef s) then [InputContextClose] else []) ++
  (if bool_decide (is_Some (scriptProcessorRef s))
   then [ProcessorDisconnect] else []) ++
  (if bool_decide (is_Some (mediaStreamRef s)) then [TracksStop] else []) ++
  (if bool_decide (is_Some (sessionPromiseRef s)) then [SessionClose] else []).

(** A message that carries an audio payload and nothing else. *)
Definition audioMessage (payload : string) : LiveServerMessage :=
  mkMessage (Some (mkServerContent None None false
    (Some (mkContent (Some [mkPart (Some (mkBlob (Some payload)))]))) false)).

(** A message that carries the interruption signal and nothing else. *)
Definition interruptedMessage : LiveServerMessage :=
  mkMessage (Some (mkServerContent None None false None true)).

(** The tracked sources are scheduled one after the other: each one was
    started, at a time handed to [start] that, with the duration of its
    buffer, does not pass the cursor, and of two of them the one created
    first ends, as scheduled, before the other starts. *)
Definition in_sequence_of (tracked : gset nat) (ns : list SourceNode)
    (cursor : N) : Prop :=
  (∀ h, h ∈ tracked →
        ∃ n t, ns !! h = Some n ∧ startedAt n = Some t ∧
               (t + duration n ≤ cursor)%N) ∧
  (∀ h1 h2 n1 n2 t1 t2,
      h1 ∈ tracked → h2 ∈ tracked → h1 < h2 →
      ns !! h1 = Some n1 → ns !! h2 = Some n2 →
      startedAt n1 = Some t1 → startedAt n2 = Some t2 →
      (t1 + duration n1 ≤ t2)%N).

Definition in_sequence (s : State) : Prop :=
  in_sequence_of (audioSourcesRef s) (nodes s) (nextStartTimeRef s).

(** The turns so far, the one in progress last. *)
Definition turns (s : State) : list Transcription :=
  transcriptionHistory s ++ [currentTranscription s].

(** All the text of one side, in order. *)
Definition allText (side : Transcription → string) (s : State) : string :=
  foldr String.append EmptyString (side <$> turns s).

(** The text a message adds to a side: [transcription.text] converted to
    a string when the message has the transcription, nothing otherwise. *)
Definition fragmentOf (side : ServerContent → option TranscriptionText)
    (message : LiveServerMessage) : string :=
  match serverContent message ≫= side with
  | Some t => js_to_string (text t)
  | None => EmptyString
  end.


End Live.

(** ** Codec: microphone blocks to PCM ([onaudioprocess]) *)

Module Codec.

Local Open Scope Z_scope.

(** The elements of the [Float32Array] are binary32 numbers; here a
    [spec_float] whose mantissa and exponent fit that format. *)
Definition float32 (x : spec_float) : bool := valid_binary 24 128 x.

(** A sample of the given value [m * 2^e], rounded to binary32. *)
Definition sample (m e : Z) : spec_float := binary_normalize 24 128 m e false.

(** Reading [inputData[i]] gives a Number, the binary64 number of the
    same value. *)
Definition toNumber (x : spec_float) : spec_float :=
  match x with
  | S754_finite s m e => binary_normalize 53 1024 (cond_Zopp s (Zpos m)) e s
  | _ => x
  end.

(** The Number 32768. *)
Definition n32768 : spec_float := binary_normalize 53 1024 32768 0 false.

(** [inputData[i] * 32768], the binary64 product. *)
Definition scaled (x : spec_float) : spec_float := SFmul 53 1024 (toNumber x) n32768.

(** [truncate] of ECMAScript: the integer part of a finite number,
    rounding toward zero. *)
Definition truncate (x : spec_float) : Z :=
  match x with
  | S754_finite s m e =>
      cond_Zopp s (match e with
                   | Zneg p => Z.shiftr (Zpos m) (Zpos p)
                   | _ => Z.shiftl (Zpos m) e
                   end)
  | _ => 0
  end.

(** [ToInt16], the conversion done by a store into an [Int16Array]:
    NaN and the infinities give 0, any other number its integer part
    modulo 2^16, taken in [-2^15, 2^15). *)
Definition ToInt16 (x : spec_float) : Z :=
  let int16bit := truncate x mod 2 ^ 16 in
  if 2 ^ 15 <=? int16bit then int16bit - 2 ^ 16 else int16bit.

(** Lines 97-100: [int16[i] = inputData[i] * 32768]. *)
Definition int16 (inputData : list spec_float) : list Z :=
  (λ x, ToInt16 (scaled x)) <$> inputData.

(** [new Uint8Array(int16.buffer)]: the two bytes of each element in
    the byte order of the platform, which is little-endian on the
    machines browsers run on: low byte first. *)
Definition bytes_of_int16 (v : Z) : list Z :=
  [Z.land v 255; Z.land (Z.shiftr v 8) 255].

Definition Uint8Array (l : list Z) : list Z := l ≫= bytes_of_int16.

(** Modelled from the spec: [encode] of [utils/mediaHelpers], which is
    not among the sources; the document names base64 as the transport
    encoding of the bytes.  This is base64 with the standard alphabet and
    padding, as [btoa] computes it. *)
Definition alphabet : string :=
  "ABCDEFGHIJKLMNOPQRSTUVWXYZabcdefghijklmnopqrstuvwxyz0123456789+/".

Definition sextet (n : Z) : ascii :=
  match String.get (Z.to_nat n) alphabet with
  | Some a => a
  | None => "="%char
  end.

Fixpoint encode (bytes : list Z) : string :=
  match bytes with
  | [] => EmptyString
  | [a] =>
      String (sextet (Z.shiftr a 2))
        (String (sextet (Z.shiftl (Z.land a 3) 4)) "==")
  | [a; b] =>
      String (sextet (Z.shiftr a 2))
        (String (sextet (Z.lor (Z.shiftl (Z.land a 3) 4) (Z.shiftr b 4)))
           (String (sextet (Z.shiftl (Z.land b 15) 2)) "="))
  | a :: b :: c :: rest =>
      String (sextet (Z.shiftr a 2))
        (String (sextet (Z.lor (Z.shiftl (Z.land a 3) 4) (Z.shiftr b 4)))
           (String (sextet (Z.lor (Z.shiftl (Z.land b 15) 2) (Z.shiftr c 6)))
              (String (sextet (Z.land c 63)) (encode rest))))
  end.

Record PcmBlob := mkPcmBlob { data : string; mimeType : string }.

(** Lines 94-104: the blob sent for one capture block. *)
Definition onaudioprocess (inputData : list spec_float) : PcmBlob :=
  mkPcmBlob (encode (Uint8Array (int16 inputData))) "audio/pcm;rate=16000".

(** The reading of the document: [round(sample * 32768)], the integer
    nearest to the scaled sample (halves away from zero), then stored as
    16 bits. *)
Definition round_nearest (x : spec_float) : Z :=
  match x with
  | S754_finite s m e =>
      cond_Zopp s (match e with
                   | Zneg p => Z.shiftr (Zpos m + Z.shiftl 1 (Zpos p - 1)) (Zpos p)
                   | _ => Z.shiftl (Zpos m) e
                   end)
  | _ => 0
  end.

Definition wrap16 (n : Z) : Z :=
  let r := n mod 2 ^ 16 in if 2 ^ 15 <=? r then r - 2 ^ 16 else r.

(** The integers the blob would carry if the samples were rounded. *)
Definition int16_rounded (inputData : list spec_float) : list Z :=
  (λ x, wrap16 (round_nearest (scaled x))) <$> inputData.

End Codec.


(** ** Sample inputs *)

Module Samples.

Import Chat.

(** A stand-in for the host of a URL: what follows "https://" up to the
    next slash; any other text is not a URL. *)
Fixpoint up_to_slash (s : string) : string :=
  match s with
  | String a s' => if Ascii.eqb a "/" then EmptyString else String a (up_to_slash s')
  | EmptyString => EmptyString
  end.

Definition hostname (u : string) : option string :=
  if String.prefix "https://" u
  then Some (up_to_slash (substring 8 (String.length u - 8) u))
  else None.

Definition webSource (u t : string) : GroundingChunk := mkChunk (Some (mkWeb u t)).

Definition fragment (t : string) (gcs : list GroundingChunk) : GenerateContentResponse :=
  mkResponse (Some t) (Some [mkCandidate (Some (mkGM (Some gcs)))]).

Definition sourceA : GroundingChunk := webSource "https://a.example/x" "A".
Definition sourceB : GroundingChunk := webSource "https://b.example/y" "B".

Definition twoSources : GenerateContentResponse := fragment "Hel" [sourceA; sourceB].
Definition oneSource : GenerateContentResponse := fragment "lo" [sourceB].

(** A fragment whose grounding metadata has no list of sources (only the
    search queries, say), and one whose list has an entry that is not a
    web source in front of one that is. *)
Definition queriesOnly : GenerateContentResponse :=
  mkResponse (Some "lo") (Some [mkCandidate (Some (mkGM None))]).
Definition mixedSources : GenerateContentResponse :=
  fragment "lo" [mkChunk None; sourceB].

(** A page in the middle of an exchange: the prompt was sent and the
    fragment with two sources has arrived. *)
Definition streaming : Page :=
  run hostname [Send 1700000000000 1700000000000 "hi" None; Chunk twoSources]
      initialPage.

Definition theExchange : Exchange :=
  mkExchange "1700000000001" "Hel"
    [mkSource "S1" "https://a.example/x" "A" "a.example";
     mkSource "S2" "https://b.example/y" "B" "b.example"].

(** A message that cites S1 and S9 and has S1 only. *)
Definition citing : ChatMessage :=
  mkMessage "1700000000001" MODEL "See [S1] and [S9]"
    (Some [mkSource "S1" "https://a.example/x" "A" "a.example"]) None (Some false).

Definition panelWithS1 : App :=
  mkApp [citing] "" false [mkSource "S1" "https://a.example/x" "A" "a.example"]
        None true.

(** A video job seen not done three times, then done. *)
Definition notDone : Poller.Operation := Poller.mkOperation None None.
Definition doneWith (link : option string) : Poller.Operation :=
  Poller.mkOperation (Some true)
    (Some (Poller.mkVideos (Some [Poller.mkGenerated (Some (Poller.mkVideo link))]))).

Definition remote (last : Poller.Operation) : Poller.Remote :=
  Poller.mkRemote (Some "KEY") (Ok ()) (Ok "aW1n") (Ok notDone)
    [Ok notDone; Ok notDone; Ok last].

Definition panel : Poller.Panel :=
  Poller.mkPanel "a cat" (Some (Poller.mkFile "image/png")) (Some "blob:1")
    Poller.landscape false "" "".

(** A live session that was started, and one whose start failed because
    the microphone was refused. *)
Definition listening : Live.State :=
  Live.run [Live.Click (Ok ()) (Ok ()) (Ok ()); Live.Opened] Live.initial.

Definition refused : Live.State :=
  Live.run [Live.Click (Ok ()) (Throw (mkError "NotAllowedError")) (Ok ())] Live.initial.

(** Three chunks scheduled in a started session. *)
Definition playing : Live.State :=
  Live.run
    [Live.Received (Live.audioMessage "AAAA") 0%N; Live.Decoded 0 (Ok (Live.seconds 2));
     Live.Received (Live.audioMessage "AAAA") 0%N; Live.Decoded 0 (Ok (Live.seconds 3));
     Live.Received (Live.audioMessage "AAAA") 0%N; Live.Decoded 0 (Ok (Live.seconds 1))]
    listening.

(** The answer in progress on the [streaming] page. *)
Definition pendingAnswer : ChatMessage :=
  mkMessage "1700000000001" MODEL "Hel"
    (Some [mkSource "S1" "https://a.example/x" "A" "a.example";
           mkSource "S2" "https://b.example/y" "B" "b.example"])
    None (Some true).

(** A fragment whose one source has an address that is not a URL, a
    fragment without metadata, and the page after the first answer, with
    its two sources in the panel. *)
Definition badSource : GenerateContentResponse :=
  fragment "lo" [webSource "not a url" "N"].
Definition plain : GenerateContentResponse := mkResponse (Some "ok") None.
Definition answered : Page := run hostname [StreamEnd] streaming.

(** A video job whose second poll fails. *)
Definition failing : Poller.Remote :=
  Poller.mkRemote (Some "KEY") (Ok ()) (Ok "aW1n") (Ok notDone)
    [Ok notDone; Throw (mkError "quota exceeded")].

(** An editor panel with an image and a prompt, and a reply whose first
    part is text and whose second is the edited image. *)
Definition editor : Images.Editor :=
  Images.mkEditor "add a hat" (Some (Poller.mkFile "image/png"))
    (Some "blob:2") false "".

Definition edited : Images.GenerateContentResponse :=
  Images.mkResponse
    (Some [Images.mkCandidate
             (Some (Images.mkContent
                (Some [Images.mkPart None (Some "Done.");
                       Images.mkPart
                         (Some (Images.mkInlineData (Some "QUJD")
                                  (Some "image/png")))
                         None])))]).

Definition editing : Images.Remote := Images.mkRemote (Ok "aW1n") (Ok edited).

(** A stand-in for the engine's TypeError. *)
Definition typeError (what : string) : JsError :=
  mkError ("Cannot read properties of undefined (reading '" +:+ what +:+ "')").

(** The image handed over by the image panel, and the page [streaming]
    after [addMediaMessage] was called with it one millisecond after the
    prompt was sent, while the answer streams. *)
Definition generated : Media :=
  mkMedia image "data:image/jpeg;base64,QUJD" (Some "a cat") None None.

Definition withImage : Page :=
  mkPage (addMediaMessage 1700000000001 [generated]
            "Here is the image I generated for you:" (app streaming))
         (inflight streaming) (log streaming).

(** A message with the interruption signal whose model turn begins with a
    part that is not inline data (a text part), and one with the signal
    and an audio payload. *)
Definition interruptedText : Live.LiveServerMessage :=
  Live.mkMessage (Some (Live.mkServerContent None None false
    (Some (Live.mkContent (Some [Live.mkPart None]))) true)).

Definition interruptedAudio : Live.LiveServerMessage :=
  Live.mkMessage (Some (Live.mkServerContent None None false
    (Some (Live.mkContent (Some [Live.mkPart (Some (Live.mkBlob (Some "AAAA")))])))
    true)).

(** A live session with one decoder at work. *)
Definition decoding : Live.State :=
  Live.run [Live.Received (Live.audioMessage "AAAA") 0%N] listening.

End Samples.

(** * Properties *)

(** ** The streaming response assembler *)

Section ChatFacts.

Import Chat.

Variable hostname : string → option string.

Lemma mapMessage_lookup mid f (l : list ChatMessage) i :
  mapMessage mid f l !! i =
  (λ msg, if decide (m_id msg = mid) then f msg else msg) <$> l !! i.
Proof. unfold mapMessage. apply list_lookup_fmap. Qed.

Lemma mapMessage_other mid f (l : list ChatMessage) i m :
  l !! i = Some m → m_id m ≠ mid → mapMessage mid f l !! i = Some m.
Proof.
  intros Hl Hne. rewrite mapMessage_lookup, Hl. simpl.
  destruct (decide (m_id m = mid)); [contradiction | reflexivity].
Qed.

Lemma mapMessage_same mid f (l : list ChatMessage) i m :
  l !! i = Some m → m_id m = mid → mapMessage mid f l !! i = Some (f m).
Proof.
  intros Hl He. rewrite mapMessage_lookup, Hl. simpl.
  destruct (decide (m_id m = mid)); [reflexivity | contradiction].
Qed.

(** The record list [newSources] builds, entry by entry. *)
Lemma newSources_lookup gcs ns :
  newSources hostname gcs = Some ns →
  length ns = length (webEntries gcs) ∧
  ∀ i w, webEntries gcs !! i = Some w →
    ∃ d, hostname (uri w) = Some d ∧
         ns !! i = Some (mkSource ("S" +:+ pretty (i + 1)%nat) (uri w) (title w) d).
Proof.
  unfold newSources. intros H. apply mapM_Some in H.
  split.
  - apply Forall2_length in H. rewrite length_imap in H. congruence.
  - intros i w Hw.
    assert (Hi : imap (toSource hostname) (webEntries gcs) !! i
                 = Some (toSource hostname i w)).
    { rewrite list_lookup_imap, Hw. reflexivity. }
    destruct (Forall2_lookup_l _ _ _ _ _ H Hi) as (s & Hs & Hid).
    unfold id, toSource in Hid.
    destruct (hostname (uri w)) as [d|] eqn:Hd; simpl in Hid; [|discriminate].
    exists d. split; [reflexivity|]. congruence.
Qed.

Lemma newSources_total gcs :
  Forall (λ w, is_Some (hostname (uri w))) (webEntries gcs) →
  is_Some (newSources hostname gcs).
Proof.
  intros H. unfold newSources. apply mapM_is_Some.
  apply Forall_lookup. intros i x Hx.
  rewrite list_lookup_imap in Hx.
  destruct (webEntries gcs !! i) as [w|] eqn:Hw; simpl in Hx; [|discriminate].
  injection Hx as <-.
  rewrite Forall_lookup in H. specialize (H _ _ Hw).
  unfold id, toSource. destruct H as [d ->]. simpl. eauto.
Qed.

(** What a fragment does to the messages: the ones named by the id of the
    exchange get the accumulated text and the current sources, the others
    stay. *)
Lemma on_chunk_messages chunk ex a ex' a' :
  on_chunk hostname chunk ex a = Ok (ex', a') →
  modelMessageId ex' = modelMessageId ex ∧
  isLoading a' = isLoading a ∧
  messages a' =
    mapMessage (modelMessageId ex)
      (withTextSources (fullText ex') (currentSources ex')) (messages a).
Proof.
  unfold on_chunk. intros H.
  destruct (chunkGroundingChunks chunk) as [gcs|].
  - destruct (newSources hostname gcs) as [ns|]; [|discriminate].
    injection H as <- <-. auto.
  - injection H as <- <-. auto.
Qed.

(** A fragment without a list of sources, be it with grounding metadata
    or without, is taken in and leaves the citations of the exchange as
    they were. *)
Lemma fragment_without_source_list chunk ex a :
  chunkGroundingChunks chunk = None →
  ∃ ex' a', on_chunk hostname chunk ex a = Ok (ex', a') ∧
            currentSources ex' = currentSources ex ∧ sources a' = sources a ∧
            ∀ i m, messages a !! i = Some m → m_id m = modelMessageId ex →
                   ∃ m', messages a' !! i = Some m' ∧
                         m_sources m' = Some (currentSources ex).
Proof.
  intros Hg. unfold on_chunk. rewrite Hg. eexists. eexists.
  split; [reflexivity|]. simpl. repeat split.
  intros i m Hm Hid. eexists. split.
  - apply mapMessage_same; eassumption.
  - reflexivity.
Qed.

(** C1, as the code has it.  A fragment whose grounding metadata has a
    list of sources replaces the citations wholesale: when every web
    address in the list parses as a URL, the fragment is taken in, and the
    sources of the exchange, of the side panel and of the pending message
    become one record per entry of that list that has a web source, in the
    order of the entries, with ids S1, S2, ... and nothing of the previous
    set. *)
Theorem fragment_replaces_citations chunk gcs ex a :
  chunkGroundingChunks chunk = Some gcs →
  Forall (λ w, is_Some (hostname (uri w))) (webEntries gcs) →
  ∃ ns ex' a',
    on_chunk hostname chunk ex a = Ok (ex', a') ∧
    currentSources ex' = ns ∧ sources a' = ns ∧
    length ns = length (webEntries gcs) ∧
    (∀ i w, webEntries gcs !! i = Some w →
       ∃ d, hostname (uri w) = Some d ∧
            ns !! i = Some (mkSource ("S" +:+ pretty (i + 1)%nat)
                                     (uri w) (title w) d)) ∧
    (∀ i m, messages a !! i = Some m → m_id m = modelMessageId ex →
       ∃ m', messages a' !! i = Some m' ∧ m_sources m' = Some ns).
Proof.
  intros Hg Hh.
  destruct (newSources_total gcs Hh) as [ns Hns].
  destruct (newSources_lookup gcs ns Hns) as [Hlen Hnth].
  exists ns. eexists. eexists.
  split.
  { unfold on_chunk. rewrite Hg, Hns. reflexivity. }
  simpl. repeat split; auto.
  intros i m Hm Hid. eexists. split.
  - apply mapMessage_same; eassumption.
  - reflexivity.
Qed.

(** *** The exchange in flight *)

Lemma fail_ok mid e a l : in_flight_ok (fail mid e a l).
Proof. reflexivity. Qed.

Lemma step_in_flight_ok ev p :
  in_flight_ok p → in_flight_ok (step hostname ev p).
Proof.
  intros Hp. destruct ev as [now1 now2 userPrompt opened|chunk| |e]; simpl.
  - destruct (send_guard userPrompt (app p)) eqn:Hg; [assumption|].
    destruct (chatSession (app p)); [|apply fail_ok].
    destruct opened; [apply fail_ok|].
    split; [reflexivity|].
    exists (S (length (messages (app p)))), (initialModelMessage now2).
    split; [|split; reflexivity].
    simpl. rewrite lookup_app_r; rewrite length_app; simpl; [|lia].
    replace (S (length (messages (app p))) - (length (messages (app p)) + 1))
      with 0 by lia.
    reflexivity.
  - unfold in_flight_ok in Hp.
    destruct (inflight p) as [ex|] eqn:Hi; [|unfold in_flight_ok; rewrite Hi; assumption].
    destruct (on_chunk hostname chunk ex (app p)) as [[ex' a']|e] eqn:Hc;
      [|apply fail_ok].
    destruct (on_chunk_messages _ _ _ _ _ Hc) as (Hid & Hl & Hm).
    destruct Hp as (Hload & i & m & Hi' & Hmid & Hml).
    split; simpl; [congruence|].
    exists i, (withTextSources (fullText ex') (currentSources ex') m).
    rewrite Hm, Hid. split; [|split; assumption].
    apply mapMessage_same; assumption.
  - unfold in_flight_ok in Hp.
    destruct (inflight p) as [ex|] eqn:Hi; [reflexivity|].
    unfold in_flight_ok; rewrite Hi; assumption.
  - unfold in_flight_ok in Hp.
    destruct (inflight p) as [ex|] eqn:Hi; [apply fail_ok|].
    unfold in_flight_ok; rewrite Hi; assumption.
Qed.

Lemma run_in_flight_ok evs p :
  in_flight_ok p → in_flight_ok (run hostname evs p).
Proof.
  revert p. induction evs as [|ev evs IH]; intros p Hp; simpl; [assumption|].
  apply IH, step_in_flight_ok, Hp.
Qed.

Lemma reachable_in_flight_ok p : reachable hostname p → in_flight_ok p.
Proof.
  intros (a0 & evs & Ha & ->). apply run_in_flight_ok. exact Ha.
Qed.

(** With no exchange in flight, what the stream would say is nobody's
    business: only a send request changes the page. *)
Lemma step_idle ev p :
  inflight p = None → is_send ev = false → step hostname ev p = p.
Proof.
  intros Hi Hs. destruct ev; simpl in *; try discriminate; rewrite Hi; reflexivity.
Qed.

Lemma run_idle evs p :
  inflight p = None → Forall (λ ev, is_send ev = false) evs →
  run hostname evs p = p.
Proof.
  intros Hi H. induction H as [|ev evs Hev _ IH]; simpl; [reflexivity|].
  rewrite step_idle by assumption. exact IH.
Qed.

(** An error at any point of the exchange in flight ends in the [catch]
    block. *)
Lemma raised_fail ev p ex e :
  inflight p = Some ex → raised hostname ev p = Some e →
  step hostname ev p = fail (modelMessageId ex) e (app p) (log p).
Proof.
  intros Hi Hr. unfold raised in Hr.
  destruct ev as [? ? ? ?|chunk| |e']; rewrite ?Hi in Hr; try discriminate; simpl; rewrite Hi.
  - destruct (on_chunk hostname chunk ex (app p)) as [[? ?]|e']; congruence.
  - congruence.
Qed.

(** C4. When the stream raises an error at any point of an exchange, be
    it between fragments or while a fragment is processed, the pending
    model message gets the fixed apology as its text and its pending flag
    cleared, its citations stay as the last fragment left them, the
    exchange is over, and no stream is opened again: not by the error
    path, and not by anything that is not a new send request. *)
Theorem stream_error_apology p ex ev e :
  reachable hostname p → inflight p = Some ex →
  raised hostname ev p = Some e →
  let r := step hostname ev p in
  (∃ i m, messages (app p) !! i = Some m ∧ m_id m = modelMessageId ex ∧
          m_isLoading m = Some true ∧
          messages (app r) !! i =
            Some (mkMessage (m_id m) (m_role m) apology (m_sources m)
                            (m_media m) (Some false))) ∧
  (∀ i m, messages (app p) !! i = Some m → m_id m = modelMessageId ex →
          messages (app r) !! i =
            Some (mkMessage (m_id m) (m_role m) apology (m_sources m)
                            (m_media m) (Some false))) ∧
  isLoading (app r) = false ∧ inflight r = None ∧
  sources (app r) = sources (app p) ∧
  streamsOpened (log r) = streamsOpened (log p) ∧
  (∀ evs, Forall (λ ev, is_send ev = false) evs → run hostname evs r = r).
Proof.
  intros Hreach Hi Hr r.
  assert (Hstep : r = fail (modelMessageId ex) e (app p) (log p))
    by (apply raised_fail; assumption).
  assert (Hall : ∀ i m, messages (app p) !! i = Some m →
            m_id m = modelMessageId ex →
            messages (app r) !! i =
              Some (mkMessage (m_id m) (m_role m) apology (m_sources m)
                              (m_media m) (Some false))).
  { intros i m Hm Hid. rewrite Hstep. simpl.
    apply (mapMessage_same _ withApology); assumption. }
  pose proof (reachable_in_flight_ok p Hreach) as Hinv.
  unfold in_flight_ok in Hinv. rewrite Hi in Hinv.
  destruct Hinv as (_ & i & m & Hm & Hid & Hml).
  split; [exists i, m; auto|].
  split; [exact Hall|].
  rewrite Hstep. repeat split.
  intros evs Hevs. apply run_idle; [reflexivity | assumption].
Qed.

(** The same when the stream cannot even be opened: the message just
    appended for the answer carries the apology and no citations. *)
Lemma open_failure_apology now1 now2 userPrompt e p :
  send_guard userPrompt (app p) = false → chatSession (app p) = true →
  let r := step hostname (Send now1 now2 userPrompt (Some e)) p in
  messages (app r) !! S (length (messages (app p))) =
    Some (mkMessage (toString (now2 + 1)) MODEL apology None None (Some false)) ∧
  isLoading (app r) = false ∧ inflight r = None ∧
  streamsOpened (log r) = S (streamsOpened (log p)).
Proof.
  intros Hg Hs. simpl. rewrite Hg, Hs. simpl. repeat split.
  rewrite mapMessage_lookup.
  rewrite lookup_app_r; rewrite length_app; simpl; [|lia].
  replace (S (length (messages (app p))) - (length (messages (app p)) + 1))
    with 0 by lia.
  simpl. destruct (decide _); [reflexivity | contradiction].
Qed.

(** While an exchange is in flight a send request is turned away: the
    page stays as it is, with its transcript, the text and citations
    accumulated by the running exchange and the record of streams opened.
    Whatever the stream then delivers (a fragment, taken in or not, the
    end, an error), every message whose id is not that of the exchange
    stays as it was.  Messages are told apart by their ids only. *)
Lemma pending_exchange_is_exclusive p ex :
  reachable hostname p → inflight p = Some ex →
  isLoading (app p) = true ∧
  (∀ now1 now2 userPrompt opened,
     step hostname (Send now1 now2 userPrompt opened) p = p) ∧
  (∀ ev, is_send ev = false →
     length (messages (app (step hostname ev p))) = length (messages (app p)) ∧
     ∀ i m, messages (app p) !! i = Some m → m_id m ≠ modelMessageId ex →
            messages (app (step hostname ev p)) !! i = Some m).
Proof.
  intros Hreach Hi.
  pose proof (reachable_in_flight_ok p Hreach) as Hinv.
  unfold in_flight_ok in Hinv. rewrite Hi in Hinv.
  destruct Hinv as (Hload & _).
  split; [exact Hload|]. split.
  - intros. simpl. unfold send_guard. rewrite Hload. reflexivity.
  - intros ev Hs.
    assert (Hmsgs : ∃ f, messages (app (step hostname ev p)) =
                         mapMessage (modelMessageId ex) f (messages (app p))).
    { destruct ev as [? ? ? ?|chunk| |e]; simpl in *; try discriminate; rewrite Hi.
      - destruct (on_chunk hostname chunk ex (app p)) as [[ex' a']|e] eqn:Hc.
        + destruct (on_chunk_messages _ _ _ _ _ Hc) as (_ & _ & Hm).
          eexists. exact Hm.
        + eexists. reflexivity.
      - eexists. reflexivity.
      - eexists. reflexivity. }
    destruct Hmsgs as [f Hf]. rewrite Hf. split.
    + unfold mapMessage. apply length_fmap.
    + intros i m Hm Hne. apply mapMessage_other; assumption.
Qed.

End ChatFacts.


(** ** The citation markers *)

Section MarkdownFacts.

Import Markdown.

Local Arguments String.append !_ _ / : simpl nomatch.

Lemma append_assoc (a b c : string) : (a +:+ b) +:+ c = a +:+ b +:+ c.
Proof. induction a; simpl; congruence. Qed.

Lemma append_empty (a : string) : a +:+ EmptyString = a.
Proof. induction a; simpl; congruence. Qed.

Lemma length_append (a b : string) :
  String.length (a +:+ b) = String.length a + String.length b.
Proof. induction a; simpl; congruence. Qed.

Lemma span_digits_run ds c r :
  all_digits ds = true → is_digit c = false →
  span_digits (ds +:+ String c r) = (ds, String c r).
Proof.
  unfold all_digits. induction ds as [|d ds IH]; simpl; intros Hd Hc.
  - rewrite Hc. reflexivity.
  - apply andb_true_iff in Hd as [Hd1 Hd2].
    rewrite Hd1, IH by assumption. reflexivity.
Qed.

(** Appending text that starts with a non-digit does not move the end of
    the leading run of digits. *)
Lemma span_digits_app a c r :
  is_digit c = false →
  span_digits (a +:+ String c r) =
  (fst (span_digits a), snd (span_digits a) +:+ String c r).
Proof.
  intros Hc. induction a as [|x a IH]; simpl.
  - rewrite Hc. reflexivity.
  - destruct (is_digit x); [|reflexivity].
    rewrite IH. destruct (span_digits a). reflexivity.
Qed.

Lemma marker_at_marker ds r :
  all_digits ds = true → ds ≠ EmptyString →
  marker_at (marker ds +:+ r) = Some (ds, r).
Proof.
  intros Hd Hne. unfold marker. simpl.
  rewrite append_assoc. simpl.
  rewrite span_digits_run by (assumption || reflexivity).
  destruct ds; [contradiction | reflexivity].
Qed.

(** No match starts inside a text in front of a marker unless it is a
    match of that text alone. *)
Lemma marker_at_before a r :
  a ≠ EmptyString → marker_at a = None →
  marker_at (a +:+ String "[" r) = None.
Proof.
  intros Hne Hnone.
  destruct a as [|x [|y a]]; [contradiction| |].
  - simpl. destruct (Ascii.eqb x "["); reflexivity.
  - simpl in *. destruct (Ascii.eqb x "[" && Ascii.eqb y "S"); [|reflexivity].
    rewrite span_digits_app by reflexivity.
    destruct (span_digits a) as [[|d ds] [|c t]]; simpl in *; try reflexivity.
    destruct (Ascii.eqb c "]"); [discriminate | reflexivity].
Qed.

Lemma split_from_skip x r :
  split_from (x +:+ r) (String.length x) = split_from r 0.
Proof.
  induction x as [|c x IH]; simpl; [|exact IH].
  destruct r; reflexivity.
Qed.

Lemma split_from_cons a s :
  split_from (String a s) 0 =
  match marker_at (String a s) with
  | Some (ds, _) =>
      EmptyString :: marker ds :: split_from s (String.length ds + 2)
  | None =>
      match split_from s 0 with
      | lit :: parts => String a lit :: parts
      | [] => [String a EmptyString]
      end
  end.
Proof. reflexivity. Qed.

Lemma split_marker ds r :
  all_digits ds = true → ds ≠ EmptyString →
  split (marker ds +:+ r) = EmptyString :: marker ds :: split r.
Proof.
  intros Hd Hne. unfold split.
  pose proof (marker_at_marker ds r Hd Hne) as Hm.
  unfold marker in *. simpl String.append in *.
  rewrite split_from_cons, Hm. do 2 f_equal.
  change (String "S" ((ds +:+ "]") +:+ r))
    with (String "S" (ds +:+ "]") +:+ r).
  replace (String.length ds + 2) with (String.length (String "S" (ds +:+ "]"))).
  - apply split_from_skip.
  - simpl. rewrite length_append. simpl. lia.
Qed.

Lemma split_from_nonempty s k : split_from s k ≠ [].
Proof.
  revert k. induction s as [|c s IH]; intros [|k]; try (intros H; discriminate H).
  - rewrite split_from_cons.
    destruct (marker_at (String c s)) as [[? ?]|]; [intros H; discriminate H|].
    specialize (IH 0). destruct (split_from s 0); [contradiction|].
    intros H; discriminate H.
  - apply IH.
Qed.

Lemma match_marker_marker ds :
  all_digits ds = true → ds ≠ EmptyString → match_marker (marker ds) = Some ds.
Proof.
  intros Hd Hne.
  pose proof (marker_at_marker ds EmptyString Hd Hne) as Hm.
  rewrite append_empty in Hm.
  unfold marker in *. simpl in *. rewrite Hm. reflexivity.
Qed.

Lemma find_id_none sid (l : list Chat.Source) :
  (∀ s, s ∈ l → Chat.s_id s ≠ sid) →
  find (λ s, bool_decide (Chat.s_id s = sid)) l = None.
Proof.
  intros H. induction l as [|x l IH]; simpl; [reflexivity|].
  case_bool_decide as Hx; [exfalso; revert Hx; apply H; left|].
  apply IH. intros s Hs. apply H. right. exact Hs.
Qed.

Lemma find_id_some sid (l : list Chat.Source) s :
  find (λ s, bool_decide (Chat.s_id s = sid)) l = Some s →
  s ∈ l ∧ Chat.s_id s = sid.
Proof.
  intros H. apply find_some in H as [Hin Hb].
  split; [apply list_elem_of_In, Hin | exact (bool_decide_eq_true_1 _ Hb)].
Qed.

Lemma span_digits_spec s :
  s = fst (span_digits s) +:+ snd (span_digits s) ∧
  all_digits (fst (span_digits s)) = true.
Proof.
  unfold all_digits. induction s as [|c s [IH1 IH2]]; simpl; [auto|].
  destruct (is_digit c) eqn:Hc; [|auto].
  destruct (span_digits s) as [ds r]. simpl in *.
  rewrite Hc, IH2. split; [congruence | reflexivity].
Qed.

(** A match at the head of a text is a marker, and the text is that
    marker and a rest. *)
Lemma marker_at_inv s ds rest :
  marker_at s = Some (ds, rest) →
  s = marker ds +:+ rest ∧ all_digits ds = true ∧ ds ≠ EmptyString.
Proof.
  unfold marker_at. destruct s as [|a [|b s]]; try discriminate.
  destruct (Ascii.eqb_spec a "["); [subst a|discriminate].
  destruct (Ascii.eqb_spec b "S"); [subst b|discriminate]. simpl andb. cbv iota.
  pose proof (span_digits_spec s) as [Hs Hd].
  destruct (span_digits s) as [[|d ds'] [|c r]]; try discriminate.
  destruct (Ascii.eqb_spec c "]"); [subst c|discriminate].
  intros H. injection H as <- <-. simpl in Hs, Hd.
  split; [|split; [exact Hd | discriminate]].
  unfold marker. rewrite Hs. simpl. rewrite !append_assoc. reflexivity.
Qed.

Lemma marker_at_app s ds rest x :
  marker_at s = Some (ds, rest) → marker_at (s +:+ x) = Some (ds, rest +:+ x).
Proof.
  intros H. apply marker_at_inv in H as (-> & Hd & Hne).
  rewrite append_assoc. apply marker_at_marker; assumption.
Qed.

(** The parts of a text in front of a marker are its parts when it stands
    alone; then comes the marker; then the parts of what follows. *)
Lemma split_from_marker pre ds r k :
  all_digits ds = true → ds ≠ EmptyString → k ≤ String.length pre →
  split_from (pre +:+ marker ds +:+ r) k =
  split_from pre k ++ marker ds :: split r.
Proof.
  intros Hd Hne. revert k. induction pre as [|c pre IH]; intros k Hk.
  - simpl in Hk. replace k with 0 by lia.
    apply (split_marker ds r Hd Hne).
  - change (String c pre +:+ marker ds +:+ r)
      with (String c (pre +:+ marker ds +:+ r)).
    destruct k as [|k]; [|simpl in Hk; apply IH; lia].
    rewrite !split_from_cons.
    destruct (marker_at (String c pre)) as [[ds' rest']|] eqn:Hm.
    + change (String c (pre +:+ marker ds +:+ r))
        with (String c pre +:+ marker ds +:+ r).
      rewrite (marker_at_app _ _ _ _ Hm).
      apply marker_at_inv in Hm as (Heq & _ & _).
      rewrite IH; [reflexivity|].
      assert (Hlen : String.length (String c pre) =
                     String.length (marker ds' +:+ rest')) by (rewrite Heq; reflexivity).
      unfold marker in Hlen. rewrite !length_append in Hlen. simpl in Hlen. lia.
    + replace (marker_at (String c (pre +:+ marker ds +:+ r)))
        with (@None (string * string)).
      * rewrite IH by lia.
        pose proof (split_from_nonempty pre 0) as Hn.
        destruct (split_from pre 0); [contradiction | reflexivity].
      * symmetry.
        change (String c (pre +:+ marker ds +:+ r))
          with (String c pre +:+ String "[" (String "S" (ds +:+ "]") +:+ r)).
        apply marker_at_before; [discriminate | assumption].
Qed.

Lemma find_id_first sid (before after : list Chat.Source) s :
  Chat.s_id s = sid → (∀ s', s' ∈ before → Chat.s_id s' ≠ sid) →
  find (λ s, bool_decide (Chat.s_id s = sid)) (before ++ s :: after) = Some s.
Proof.
  intros Hs Hb. induction before as [|x before IH]; simpl.
  - rewrite bool_decide_eq_true_2 by exact Hs. reflexivity.
  - case_bool_decide as Hx; [exfalso; revert Hx; apply Hb; left|].
    apply IH. intros s' Hin. apply Hb. right. exact Hin.
Qed.

(** C10, as the code has it.  Every marker [S<n>] of a message text, where
    ever it stands, is rendered as a button labelled S<n>, whatever the
    citations of the message and of the side panel are: what stands in
    front of it is rendered as if alone, then the button, then what
    follows.  The citations are consulted only when the button is clicked,
    and they are those of the panel: the first source of the panel that
    carries the id is selected; an id that no source of the panel carries
    selects no source; nothing but the selection changes, and a source that
    gets selected is one of the panel and has that id. *)
Theorem every_marker_is_a_button (message : Chat.ChatMessage) pre ds r :
  all_digits ds = true → ds ≠ EmptyString →
  Chat.m_text message = pre +:+ marker ds +:+ r →
  Message message =
    SimpleMarkdown pre ++ button ("S" +:+ ds) :: SimpleMarkdown r ∧
  (∀ page before s after,
     Chat.sources page = before ++ s :: after →
     Chat.s_id s = "S" +:+ ds →
     (∀ s', s' ∈ before → Chat.s_id s' ≠ "S" +:+ ds) →
     click (button ("S" +:+ ds)) page = Chat.setActiveSource (Some s) page) ∧
  (∀ page, (∀ s, s ∈ Chat.sources page → Chat.s_id s ≠ "S" +:+ ds) →
           click (button ("S" +:+ ds)) page = Chat.setActiveSource None page) ∧
  (∀ page s, Chat.activeSource (click (button ("S" +:+ ds)) page) = Some s →
             s ∈ Chat.sources page ∧ Chat.s_id s = "S" +:+ ds).
Proof.
  intros Hd Hne Ht. split; [|split; [|split]].
  - unfold Message, SimpleMarkdown, split. rewrite Ht.
    rewrite split_from_marker by (assumption || lia).
    rewrite fmap_app, fmap_cons, match_marker_marker by assumption.
    reflexivity.
  - intros page before s after Hsrc Hs Hb. unfold click, Chat.onSourceClick.
    rewrite Hsrc, find_id_first by assumption. reflexivity.
  - intros page H. unfold click, Chat.onSourceClick.
    rewrite find_id_none by assumption. reflexivity.
  - intros page s H. unfold click, Chat.onSourceClick in H. simpl in H.
    apply find_id_some in H. exact H.
Qed.

End MarkdownFacts.

(** ** The job poller *)

Section PollerFacts.

Import Poller.

Lemma poll_loop_done replies operation p :
  not_done operation = false →
  poll_loop replies operation p = (p, [], Ok (Some operation)).
Proof. intros H. destruct replies; simpl; rewrite H; reflexivity. Qed.

Lemma poll_loop_cons operation' replies operation p :
  not_done operation = true →
  poll_loop (Ok operation' :: replies) operation p =
  let '(p', effs, r) :=
    poll_loop replies operation'
      (setLoadingMessage "Still processing... Please wait." p) in
  (p', SetTimeout 10000 :: CheckVideoStatus operation :: effs, r).
Proof. intros H. simpl. rewrite H. reflexivity. Qed.

(** As long as the handles are not done and the polls are answered, the
    loop goes on cycle by cycle, whatever else happens meanwhile. *)
Lemma poll_loop_cycles pending operation next replies p :
  not_done operation = true →
  Forall (λ o, not_done o = true) pending →
  poll_loop ((Ok <$> pending ++ [next]) ++ replies) operation p =
  (let '(p', effs, r) := poll_loop replies next (waiting p) in
   (p', cycles (operation :: pending) ++ effs, r)).
Proof.
  intros Hop Hpending. revert operation p Hop.
  induction Hpending as [|o pending Ho _ IH]; intros operation p Hop.
  - change ((Ok <$> [] ++ [next]) ++ replies) with (Ok next :: replies).
    rewrite poll_loop_cons by assumption. fold (waiting p).
    destruct (poll_loop replies next (waiting p)) as [[? ?] ?]. reflexivity.
  - rewrite <- app_comm_cons, fmap_cons, <- app_comm_cons.
    rewrite poll_loop_cons by assumption. fold (waiting p).
    rewrite (IH o (waiting p) Ho).
    change (waiting (waiting p)) with (waiting p).
    destruct (poll_loop replies next (waiting p)) as [[? ?] ?]. reflexivity.
Qed.

Lemma sleeps_cycles operations : sleeps (cycles operations) = length operations.
Proof. induction operations; simpl; [reflexivity|]. unfold sleeps in *. simpl. congruence. Qed.

Lemma pollsIssued_cycles operations :
  pollsIssued (cycles operations) = length operations.
Proof. induction operations; simpl; [reflexivity|]. unfold pollsIssued in *. simpl. congruence. Qed.

Lemma sleeps_app l k : sleeps (l ++ k) = sleeps l + sleeps k.
Proof. unfold sleeps. rewrite List.filter_app, length_app. reflexivity. Qed.

Lemma pollsIssued_app l k : pollsIssued (l ++ k) = pollsIssued l + pollsIssued k.
Proof. unfold pollsIssued. rewrite List.filter_app, length_app. reflexivity. Qed.

(** The call up to the end of the cycles of the handles that are not
    done. *)
Lemma handleGenerate_cycles env p b64 operation pending next replies :
  prompt p ≠ EmptyString → is_Some (imageFile p) →
  checkApiKey env = Ok () → fileToBase64 env = Ok b64 →
  generateVideo env = Ok operation →
  polls env = (Ok <$> pending ++ [next]) ++ replies →
  not_done operation = true → Forall (λ o, not_done o = true) pending →
  ∃ tail, snd (handleGenerate env p) =
          [CheckApiKey; FileToBase64; GenerateVideo] ++
          cycles (operation :: pending) ++ tail.
Proof.
  intros Hp [f Hf] Hk Hb Hg Hpolls Hop Hpending.
  unfold handleGenerate, try_block.
  destruct (prompt p) as [|c t]; [contradiction|].
  rewrite Hf, Hk, Hb, Hg, Hpolls.
  rewrite poll_loop_cycles by assumption.
  destruct (poll_loop replies next _) as [[p' effs] r].
  destruct r as [[last|]|e]; simpl.
  - destruct (deliver env last p') as [effs' c'].
    destruct c'; simpl; eexists; rewrite <- ?app_assoc; simpl; reflexivity.
  - eexists. reflexivity.
  - eexists. rewrite <- ?app_assoc. simpl. reflexivity.
Qed.

(** The download link of a handle is the address of the video of its first
    generated video, when the handle has a response, the response generated
    videos, the first of them a video and that video an address. *)
Lemma downloadLink_found o r g gs v uri :
  response o = Some r → generatedVideos r = Some (g :: gs) →
  gv_video g = Some v → v_uri v = Some uri →
  downloadLink o = Some uri.
Proof.
  intros Hr Hg Hv Hu. unfold downloadLink. rewrite Hr. simpl.
  rewrite Hg. simpl. rewrite Hv. simpl. exact Hu.
Qed.

Lemma downloadLink_inv o uri :
  downloadLink o = Some uri →
  ∃ r g gs v, response o = Some r ∧ generatedVideos r = Some (g :: gs) ∧
              gv_video g = Some v ∧ v_uri v = Some uri.
Proof.
  unfold downloadLink. intros H.
  destruct (response o) as [r|] eqn:Hr; [|discriminate]. simpl in H.
  destruct (generatedVideos r) as [[|g gs]|] eqn:Hg; try discriminate. simpl in H.
  destruct (gv_video g) as [v|] eqn:Hv; [|discriminate]. simpl in H.
  exists r, g, gs, v. auto.
Qed.

(** C3. A job whose handle is seen not done three times (as submitted and
    in the replies to the first two polls) and done in the reply to the
    third poll: the loop sleeps ten seconds and polls exactly three times,
    each poll right after its sleep.  Then, when the done handle has a
    response whose first generated video has a video with an address that
    is not empty, the job ends well and that address (with the key
    appended) is handed to the caller; when it has none (no response, no
    generated video, no video, no address, or an empty one) the call
    raises the error of a job finished without output, which is logged,
    and the panel shows a failure. *)
Theorem three_pending_reports env p b64 o0 o1 o2 o3 rest :
  prompt p ≠ EmptyString → is_Some (imageFile p) →
  checkApiKey env = Ok () → fileToBase64 env = Ok b64 →
  generateVideo env = Ok o0 →
  polls env = Ok o1 :: Ok o2 :: Ok o3 :: rest →
  not_done o0 = true → not_done o1 = true → not_done o2 = true →
  done o3 = Some true →
  ∃ tail,
    snd (handleGenerate env p) =
      [CheckApiKey; FileToBase64; GenerateVideo] ++
      [SetTimeout 10000; CheckVideoStatus o0;
       SetTimeout 10000; CheckVideoStatus o1;
       SetTimeout 10000; CheckVideoStatus o2] ++ tail ∧
    sleeps (snd (handleGenerate env p)) = 3 ∧
    pollsIssued (snd (handleGenerate env p)) = 3 ∧
    isLoading (fst (handleGenerate env p)) = false ∧
    (∀ r g gs v uri,
       response o3 = Some r → generatedVideos r = Some (g :: gs) →
       gv_video g = Some v → v_uri v = Some uri → uri ≠ EmptyString →
       tail = [OnGenerationComplete
                 (uri +:+ "&key=" +:+ js_to_string (API_KEY env))
                 (prompt p) (previewUrl p)] ∧
       error (fst (handleGenerate env p)) = EmptyString) ∧
    ((∀ r g gs v uri,
        response o3 = Some r → generatedVideos r = Some (g :: gs) →
        gv_video g = Some v → v_uri v = Some uri → uri = EmptyString) →
     tail = [ConsoleError
               (mkError "Video generation finished but no URI was returned.")] ∧
     error (fst (handleGenerate env p)) =
       "Failed to generate video. Please check the console."%string).
Proof.
  intros Hp [f Hf] Hk Hb Hg Hpolls H0 H1 H2 H3.
  assert (Hd : not_done o3 = false) by (unfold not_done; rewrite H3; reflexivity).
  unfold handleGenerate, try_block.
  destruct (prompt p) as [|c t] eqn:Hprompt; [contradiction|].
  rewrite Hf, Hk, Hb, Hg, Hpolls.
  rewrite !poll_loop_cons by assumption. rewrite poll_loop_done by assumption.
  unfold deliver.
  destruct (downloadLink o3) as [[|a l]|] eqn:Hlink; simpl;
    eexists; (split; [reflexivity|]); (split; [reflexivity|]);
    (split; [reflexivity|]); (split; [reflexivity|]); rewrite ?Hprompt; split.
  - intros r g gs v uri Hr Hgs Hv Hu Hne.
    rewrite (downloadLink_found o3 r g gs v uri Hr Hgs Hv Hu) in Hlink.
    injection Hlink as ->. contradiction.
  - intros _. split; reflexivity.
  - intros r g gs v uri Hr Hgs Hv Hu Hne.
    rewrite (downloadLink_found o3 r g gs v uri Hr Hgs Hv Hu) in Hlink.
    injection Hlink as ->. split; reflexivity.
  - intros Hnone. exfalso.
    destruct (downloadLink_inv o3 _ Hlink) as (r & g & gs & v & Hr & Hgs & Hv & Hu).
    specialize (Hnone r g gs v _ Hr Hgs Hv Hu). discriminate Hnone.
  - intros r g gs v uri Hr Hgs Hv Hu Hne.
    rewrite (downloadLink_found o3 r g gs v uri Hr Hgs Hv Hu) in Hlink.
    discriminate Hlink.
  - intros _. split; reflexivity.
Qed.

(** C8, as the code has it.  The loop has no cancellation: whether and
    whenever the user gives the job up, the call runs as it would
    otherwise, and as long as the handles come back not done it sleeps and
    polls once for every one of them. *)
Theorem poll_loop_is_not_cancellable abandonedBefore env p b64 operation
    pending next replies :
  prompt p ≠ EmptyString → is_Some (imageFile p) →
  checkApiKey env = Ok () → fileToBase64 env = Ok b64 →
  generateVideo env = Ok operation →
  polls env = (Ok <$> pending ++ [next]) ++ replies →
  not_done operation = true → Forall (λ o, not_done o = true) pending →
  handleGenerate_abandoned abandonedBefore env p = handleGenerate env p ∧
  (∃ tail, snd (handleGenerate_abandoned abandonedBefore env p) =
           [CheckApiKey; FileToBase64; GenerateVideo] ++
           cycles (operation :: pending) ++ tail) ∧
  S (length pending) ≤ pollsIssued (snd (handleGenerate_abandoned abandonedBefore env p)).
Proof.
  intros Hp Hf Hk Hb Hg Hpolls Hop Hpending.
  split; [reflexivity|].
  destruct (handleGenerate_cycles env p b64 operation pending next replies)
    as [tail Ht]; try assumption.
  split; [exists tail; exact Ht|].
  unfold handleGenerate_abandoned. rewrite Ht.
  rewrite !pollsIssued_app, pollsIssued_cycles. simpl. unfold pollsIssued at 1. simpl. lia.
Qed.

End PollerFacts.

(** ** The live session *)

Section LiveFacts.

Import Live.

Lemma stopped_later_refl n : stopped_later n n.
Proof. repeat split; auto. Qed.

Lemma stopped_later_trans n0 n1 n2 :
  stopped_later n0 n1 → stopped_later n1 n2 → stopped_later n0 n2.
Proof.
  intros (? & ? & ?) (? & ? & ?). repeat split; try congruence. auto.
Qed.

Lemma Forall2_stopped_later_refl ns : Forall2 stopped_later ns ns.
Proof. apply Forall_Forall2_diag, Forall_forall. intros. apply stopped_later_refl. Qed.

Lemma started_later ns0 ns source :
  Forall2 stopped_later ns0 ns → started ns0 source → started ns source.
Proof.
  intros H (n0 & Hn0 & Hs).
  destruct (Forall2_lookup_l _ _ _ _ _ H Hn0) as (n & Hn & (_ & He & _)).
  exists n. split; [assumption|]. rewrite He. assumption.
Qed.

Lemma stop_started source s :
  started (nodes s) source →
  ∃ ns, stop source s = (setNodes ns s, None) ∧
        Forall2 stopped_later (nodes s) ns ∧
        ∃ n, ns !! source = Some n ∧ stopped n = true.
Proof.
  intros (n & Hn & [t Ht]). unfold stop. rewrite Hn, Ht.
  eexists. split; [reflexivity|]. split.
  - rewrite <- (list_insert_id (nodes s) source n) at 1 by assumption.
    apply Forall2_insert; [apply Forall2_stopped_later_refl|].
    repeat split; auto.
  - eexists. split; [apply list_lookup_insert_eq; eapply lookup_lt_Some; eassumption|].
    reflexivity.
Qed.

Lemma forEach_stop_started sources s :
  (∀ source, source ∈ sources → started (nodes s) source) →
  ∃ ns, forEach_stop sources s = (setNodes ns s, None) ∧
        Forall2 stopped_later (nodes s) ns ∧
        ∀ source, source ∈ sources → ∃ n, ns !! source = Some n ∧ stopped n = true.
Proof.
  revert s. induction sources as [|h sources IH]; intros s Hs.
  - exists (nodes s). split; [destruct s; reflexivity|].
    split; [apply Forall2_stopped_later_refl|]. intros ? H. inversion H.
  - destruct (stop_started h s) as (ns1 & Hstop & Hle1 & n1 & Hn1 & Hst1).
    { apply Hs. left. }
    destruct (IH (setNodes ns1 s)) as (ns & Hrest & Hle & Hall).
    { intros source Hin. simpl. eapply started_later; [exact Hle1|].
      apply Hs. right. exact Hin. }
    exists ns. simpl forEach_stop. rewrite Hstop, Hrest.
    split; [reflexivity|]. simpl in Hle. split.
    + eapply Forall2_trans; [|exact Hle1|exact Hle].
      intros ? ? ?. apply stopped_later_trans.
    + intros source Hin. apply elem_of_cons in Hin as [->|Hin]; [|auto].
      destruct (Forall2_lookup_l _ _ _ _ _ Hle Hn1) as (n & Hn & (_ & _ & Hst)).
      exists n. auto.
Qed.

(** Stopping and clearing succeeds when every tracked source was started. *)
Lemma stopAndClear_started s :
  tracked_started s →
  ∃ ns, stopAndClear s =
          (setNextStartTime 0%N (setAudioSources ∅ (setNodes ns s)), None) ∧
        Forall2 stopped_later (nodes s) ns ∧
        ∀ source, source ∈ audioSourcesRef s →
                  ∃ n, ns !! source = Some n ∧ stopped n = true.
Proof.
  intros Hs. unfold stopAndClear.
  destruct (forEach_stop_started (elements (audioSourcesRef s)) s)
    as (ns & Hf & Hle & Hall).
  { intros source Hin. apply Hs. apply elem_of_elements. exact Hin. }
  exists ns. rewrite Hf. split; [reflexivity|]. split; [assumption|].
  intros source Hin. apply Hall. apply elem_of_elements. exact Hin.
Qed.

(** A session at rest is left as it is by [stopConversation]. *)
Lemma stopConversation_idle s : idle s → stopConversation s = (s, None).
Proof.
  destruct s as [act err hist cur sess ictx octx ms sp nst srcs ns susp effs].
  unfold idle. simpl. intros (-> & -> & -> & -> & -> & Hi & Ho & -> & ->).
  unfold stopConversation, stopAndClear.
  destruct ictx as [[|]|], octx as [[|]|]; try discriminate;
    simpl; rewrite elements_empty; reflexivity.
Qed.

(** [stopConversation] in a state in which every tracked source was
    started: it raises nothing, ends at rest, releases what is held and
    nothing else, and stops the sources that were tracked. *)
Lemma stopConversation_started s :
  tracked_started s →
  ∃ s', stopConversation s = (s', None) ∧ idle s' ∧
        effects s' = releases s ++ effects s ∧
        suspended s' = suspended s ∧
        Forall2 stopped_later (nodes s) (nodes s') ∧
        ∀ source, source ∈ audioSourcesRef s →
                  ∃ n, nodes s' !! source = Some n ∧ stopped n = true.
Proof.
  intros Hs. unfold stopConversation.
  match goal with |- ∃ s', stopAndClear ?x = _ ∧ _ => set (s5 := x) end.
  assert (H5 : audioSourcesRef s5 = audioSourcesRef s ∧ nodes s5 = nodes s ∧
               suspended s5 = suspended s ∧
               effects s5 = releases s ++ effects s ∧
               isActive s5 = false ∧ error s5 = None ∧
               sessionPromiseRef s5 = None ∧ mediaStreamRef s5 = None ∧
               scriptProcessorRef s5 = None ∧
               is_open (inputAudioContextRef s5) = false ∧
               is_open (outputAudioContextRef s5) = false).
  { subst s5. unfold releases.
    destruct s as [act err hist cur [[]|] [[|]|] [[|]|] [[]|] [[]|] nst srcs ns susp effs];
      simpl; repeat split. }
  destruct H5 as (Hsrc & Hns & Hsusp & Heff & ? & ? & ? & ? & ? & ? & ?).
  destruct (stopAndClear_started s5) as (ns' & Hstop & Hle & Hall).
  { intros source Hin. rewrite Hns. apply Hs. rewrite <- Hsrc. exact Hin. }
  eexists. split; [exact Hstop|].
  split; [repeat split; assumption|].
  simpl. rewrite <- Hns, <- Hsrc. auto.
Qed.

(** *** Every tracked source has been started, whatever happened *)

Lemma schedule_tracked d s : tracked_started s → tracked_started (schedule d s).
Proof.
  intros Hs source Hin. unfold schedule in *. simpl in *.
  apply elem_of_union in Hin as [Hin|Hin].
  - apply elem_of_singleton in Hin as ->.
    eexists. split; [apply list_lookup_middle; reflexivity|]. simpl. eauto.
  - destruct (Hs source Hin) as (n & Hn & Hst).
    exists n. split; [|assumption]. apply lookup_app_l_Some. assumption.
Qed.

Lemma stopAndClear_tracked s :
  tracked_started s → tracked_started (fst (stopAndClear s)).
Proof.
  intros Hs. destruct (stopAndClear_started s Hs) as (ns & -> & _).
  intros source Hin. simpl in Hin. apply not_elem_of_empty in Hin. contradiction.
Qed.

Lemma onmessage_interrupted_tracked flag s :
  tracked_started s → tracked_started (fst (onmessage_interrupted flag s)).
Proof.
  intros Hs. destruct flag; simpl; [apply stopAndClear_tracked|]; assumption.
Qed.

Lemma onmessage_transcripts_same message s :
  audioSourcesRef (onmessage_transcripts message s) = audioSourcesRef s ∧
  nodes (onmessage_transcripts message s) = nodes s ∧
  nextStartTimeRef (onmessage_transcripts message s) = nextStartTimeRef s ∧
  outputAudioContextRef (onmessage_transcripts message s) = outputAudioContextRef s.
Proof.
  unfold onmessage_transcripts.
  destruct (serverContent message) as [sc|]; [|auto].
  destruct (inputTranscription sc), (outputTranscription sc), (turnComplete sc);
    simpl; auto.
Qed.

Lemma onmessage_transcripts_tracked message s :
  tracked_started s → tracked_started (onmessage_transcripts message s).
Proof.
  intros Hs source. destruct (onmessage_transcripts_same message s) as (-> & -> & _).
  apply Hs.
Qed.

Lemma stopConversation_tracked s :
  tracked_started s → tracked_started (fst (stopConversation s)).
Proof.
  intros Hs. destruct (stopConversation_started s Hs) as (s' & -> & Hidle & _).
  destruct Hidle as (_ & _ & _ & _ & _ & _ & _ & He & _).
  intros source Hin. simpl in Hin. rewrite He in Hin.
  apply not_elem_of_empty in Hin. contradiction.
Qed.

Lemma step_tracked ev s : tracked_started s → tracked_started (step ev s).
Proof.
  intros Hs. destruct ev as [contexts mic connect| |message t|i audioBuffer|source| |]; simpl.
  - unfold startConversation. destruct (isActive s).
    + apply stopConversation_tracked, Hs.
    + destruct contexts; [destruct mic; [destruct connect|]|]; exact Hs.
  - unfold onopen. destruct (inputAudioContextRef s), (mediaStreamRef s); exact Hs.
  - unfold onmessage_begin.
    pose proof (onmessage_transcripts_tracked message s Hs) as Ht.
    destruct (base64Audio message) as [payload|e]; [|exact Ht].
    destruct (truthy_string payload && _); [exact Ht|].
    apply onmessage_interrupted_tracked, Ht.
  - destruct (suspended s !! i) as [frame|]; [|exact Hs].
    unfold onmessage_resume. destruct audioBuffer as [d|e]; [|exact Hs].
    apply onmessage_interrupted_tracked, schedule_tracked. exact Hs.
  - intros h Hin. unfold onended in Hin. simpl in Hin.
    apply elem_of_difference in Hin as [Hin _]. apply Hs, Hin.
  - unfold onerror. apply stopConversation_tracked. exact Hs.
  - apply stopConversation_tracked, Hs.
Qed.

Lemma run_tracked evs s : tracked_started s → tracked_started (run evs s).
Proof.
  revert s. induction evs as [|ev evs IH]; intros s Hs; simpl; [assumption|].
  apply IH, step_tracked, Hs.
Qed.

Lemma reachable_tracked s : reachable s → tracked_started s.
Proof.
  intros [evs <-]. apply run_tracked.
  intros source Hin. apply not_elem_of_empty in Hin. contradiction.
Qed.

(** C7. [stopConversation] is total and idempotent.  In every state in
    which the tracked sources have been started (every state the component
    can be in, see [reachable_tracked]), whatever is or is not held, it
    raises nothing; it releases what is held and does nothing for what is
    not; it stops every tracked source; it ends at rest: not active, no
    session, stream or capture node, no open context, no tracked source,
    the cursor at 0; and a second call right after changes nothing and
    raises nothing. *)
Theorem stop_is_total_and_idempotent s :
  tracked_started s →
  ∃ s', stopConversation s = (s', None) ∧ idle s' ∧
        effects s' = releases s ++ effects s ∧
        (∀ source, source ∈ audioSourcesRef s →
                   ∃ n, nodes s' !! source = Some n ∧ stopped n = true) ∧
        stopConversation s' = (s', None).
Proof.
  intros Hs.
  destruct (stopConversation_started s Hs) as (s' & Hstop & Hidle & Heff & _ & _ & Hall).
  exists s'. repeat split; try assumption; try apply Hidle.
  apply stopConversation_idle, Hidle.
Qed.

(** What the interruption signal does when the handler of its message
    gets to it, in a state in which the tracked sources have been started:
    every source that was tracked is stopped, the set of tracked sources
    is empty and the cursor is back at 0.  The handler gets to it at once
    when the message has no audio to play, and after the decoder has
    answered with a buffer when it has. *)
Lemma interruption_clears_playback s :
  tracked_started s →
  (∀ message t payload,
     is_interrupted message = true → base64Audio message = Ok payload →
     truthy_string payload &&
       bool_decide (is_Some (outputAudioContextRef s)) = false →
     audioSourcesRef (step (Received message t) s) = ∅ ∧
     nextStartTimeRef (step (Received message t) s) = 0%N ∧
     ∀ source, source ∈ audioSourcesRef s →
       ∃ n, nodes (step (Received message t) s) !! source = Some n ∧
            stopped n = true) ∧
  (∀ i frame d,
     suspended s !! i = Some frame → f_interrupted frame = true →
     audioSourcesRef (step (Decoded i (Ok d)) s) = ∅ ∧
     nextStartTimeRef (step (Decoded i (Ok d)) s) = 0%N ∧
     ∀ source, source ∈ audioSourcesRef s →
       ∃ n, nodes (step (Decoded i (Ok d)) s) !! source = Some n ∧
            stopped n = true).
Proof.
  intros Hs. split.
  - intros message t payload Hint Hpay Hcond. simpl. unfold onmessage_begin.
    rewrite Hpay.
    pose proof (onmessage_transcripts_tracked message s Hs) as Ht.
    destruct (onmessage_transcripts_same message s) as (Hsrc & Hns & _ & Hout).
    rewrite Hout, Hcond, Hint. unfold onmessage_interrupted.
    destruct (stopAndClear_started _ Ht) as (ns & Hstop & _ & Hall).
    rewrite Hstop. simpl. repeat split.
    intros source Hin. apply Hall. rewrite Hsrc. exact Hin.
  - intros i frame d Hi Hf. simpl. rewrite Hi.
    unfold onmessage_resume, onmessage_interrupted. rewrite Hf.
    assert (H1 : tracked_started
                   (schedule d (setSuspended (delete i (suspended s)) s)))
      by (apply schedule_tracked; exact Hs).
    destruct (stopAndClear_started _ H1) as (ns & Hstop & _ & Hall).
    rewrite Hstop. simpl. repeat split.
    intros source Hin. apply Hall. unfold schedule. simpl.
    apply elem_of_union_r. exact Hin.
Qed.

Lemma onmessage_transcripts_suspended message s :
  suspended (onmessage_transcripts message s) = suspended s.
Proof.
  unfold onmessage_transcripts.
  destruct (serverContent message) as [sc|]; [|auto].
  destruct (inputTranscription sc), (outputTranscription sc), (turnComplete sc);
    simpl; auto.
Qed.

(** What the arrival of an audio payload does: the cursor is raised to the
    clock if it is behind it, and the handler waits for the decoder;
    nothing is started yet. *)
Lemma received_audio s message t payload :
  is_Some (outputAudioContextRef s) →
  base64Audio message = Ok (Some payload) → payload ≠ EmptyString →
  nextStartTimeRef (step (Received message t) s) = N.max (nextStartTimeRef s) t ∧
  nodes (step (Received message t) s) = nodes s ∧
  audioSourcesRef (step (Received message t) s) = audioSourcesRef s ∧
  suspended (step (Received message t) s) =
    suspended s ++ [mkFrame (is_interrupted message)] ∧
  outputAudioContextRef (step (Received message t) s) = outputAudioContextRef s.
Proof.
  intros Hctx Hpay Hne. simpl. unfold onmessage_begin. rewrite Hpay.
  destruct (onmessage_transcripts_same message s) as (Hsrc & Hns & Hnst & Hout).
  pose proof (onmessage_transcripts_suspended message s) as Hsusp.
  destruct payload as [|c payload]; [contradiction|]. simpl truthy_string.
  rewrite Hout, bool_decide_eq_true_2 by assumption. simpl.
  rewrite Hsrc, Hns, Hnst, Hout, Hsusp. repeat split.
Qed.

(** What the answer of the decoder does for a handler that carries no
    interruption: a new source is started at the cursor as it is then, the
    cursor moves on by the duration of the buffer, the source is
    tracked. *)
Lemma decoded_audio s i frame d :
  suspended s !! i = Some frame → f_interrupted frame = false →
  nodes (step (Decoded i (Ok d)) s) =
    nodes s ++ [mkNode d (Some (nextStartTimeRef s)) false] ∧
  nextStartTimeRef (step (Decoded i (Ok d)) s) = (nextStartTimeRef s + d)%N ∧
  audioSourcesRef (step (Decoded i (Ok d)) s) =
    {[ length (nodes s) ]} ∪ audioSourcesRef s ∧
  suspended (step (Decoded i (Ok d)) s) = delete i (suspended s) ∧
  outputAudioContextRef (step (Decoded i (Ok d)) s) = outputAudioContextRef s.
Proof.
  intros Hi Hf. simpl. rewrite Hi. unfold onmessage_resume, onmessage_interrupted.
  rewrite Hf. simpl. repeat split.
Qed.

(** C2, as the code has it.  When an audio payload arrives the cursor is
    raised to the clock; when its buffer comes from the decoder the payload
    is started at the cursor as it is then, and the cursor moves on by the
    duration of the buffer.  Two payloads with durations [d1] and [d2],
    the clock reading [t1] and [t2] when they arrive, [t0] the later of the
    cursor and [t1]: if the first is decoded before the second arrives,
    they are started at [t0] and at the later of [t0 + d1] and [t2], never
    overlapping, and without a gap when the second arrives no later than
    [t0 + d1]; if the second arrives while the first is in the decoder,
    the one decoded first is started at the later of [t0] and [t2] and the
    other right at its end, be it the first or the second payload. *)
Theorem payload_starts_at_the_cursor_when_decoded s m1 m2 p1 p2 t1 t2 d1 d2 :
  is_Some (outputAudioContextRef s) →
  base64Audio m1 = Ok (Some p1) → p1 ≠ EmptyString → is_interrupted m1 = false →
  base64Audio m2 = Ok (Some p2) → p2 ≠ EmptyString → is_interrupted m2 = false →
  let k := length (suspended s) in
  let t0 := N.max (nextStartTimeRef s) t1 in
  let t02 := N.max t0 t2 in
  (nextStartTimeRef (step (Received m1 t1) s) = t0 ∧
   nodes (step (Received m1 t1) s) = nodes s ∧
   audioSourcesRef (step (Received m1 t1) s) = audioSourcesRef s ∧
   suspended (step (Received m1 t1) s) = suspended s ++ [mkFrame false]) ∧
  (∀ s' i frame d,
     suspended s' !! i = Some frame → f_interrupted frame = false →
     nodes (step (Decoded i (Ok d)) s') =
       nodes s' ++ [mkNode d (Some (nextStartTimeRef s')) false] ∧
     nextStartTimeRef (step (Decoded i (Ok d)) s') = (nextStartTimeRef s' + d)%N ∧
     audioSourcesRef (step (Decoded i (Ok d)) s') =
       {[ length (nodes s') ]} ∪ audioSourcesRef s') ∧
  (let s2 := run [Received m1 t1; Decoded k (Ok d1);
                  Received m2 t2; Decoded k (Ok d2)] s in
   nodes s2 = nodes s ++ [mkNode d1 (Some t0) false;
                          mkNode d2 (Some (N.max (t0 + d1) t2)) false] ∧
   nextStartTimeRef s2 = (N.max (t0 + d1) t2 + d2)%N) ∧
  (let s2 := run [Received m1 t1; Received m2 t2;
                  Decoded k (Ok d1); Decoded k (Ok d2)] s in
   nodes s2 = nodes s ++ [mkNode d1 (Some t02) false;
                          mkNode d2 (Some (t02 + d1)%N) false] ∧
   nextStartTimeRef s2 = (t02 + d1 + d2)%N) ∧
  (let s2 := run [Received m1 t1; Received m2 t2;
                  Decoded (S k) (Ok d2); Decoded k (Ok d1)] s in
   nodes s2 = nodes s ++ [mkNode d2 (Some t02) false;
                          mkNode d1 (Some (t02 + d2)%N) false] ∧
   nextStartTimeRef s2 = (t02 + d2 + d1)%N) ∧
  (t0 + d1 ≤ N.max (t0 + d1) t2)%N ∧
  ((t2 ≤ t0 + d1)%N → N.max (t0 + d1) t2 = (t0 + d1)%N).
Proof.
  intros Hctx Hp1 Hn1 Hi1 Hp2 Hn2 Hi2 k t0 t02.
  set (f := mkFrame false).
  assert (Hf : f_interrupted f = false) by reflexivity.
  pose proof (received_audio s m1 t1 p1 Hctx Hp1 Hn1) as Hr1.
  rewrite Hi1 in Hr1. fold t0 f in Hr1.
  set (a := step (Received m1 t1) s) in *.
  destruct Hr1 as (Ha1 & Ha2 & Ha3 & Ha4 & Ha5).
  assert (Hctxa : is_Some (outputAudioContextRef a)) by (rewrite Ha5; exact Hctx).
  split; [auto|].
  split.
  { intros s' i frame d Hi Hfr.
    destruct (decoded_audio s' i frame d Hi Hfr) as (H1 & H2 & H3 & _). auto. }
  split; [|split; [|split; [|split; lia]]].
  - (* one after the other *)
    intros s2. unfold s2. clear s2.
    change (run [Received m1 t1; Decoded k (Ok d1); Received m2 t2; Decoded k (Ok d2)] s)
      with (step (Decoded k (Ok d2)) (step (Received m2 t2) (step (Decoded k (Ok d1)) a))).
    assert (Hk : suspended a !! k = Some f)
      by (rewrite Ha4; apply list_lookup_middle; reflexivity).
    destruct (decoded_audio a k f d1 Hk Hf) as (Hb1 & Hb2 & Hb3 & Hb4 & Hb5).
    set (b := step (Decoded k (Ok d1)) a) in *.
    assert (Hctxb : is_Some (outputAudioContextRef b)) by (rewrite Hb5; exact Hctxa).
    pose proof (received_audio b m2 t2 p2 Hctxb Hp2 Hn2) as Hr2.
    rewrite Hi2 in Hr2. fold f in Hr2.
    set (c := step (Received m2 t2) b) in *.
    destruct Hr2 as (Hc1 & Hc2 & Hc3 & Hc4 & Hc5).
    assert (Hsb : suspended b = suspended s).
    { rewrite Hb4, Ha4. unfold k.
      rewrite (delete_middle (suspended s) [] f). apply app_nil_r. }
    assert (Hkc : suspended c !! k = Some f)
      by (rewrite Hc4, Hsb; apply list_lookup_middle; reflexivity).
    destruct (decoded_audio c k f d2 Hkc Hf) as (Hd1 & Hd2 & _).
    rewrite Hd1, Hd2, Hc1, Hc2, Hb1, Hb2, Ha1, Ha2, <- app_assoc. split; reflexivity.
  - (* the second arrives while the first is in the decoder *)
    intros s2. unfold s2. clear s2.
    change (run [Received m1 t1; Received m2 t2; Decoded k (Ok d1); Decoded k (Ok d2)] s)
      with (step (Decoded k (Ok d2)) (step (Decoded k (Ok d1)) (step (Received m2 t2) a))).
    pose proof (received_audio a m2 t2 p2 Hctxa Hp2 Hn2) as Hr2.
    rewrite Hi2 in Hr2. fold f in Hr2.
    set (b := step (Received m2 t2) a) in *.
    destruct Hr2 as (Hb1 & Hb2 & Hb3 & Hb4 & Hb5).
    assert (Hsb : suspended b = suspended s ++ [f; f])
      by (rewrite Hb4, Ha4, <- app_assoc; reflexivity).
    assert (Hk : suspended b !! k = Some f)
      by (rewrite Hsb; apply list_lookup_middle; reflexivity).
    destruct (decoded_audio b k f d1 Hk Hf) as (Hc1 & Hc2 & Hc3 & Hc4 & Hc5).
    set (c := step (Decoded k (Ok d1)) b) in *.
    assert (Hkc : suspended c !! k = Some f).
    { rewrite Hc4, Hsb. unfold k. rewrite (delete_middle (suspended s) [f] f).
      apply list_lookup_middle; reflexivity. }
    destruct (decoded_audio c k f d2 Hkc Hf) as (Hd1 & Hd2 & _).
    rewrite Hd1, Hd2, Hc1, Hc2, Hb1, Hb2, Ha1, Ha2, <- app_assoc. split; reflexivity.
  - (* ... and is decoded first *)
    intros s2. unfold s2. clear s2.
    change (run [Received m1 t1; Received m2 t2; Decoded (S k) (Ok d2); Decoded k (Ok d1)] s)
      with (step (Decoded k (Ok d1)) (step (Decoded (S k) (Ok d2)) (step (Received m2 t2) a))).
    pose proof (received_audio a m2 t2 p2 Hctxa Hp2 Hn2) as Hr2.
    rewrite Hi2 in Hr2. fold f in Hr2.
    set (b := step (Received m2 t2) a) in *.
    destruct Hr2 as (Hb1 & Hb2 & Hb3 & Hb4 & Hb5).
    assert (Hsb : suspended b = (suspended s ++ [f]) ++ [f])
      by (rewrite Hb4, Ha4; reflexivity).
    assert (Hlen : length (suspended s ++ [f]) = S k)
      by (rewrite length_app; simpl; unfold k; lia).
    assert (Hk : suspended b !! S k = Some f)
      by (rewrite Hsb, <- Hlen; apply list_lookup_middle; reflexivity).
    destruct (decoded_audio b (S k) f d2 Hk Hf) as (Hc1 & Hc2 & Hc3 & Hc4 & Hc5).
    set (c := step (Decoded (S k) (Ok d2)) b) in *.
    assert (Hkc : suspended c !! k = Some f).
    { rewrite Hc4, Hsb, <- Hlen, (delete_middle (suspended s ++ [f]) [] f), app_nil_r.
      apply list_lookup_middle; reflexivity. }
    destruct (decoded_audio c k f d1 Hkc Hf) as (Hd1 & Hd2 & _).
    rewrite Hd1, Hd2, Hc1, Hc2, Hb1, Hb2, Ha1, Ha2, <- app_assoc. split; reflexivity.
Qed.

End LiveFacts.

(** ** The PCM encoding of a capture block *)

Section CodecFacts.

Import Codec.

Local Open Scope Z_scope.

Lemma ToInt16_range x : - 2 ^ 15 ≤ ToInt16 x < 2 ^ 15.
Proof.
  unfold ToInt16.
  pose proof (Z.mod_pos_bound (truncate x) (2 ^ 16) ltac:(lia)) as H.
  destruct (2 ^ 15 <=? truncate x mod 2 ^ 16) eqn:E;
    [apply Z.leb_le in E | apply Z.leb_gt in E]; lia.
Qed.

Lemma ToInt16_congruent x : (ToInt16 x - truncate x) mod 2 ^ 16 = 0.
Proof.
  unfold ToInt16.
  pose proof (Z.div_mod (truncate x) (2 ^ 16) ltac:(lia)) as H.
  set (q := truncate x / 2 ^ 16) in *. set (r := truncate x mod 2 ^ 16) in *.
  destruct (2 ^ 15 <=? r).
  - replace (r - 2 ^ 16 - truncate x) with ((- q - 1) * 2 ^ 16) by lia.
    apply Z_mod_mult.
  - replace (r - truncate x) with ((- q) * 2 ^ 16) by lia.
    apply Z_mod_mult.
Qed.

(** In range nothing is lost: the stored integer is the integer part. *)
Lemma ToInt16_in_range x :
  - 2 ^ 15 ≤ truncate x < 2 ^ 15 → ToInt16 x = truncate x.
Proof.
  intros H. unfold ToInt16.
  destruct (Z.neg_nonneg_cases (truncate x)) as [Hn|Hp].
  - replace (truncate x mod 2 ^ 16) with (truncate x + 2 ^ 16).
    + destruct (2 ^ 15 <=? truncate x + 2 ^ 16) eqn:E;
        [apply Z.leb_le in E | apply Z.leb_gt in E]; lia.
    + apply Z.mod_unique with (q := -1); lia.
  - rewrite Z.mod_small by lia.
    destruct (2 ^ 15 <=? truncate x) eqn:E;
      [apply Z.leb_le in E | apply Z.leb_gt in E]; lia.
Qed.

Lemma bytes_of_int16_little_endian v :
  bytes_of_int16 v = [v mod 256; (v / 256) mod 256] ∧
  v mod 256 + 256 * ((v / 256) mod 256) = v mod 2 ^ 16.
Proof.
  split.
  - unfold bytes_of_int16.
    change 255 with (Z.ones 8). rewrite !Z.land_ones by lia.
    rewrite Z.shiftr_div_pow2 by lia. reflexivity.
  - change (2 ^ 16) with (256 * 256). rewrite Z.rem_mul_r by lia. reflexivity.
Qed.

Lemma Uint8Array_length l : length (Uint8Array l) = (2 * length l)%nat.
Proof.
  unfold Uint8Array. induction l as [|v l IH]; [reflexivity|].
  rewrite bind_cons, length_app, IH. simpl. lia.
Qed.

Lemma Uint8Array_lookup l i v :
  l !! i = Some v →
  Uint8Array l !! (2 * i)%nat = Some (v mod 256) ∧
  Uint8Array l !! (2 * i + 1)%nat = Some ((v / 256) mod 256).
Proof.
  revert i. induction l as [|w l IH]; intros i Hi; [discriminate|].
  unfold Uint8Array in *. rewrite bind_cons.
  destruct i as [|i].
  - injection Hi as ->.
    destruct (bytes_of_int16_little_endian v) as [-> _]. split; reflexivity.
  - simpl in Hi. destruct (IH i Hi) as [H0 H1].
    replace (2 * S i)%nat with (S (S (2 * i))) by lia.
    replace (S (S (2 * i)) + 1)%nat with (S (S (2 * i + 1))) by lia.
    split; assumption.
Qed.

(** *** The product with 32768 is exact *)

Lemma iter_xO_succ m k : Pos.iter xO m (Pos.succ k) = xO (Pos.iter xO m k).
Proof. apply Pos.iter_succ. Qed.

Lemma iter_xO_value m k : Zpos (Pos.iter xO m k) = Zpos m * 2 ^ Zpos k.
Proof.
  induction k as [|k IH] using Pos.peano_ind.
  - simpl. lia.
  - rewrite iter_xO_succ, Pos2Z.inj_xO, IH, Pos2Z.inj_succ, Z.pow_succ_r by lia. lia.
Qed.

Lemma iter_xO_digits m k :
  digits2_pos (Pos.iter xO m k) = (digits2_pos m + k)%positive.
Proof.
  induction k as [|k IH] using Pos.peano_ind.
  - simpl. lia.
  - rewrite iter_xO_succ. simpl. rewrite IH. lia.
Qed.

(** A mantissa of full width and an exponent in range: nothing to shift
    out, nothing to round. *)
Lemma shr_fexp_full M E :
  Zpos (digits2_pos M) = 53 → -1074 ≤ E →
  shr_fexp 53 1024 (Zpos M) E loc_Exact =
  ({| shr_m := Zpos M; shr_r := false; shr_s := false |}, E).
Proof.
  intros Hd HE. unfold shr_fexp, fexp, emin, Zdigits2. rewrite Hd.
  replace (Z.max (53 + E - 53) (3 - 1024 - 53) - E) with 0 by lia.
  reflexivity.
Qed.

Lemma binary_round_aux_full s M E :
  Zpos (digits2_pos M) = 53 → -1074 ≤ E ≤ 971 →
  binary_round_aux 53 1024 s (Zpos M) E loc_Exact = S754_finite s M E.
Proof.
  intros Hd HE. unfold binary_round_aux.
  rewrite shr_fexp_full by (assumption || lia).
  cbn [shr_m loc_of_shr_record round_nearest_even].
  rewrite shr_fexp_full by (assumption || lia).
  cbn [shr_m]. change (1024 - 53) with 971.
  destruct (E <=? 971) eqn:H; [reflexivity|]. apply Z.leb_gt in H. lia.
Qed.

Lemma float32_bounds s m e :
  float32 (S754_finite s m e) = true →
  Zpos (digits2_pos m) ≤ 24 ∧ -149 ≤ e ≤ 104.
Proof.
  unfold float32, valid_binary, bounded, canonical_mantissa, fexp, emin.
  intros H. apply andb_true_iff in H as [H1 H2].
  apply Z.eqb_eq in H1. apply Z.leb_le in H2. lia.
Qed.

Lemma toNumber_finite s m e :
  float32 (S754_finite s m e) = true →
  ∃ k, Zpos k = 53 - Zpos (digits2_pos m) ∧
       toNumber (S754_finite s m e) =
       S754_finite s (Pos.iter xO m k) (e - Zpos k).
Proof.
  intros H. apply float32_bounds in H as [Hd He].
  unfold toNumber.
  assert (Hn : binary_normalize 53 1024 (cond_Zopp s (Zpos m)) e s =
               binary_round 53 1024 s m e) by (destruct s; reflexivity).
  rewrite Hn. unfold binary_round, shl_align, fexp, emin.
  replace (Z.max (Zpos (digits2_pos m) + e - 53) (3 - 1024 - 53) - e)
    with (Zpos (digits2_pos m) - 53) by lia.
  destruct (Zpos (digits2_pos m) - 53) as [|p|k] eqn:Hk; try lia.
  exists k. split; [lia|].
  replace (Z.max (Zpos (digits2_pos m) + e - 53) (3 - 1024 - 53))
    with (e - Zpos k) by lia.
  apply binary_round_aux_full; [rewrite iter_xO_digits | ]; lia.
Qed.

Lemma mul_pow52 M :
  (M * 4503599627370496)%positive = Pos.iter xO M 52.
Proof. rewrite !Pos.mul_xO_r, Pos.mul_1_r. reflexivity. Qed.

(** The product of a full mantissa and 2^52: the 52 low bits are zero and
    are shifted out without rounding. *)
Lemma binary_round_aux_shift52 s M E :
  Zpos (digits2_pos M) = 53 → -1074 ≤ E + 52 ≤ 971 →
  binary_round_aux 53 1024 s (Zpos (M * 4503599627370496)) E loc_Exact =
  S754_finite s M (E + 52).
Proof.
  intros Hd HE. rewrite mul_pow52.
  assert (Hd' : digits2_pos M = 53%positive) by (injection Hd; auto).
  unfold binary_round_aux at 1.
  assert (Hshr : shr_fexp 53 1024 (Zpos (Pos.iter xO M 52)) E loc_Exact =
                 ({| shr_m := Zpos M; shr_r := false; shr_s := false |}, E + 52)).
  { unfold shr_fexp, fexp, emin, Zdigits2. rewrite iter_xO_digits, Hd'.
    replace (Z.max (Zpos (53 + 52) + E - 53) (3 - 1024 - 53) - E) with 52 by lia.
    reflexivity. }
  rewrite Hshr. cbn [shr_m loc_of_shr_record round_nearest_even].
  rewrite shr_fexp_full by (assumption || lia).
  cbn [shr_m]. change (1024 - 53) with 971.
  destruct (E + 52 <=? 971) eqn:H; [reflexivity|]. apply Z.leb_gt in H. lia.
Qed.

(** The product with 32768 is exact: the mantissa of the sample, the
    exponent moved up by 15. *)
Lemma scaled_finite s m e :
  float32 (S754_finite s m e) = true →
  ∃ k, Zpos k = 53 - Zpos (digits2_pos m) ∧
       scaled (S754_finite s m e) =
       S754_finite s (Pos.iter xO m k) (e + 15 - Zpos k).
Proof.
  intros H. pose proof (float32_bounds s m e H) as [Hd He].
  destruct (toNumber_finite s m e H) as (k & Hk & Hn).
  exists k. split; [exact Hk|].
  unfold scaled. rewrite Hn.
  change n32768 with (S754_finite false 4503599627370496 (-37)).
  cbn [SFmul]. rewrite xorb_false_r.
  rewrite binary_round_aux_shift52; [f_equal; lia | rewrite iter_xO_digits; lia | lia].
Qed.

(** The integer part of the scaled sample, from the mantissa and the
    exponent of the sample: the mantissa shifted by the exponent plus 15,
    to the left, or to the right when that is negative, with the sign. *)
Lemma truncate_scaled s m e :
  float32 (S754_finite s m e) = true →
  truncate (scaled (S754_finite s m e)) =
  cond_Zopp s (Z.shiftl (Zpos m) (e + 15)).
Proof.
  intros H. destruct (scaled_finite s m e H) as (k & Hk & ->).
  unfold truncate. f_equal.
  assert (Hm : Zpos (Pos.iter xO m k) = Z.shiftl (Zpos m) (Zpos k)).
  { rewrite iter_xO_value, Z.shiftl_mul_pow2 by lia. reflexivity. }
  rewrite Hm.
  replace (e + 15) with (Zpos k + (e + 15 - Zpos k)) at 2 by lia.
  rewrite <- Z.shiftl_shiftl by lia.
  destruct (e + 15 - Zpos k) as [|p|p]; reflexivity.
Qed.

(** C5, as the code has it.  For every capture block the blob carries the
    base64 text of two bytes per sample, low byte first, of the 16-bit
    integer stored for the sample: the integer part (rounding toward zero,
    not to the nearest) of the sample times 32768, taken modulo 2^16 into
    the signed 16-bit range, with no clamping, so that 1.5 is stored as
    -16384 and not as 32767.  For a binary32 sample the product is exact:
    the integer part is the mantissa shifted by the exponent plus 15, with
    the sign of the sample. *)
Theorem block_is_truncated_pcm (inputData : list spec_float) :
  data (onaudioprocess inputData) = encode (Uint8Array (int16 inputData)) ∧
  length (int16 inputData) = length inputData ∧
  length (Uint8Array (int16 inputData)) = (2 * length inputData)%nat ∧
  (∀ i x, inputData !! i = Some x →
     ∃ v, int16 inputData !! i = Some v ∧
          v = wrap16 (truncate (scaled x)) ∧
          - 2 ^ 15 ≤ v < 2 ^ 15 ∧
          (v - truncate (scaled x)) mod 2 ^ 16 = 0 ∧
          (- 2 ^ 15 ≤ truncate (scaled x) < 2 ^ 15 → v = truncate (scaled x)) ∧
          (∀ s m e, x = S754_finite s m e → float32 x = true →
                    truncate (scaled x) = cond_Zopp s (Z.shiftl (Zpos m) (e + 15))) ∧
          Uint8Array (int16 inputData) !! (2 * i)%nat = Some (v mod 256) ∧
          Uint8Array (int16 inputData) !! (2 * i + 1)%nat = Some ((v / 256) mod 256) ∧
          v mod 256 + 256 * ((v / 256) mod 256) = v mod 2 ^ 16) ∧
  ToInt16 (scaled (sample 3 (-1))) = -16384.
Proof.
  split; [reflexivity|].
  split; [unfold int16; apply length_fmap|].
  split; [rewrite Uint8Array_length; unfold int16; rewrite length_fmap; reflexivity|].
  split; [|vm_compute; reflexivity].
  intros i x Hx. exists (ToInt16 (scaled x)).
  assert (Hv : int16 inputData !! i = Some (ToInt16 (scaled x))).
  { unfold int16. rewrite list_lookup_fmap, Hx. reflexivity. }
  destruct (Uint8Array_lookup _ _ _ Hv) as [H0 H1].
  split; [exact Hv|].
  split; [reflexivity|].
  split; [apply ToInt16_range|].
  split; [apply ToInt16_congruent|].
  split; [apply ToInt16_in_range|].
  split; [intros s m e -> Hf; apply truncate_scaled, Hf|].
  split; [exact H0|]. split; [exact H1|].
  apply bytes_of_int16_little_endian.
Qed.

End CodecFacts.

(** ** Worked instances *)

(** ** More on the streaming response assembler *)

Section ChatMore.

Import Chat.

Variable hostname : string → option string.



Lemma run_app evs1 evs2 p :
  run hostname (evs1 ++ evs2) p = run hostname evs2 (run hostname evs1 p).
Proof. unfold run. apply foldl_app. Qed.

(** X1. the ids of a citation set are S1, S2, ... in order, no two of them
    the same. *)
Theorem citation_ids_are_distinct gcs ns :
  newSources hostname gcs = Some ns →
  (∀ i s, ns !! i = Some s → s_id s = "S" +:+ pretty (i + 1)%nat) ∧
  NoDup (s_id <$> ns).
Proof.
  intros H. destruct (newSources_lookup hostname gcs ns H) as [Hlen Hnth].
  assert (Hid : ∀ i s, ns !! i = Some s → s_id s = "S" +:+ pretty (i + 1)%nat).
  { intros i s Hs.
    destruct (lookup_lt_is_Some_2 (webEntries gcs) i) as [w Hw].
    { rewrite <- Hlen. eapply lookup_lt_Some; eassumption. }
    destruct (Hnth i w Hw) as (d & _ & Hs'). rewrite Hs in Hs'.
    injection Hs' as ->. reflexivity. }
  split; [exact Hid|].
  apply NoDup_alt. intros i j x Hi Hj.
  rewrite list_lookup_fmap in Hi, Hj.
  destruct (ns !! i) as [si|] eqn:Hsi; [|discriminate].
  destruct (ns !! j) as [sj|] eqn:Hsj; [|discriminate].
  simpl in Hi, Hj. injection Hi as Hi. injection Hj as Hj.
  rewrite (Hid _ _ Hsi) in Hi. rewrite (Hid _ _ Hsj) in Hj.
  rewrite <- Hj in Hi. apply (inj (String.append "S")) in Hi.
  apply (inj pretty) in Hi. lia.
Qed.

(** What one event does to the transcript: the messages that were there
    stay where they are, each possibly rewritten by the same function, and
    messages may be appended. *)
Lemma step_messages ev p :
  ∃ f added, messages (app (step hostname ev p)) = (f <$> messages (app p)) ++ added ∧
    ∀ m, m_id (f m) = m_id m ∧ m_role (f m) = m_role m ∧ m_media (f m) = m_media m.
Proof.
  assert (Hid : ∀ l : list ChatMessage, l = (id <$> l) ++ [])
    by (intros l; rewrite list_fmap_id, app_nil_r; reflexivity).
  assert (Hmap : ∀ mid g (l : list ChatMessage),
            (∀ m, m_id (g m) = m_id m ∧ m_role (g m) = m_role m ∧ m_media (g m) = m_media m) →
            ∃ f added, mapMessage mid g l = (f <$> l) ++ added ∧
              ∀ m, m_id (f m) = m_id m ∧ m_role (f m) = m_role m ∧ m_media (f m) = m_media m).
  { intros mid g l Hg. eexists. exists []. split.
    - unfold mapMessage. rewrite app_nil_r. reflexivity.
    - intros m. simpl. destruct (decide (m_id m = mid)); auto. }
  destruct ev as [now1 now2 userPrompt opened|chunk| |e]; simpl.
  - destruct (send_guard userPrompt (app p)).
    { exists id, []. split; [apply Hid | auto]. }
    assert (Hfail : ∀ e l, ∃ f added,
      messages (app (fail (toString (now2 + 1)) e
                       (send_begin now1 now2 userPrompt (app p)) l)) =
        (f <$> messages (app p)) ++ added ∧
      ∀ m, m_id (f m) = m_id m ∧ m_role (f m) = m_role m ∧ m_media (f m) = m_media m).
    { intros e l. simpl. unfold mapMessage. rewrite !fmap_app, <- app_assoc.
      eexists. eexists. split; [reflexivity|].
      intros m. simpl. destruct (decide _); auto. }
    destruct (chatSession (app p)); [destruct opened|]; try apply Hfail.
    exists id. eexists. simpl. rewrite list_fmap_id, <- app_assoc. split; [reflexivity | auto].
  - destruct (inflight p) as [ex|]; [|exists id, []; split; [apply Hid | auto]].
    destruct (on_chunk hostname chunk ex (app p)) as [[ex' a']|e] eqn:Hc.
    + destruct (on_chunk_messages _ _ _ _ _ _ Hc) as (_ & _ & Hm).
      simpl. rewrite Hm. apply Hmap. intros m. auto.
    + simpl. apply Hmap. intros m. auto.
  - destruct (inflight p) as [ex|]; [|exists id, []; split; [apply Hid | auto]].
    simpl. apply Hmap. intros m. auto.
  - destruct (inflight p) as [ex|]; [|exists id, []; split; [apply Hid | auto]].
    simpl. apply Hmap. intros m. auto.
Qed.

(** X2. the transcript only grows.  Whatever happens, a message stays at
    its place and keeps its id, its role and its media. *)
Theorem transcript_is_append_only evs p i m :
  messages (app p) !! i = Some m →
  ∃ m', messages (app (run hostname evs p)) !! i = Some m' ∧
        m_id m' = m_id m ∧ m_role m' = m_role m ∧ m_media m' = m_media m.
Proof.
  revert p m. induction evs as [|ev evs IH]; intros p m Hm; simpl.
  - exists m. auto.
  - destruct (step_messages ev p) as (f & added & Heq & Hf).
    destruct (IH (step hostname ev p) (f m)) as (m' & Hm' & Hi & Hr & Hd).
    { rewrite Heq. apply lookup_app_l_Some. rewrite list_lookup_fmap, Hm. reflexivity. }
    destruct (Hf m) as (Hf1 & Hf2 & Hf3).
    exists m'. split; [exact Hm'|]. repeat split; congruence.
Qed.

Lemma elem_of_mapMessage mid g (l : list ChatMessage) m' :
  m' ∈ mapMessage mid g l →
  ∃ m, m ∈ l ∧ ((m_id m = mid ∧ m' = g m) ∨ (m_id m ≠ mid ∧ m' = m)).
Proof.
  unfold mapMessage. intros H. apply list_elem_of_fmap in H as (m & -> & Hin).
  exists m. split; [exact Hin|]. destruct (decide (m_id m = mid)); auto.
Qed.

(** After the [catch] block, or after the end of the stream, no message
    with the id of the exchange is pending. *)
Lemma settled_not_pending mid g p l :
  (∀ m, m_isLoading (g m) = Some false) →
  in_flight_ok p → pending_are_in_flight p →
  (∀ ex, inflight p = Some ex → modelMessageId ex = mid) →
  pending_are_in_flight (mkPage (setIsLoading false (setMessages (mapMessage mid g) (app p))) None l).
Proof.
  intros Hg Hok Hp Hmid m' Hin Hl. simpl in Hin.
  apply elem_of_mapMessage in Hin as (m & Hin & [[Hi ->]|[Hi ->]]).
  - rewrite Hg in Hl. discriminate.
  - destruct (Hp m Hin Hl) as (ex & Hex & He).
    exfalso. apply Hi. rewrite He. apply Hmid, Hex.
Qed.

Lemma step_pending ev p :
  in_flight_ok p → pending_are_in_flight p →
  pending_are_in_flight (step hostname ev p).
Proof.
  intros Hok Hp.
  destruct ev as [now1 now2 userPrompt opened|chunk| |e]; simpl.
  - destruct (send_guard userPrompt (app p)) eqn:Hg; [exact Hp|].
    unfold send_guard in Hg. apply orb_false_iff in Hg as [Hload _].
    assert (Hnone : inflight p = None).
    { unfold in_flight_ok in Hok. destruct (inflight p); [|reflexivity].
      destruct Hok as [Hok _]. congruence. }
    assert (Hold : ∀ m, m ∈ messages (app p) → m_isLoading m ≠ Some true).
    { intros m Hin Hl. destruct (Hp m Hin Hl) as (ex & Hex & _). congruence. }
    assert (Hfail : ∀ e l, pending_are_in_flight
              (fail (toString (now2 + 1)) e (send_begin now1 now2 userPrompt (app p)) l)).
    { intros e l m' Hin Hl. simpl in Hin.
      apply elem_of_mapMessage in Hin as (m & Hin & [[Hi ->]|[Hi ->]]); [discriminate|].
      apply elem_of_app in Hin as [Hin|Hin].
      - apply elem_of_app in Hin as [Hin|Hin]; [exfalso; eapply Hold; eassumption|].
        apply list_elem_of_singleton in Hin as ->. discriminate.
      - apply list_elem_of_singleton in Hin as ->. exfalso. apply Hi. reflexivity. }
    destruct (chatSession (app p)); [destruct opened|]; try apply Hfail.
    intros m Hin Hl. simpl in Hin. eexists. split; [reflexivity|]. simpl.
    apply elem_of_app in Hin as [Hin|Hin].
    + apply elem_of_app in Hin as [Hin|Hin]; [exfalso; eapply Hold; eassumption|].
      apply list_elem_of_singleton in Hin as ->. discriminate.
    + apply list_elem_of_singleton in Hin as ->. reflexivity.
  - destruct (inflight p) as [ex|] eqn:Hi; [|exact Hp].
    destruct (on_chunk hostname chunk ex (app p)) as [[ex' a']|e] eqn:Hc.
    + destruct (on_chunk_messages _ _ _ _ _ _ Hc) as (Hid & _ & Hm).
      intros m' Hin Hl. simpl in Hin. rewrite Hm in Hin.
      exists ex'. split; [reflexivity|]. rewrite Hid.
      apply elem_of_mapMessage in Hin as (m & Hin & [[Hi' ->]|[Hi' ->]]).
      * simpl. exact Hi'.
      * destruct (Hp m Hin Hl) as (ex0 & Hex & He). congruence.
    + apply (settled_not_pending _ withApology); try assumption; [reflexivity|].
      intros ex0 Hex. congruence.
  - destruct (inflight p) as [ex|] eqn:Hi; [|exact Hp].
    apply (settled_not_pending _ withLoaded); try assumption; [reflexivity|].
    intros ex0 Hex. congruence.
  - destruct (inflight p) as [ex|] eqn:Hi; [|exact Hp].
    apply (settled_not_pending _ withApology); try assumption; [reflexivity|].
    intros ex0 Hex. congruence.
Qed.

(** X3. no spinner is left behind.  From a transcript without pending
    messages, whatever the sequence of events, a message is shown as
    loading only while its exchange is in flight: with no exchange in
    flight no message is pending, and with one in flight only messages
    with its id are. *)
Theorem no_pending_message_without_exchange a0 evs :
  isLoading a0 = false →
  (∀ m, m ∈ messages a0 → m_isLoading m ≠ Some true) →
  ∀ m, m ∈ messages (app (run hostname evs (mkPage a0 None []))) →
       m_isLoading m = Some true →
       ∃ ex, inflight (run hostname evs (mkPage a0 None [])) = Some ex ∧
             m_id m = modelMessageId ex.
Proof.
  intros Hload Hnone.
  assert (H : in_flight_ok (run hostname evs (mkPage a0 None [])) ∧
              pending_are_in_flight (run hostname evs (mkPage a0 None []))).
  { assert (H0 : in_flight_ok (mkPage a0 None []) ∧
                 pending_are_in_flight (mkPage a0 None [])).
    { split; [exact Hload|]. intros m Hin Hl. exfalso. eapply Hnone; eassumption. }
    revert H0. generalize (mkPage a0 None []).
    induction evs as [|ev evs IH]; intros p [H1 H2]; simpl; [auto|].
    apply IH. split; [apply step_in_flight_ok | apply step_pending]; assumption. }
  exact (proj2 H).
Qed.

Lemma on_chunk_acceptable chunk ex a :
  acceptable hostname chunk →
  ∃ ex' a', on_chunk hostname chunk ex a = Ok (ex', a') ∧
            fullText ex' = fullText ex +:+ js_to_string (text chunk).
Proof.
  intros Hc. unfold on_chunk.
  destruct (chunkGroundingChunks chunk) as [gcs|] eqn:Hg.
  - destruct (newSources_total hostname gcs (Hc gcs Hg)) as [ns ->].
    eexists. eexists. split; reflexivity.
  - eexists. eexists. split; reflexivity.
Qed.

(** The fragments of a stream, taken in one after the other: the text of
    the pending message follows the accumulated text, the message in front
    of it stays. *)
Lemma chunks_accumulate chunks p ex n u m :
  Forall (acceptable hostname) chunks →
  inflight p = Some ex →
  messages (app p) !! n = Some u → m_id u ≠ modelMessageId ex →
  messages (app p) !! S n = Some m → m_id m = modelMessageId ex →
  m_text m = fullText ex →
  ∃ ex' m',
    inflight (run hostname (Chunk <$> chunks) p) = Some ex' ∧
    modelMessageId ex' = modelMessageId ex ∧
    fullText ex' =
      foldl (λ t chunk, t +:+ js_to_string (text chunk)) (fullText ex) chunks ∧
    log (run hostname (Chunk <$> chunks) p) = log p ∧
    isLoading (app (run hostname (Chunk <$> chunks) p)) = isLoading (app p) ∧
    length (messages (app (run hostname (Chunk <$> chunks) p))) =
      length (messages (app p)) ∧
    messages (app (run hostname (Chunk <$> chunks) p)) !! n = Some u ∧
    messages (app (run hostname (Chunk <$> chunks) p)) !! S n = Some m' ∧
    m_id m' = m_id m ∧ m_role m' = m_role m ∧ m_isLoading m' = m_isLoading m ∧
    m_text m' = fullText ex'.
Proof.
  intros Hall. revert p ex m.
  induction Hall as [|chunk chunks Hc _ IH]; intros p ex m Hi Hu Hune Hm Hmid Ht.
  - exists ex, m. simpl. repeat split; auto.
  - rewrite fmap_cons.
    destruct (on_chunk_acceptable chunk ex (app p) Hc) as (ex1 & a1 & Hok & Hfull).
    destruct (on_chunk_messages _ _ _ _ _ _ Hok) as (Hid1 & Hl1 & Hm1).
    assert (Hstep : step hostname (Chunk chunk) p = mkPage a1 (Some ex1) (log p))
      by (simpl; rewrite Hi, Hok; reflexivity).
    change (run hostname (Chunk chunk :: (Chunk <$> chunks)) p)
      with (run hostname (Chunk <$> chunks) (step hostname (Chunk chunk) p)).
    rewrite Hstep.
    destruct (IH (mkPage a1 (Some ex1) (log p)) ex1
                 (withTextSources (fullText ex1) (currentSources ex1) m))
      as (ex' & m' & H1 & H2 & H3 & H4 & H5 & H6 & H7 & H8 & H9 & H10 & H11 & H12).
    + reflexivity.
    + simpl. rewrite Hm1. apply mapMessage_other; assumption.
    + congruence.
    + simpl. rewrite Hm1. apply mapMessage_same; assumption.
    + simpl. congruence.
    + reflexivity.
    + exists ex', m'. simpl in *.
      rewrite Hm1 in H6. unfold mapMessage in H6. rewrite length_fmap in H6.
      rewrite Hfull in H3.
      repeat split; try assumption; congruence.
Qed.

(** X4. the answer is the fragments' texts in stream order.  A prompt sent
    with no exchange in flight, a stream that delivers fragments and ends:
    the transcript gets the user's message and, after it, the answer, whose
    text is the texts of the fragments one after the other (a fragment
    without text counts as "undefined"), no longer pending; the user's
    message is not touched, as the clock does not run backward between the
    two ids; one stream was opened. *)
Theorem answer_is_the_fragments_in_order now1 now2 userPrompt chunks p :
  inflight p = None → isLoading (app p) = false → chatSession (app p) = true →
  trim_is_empty userPrompt = false → (now1 ≤ now2)%Z →
  Forall (acceptable hostname) chunks →
  let q := handleSendMessage hostname now1 now2 userPrompt None chunks None p in
  let n := length (messages (app p)) in
  length (messages (app q)) = n + 2 ∧
  messages (app q) !! n = Some (userMessage now1 userPrompt) ∧
  (∃ m, messages (app q) !! S n = Some m ∧
        m_id m = toString (now2 + 1) ∧ m_role m = MODEL ∧
        m_text m = joined chunks ∧ m_isLoading m = Some false) ∧
  isLoading (app q) = false ∧ inflight q = None ∧
  log q = StreamChat userPrompt :: log p.
Proof.
  intros Hi Hload Hsess Hblank Hclock Hall q n.
  assert (Hne : toString now1 ≠ toString (now2 + 1)).
  { unfold toString. intros H. apply (inj pretty) in H. lia. }
  set (p1 := step hostname (Send now1 now2 userPrompt None) p).
  assert (Hp1 : p1 = mkPage (send_begin now1 now2 userPrompt (app p))
                       (Some (mkExchange (toString (now2 + 1)) EmptyString []))
                       (StreamChat userPrompt :: log p)).
  { unfold p1. simpl. unfold send_guard. rewrite Hload, Hblank, Hsess. reflexivity. }
  assert (Hq : q = step hostname StreamEnd (run hostname (Chunk <$> chunks) p1)).
  { unfold q, handleSendMessage. simpl run. fold p1. rewrite run_app. reflexivity. }
  destruct (chunks_accumulate chunks p1
              (mkExchange (toString (now2 + 1)) EmptyString []) n
              (userMessage now1 userPrompt) (initialModelMessage now2) Hall)
    as (ex' & m' & H1 & H2 & H3 & H4 & H5 & H6 & H7 & H8 & H9 & H10 & H11 & H12).
  - rewrite Hp1. reflexivity.
  - rewrite Hp1. simpl. rewrite <- app_assoc.
    rewrite lookup_app_r by (unfold n; lia).
    replace (n - length (messages (app p))) with 0 by (unfold n; lia). reflexivity.
  - exact Hne.
  - rewrite Hp1. simpl. rewrite <- app_assoc.
    rewrite lookup_app_r by (unfold n; lia).
    replace (S n - length (messages (app p))) with 1 by (unfold n; lia). reflexivity.
  - reflexivity.
  - reflexivity.
  - rewrite Hq. simpl. rewrite H1. simpl.
    assert (Hlen : length (messages (app p1)) = n + 2).
    { rewrite Hp1. simpl. rewrite !length_app. simpl. unfold n. lia. }
    split; [unfold mapMessage; rewrite length_fmap; congruence|].
    split.
    { apply mapMessage_other; [exact H7|]. rewrite H2. exact Hne. }
    split.
    { exists (withLoaded m'). split.
      - apply mapMessage_same; [exact H8|]. rewrite H9, H2. reflexivity.
      - simpl. rewrite H9, H10, H12, H3. repeat split. }
    split; [reflexivity|]. split; [reflexivity|].
    rewrite H4, Hp1. reflexivity.
Qed.

Lemma newSources_fails gcs w :
  w ∈ webEntries gcs → hostname (uri w) = None → newSources hostname gcs = None.
Proof.
  intros Hin Hw. destruct (newSources hostname gcs) as [ns|] eqn:Hns; [|reflexivity].
  apply list_elem_of_lookup in Hin as [i Hi].
  destruct (newSources_lookup hostname gcs ns Hns) as [_ Hnth].
  destruct (Hnth i w Hi) as (d & Hd & _). congruence.
Qed.

(** X5. a source address that is not a URL ends the exchange.  When a
    fragment lists a web source whose address the URL parser rejects, the
    exchange ends there as after an error of the stream: the error is
    logged, the pending message gets the apology in place of all the text
    received, this fragment's included, and is no longer pending; it keeps
    the citations it had before the fragment, and the panel keeps its
    sources. *)
Theorem bad_source_address_ends_the_exchange p ex chunk gcs w :
  inflight p = Some ex →
  chunkGroundingChunks chunk = Some gcs →
  w ∈ webEntries gcs → hostname (uri w) = None →
  let r := step hostname (Chunk chunk) p in
  inflight r = None ∧ isLoading (app r) = false ∧
  sources (app r) = sources (app p) ∧
  (∃ e, log r = ConsoleError "Error streaming chat:" e :: log p) ∧
  length (messages (app r)) = length (messages (app p)) ∧
  ∀ i m, messages (app p) !! i = Some m →
    messages (app r) !! i =
      Some (if decide (m_id m = modelMessageId ex)
            then mkMessage (m_id m) (m_role m) apology (m_sources m)
                           (m_media m) (Some false)
            else m).
Proof.
  intros Hi Hg Hin Hw r. subst r. simpl. rewrite Hi.
  unfold on_chunk. rewrite Hg, (newSources_fails gcs w Hin Hw). simpl.
  repeat split.
  - eexists. reflexivity.
  - unfold mapMessage. apply length_fmap.
  - intros i m Hm. rewrite mapMessage_lookup, Hm. reflexivity.
Qed.

(** Fragments without a list of sources, taken in one after the other. *)
Lemma chunks_without_sources chunks p ex n m :
  Forall (λ chunk, chunkGroundingChunks chunk = None) chunks →
  inflight p = Some ex → currentSources ex = [] →
  messages (app p) !! n = Some m → m_id m = modelMessageId ex →
  ∃ ex' m',
    inflight (run hostname (Chunk <$> chunks) p) = Some ex' ∧
    modelMessageId ex' = modelMessageId ex ∧ currentSources ex' = [] ∧
    sources (app (run hostname (Chunk <$> chunks) p)) = sources (app p) ∧
    activeSource (app (run hostname (Chunk <$> chunks) p)) = activeSource (app p) ∧
    messages (app (run hostname (Chunk <$> chunks) p)) !! n = Some m' ∧
    m_id m' = m_id m ∧
    m_sources m' = match chunks with [] => m_sources m | _ => Some [] end.
Proof.
  intros Hall. revert p ex m.
  induction Hall as [|chunk chunks Hc _ IH]; intros p ex m Hi Hcs Hm Hmid.
  - exists ex, m. simpl. repeat split; auto.
  - rewrite fmap_cons.
    change (run hostname (Chunk chunk :: (Chunk <$> chunks)) p)
      with (run hostname (Chunk <$> chunks) (step hostname (Chunk chunk) p)).
    assert (Hstep : step hostname (Chunk chunk) p =
              mkPage (setMessages
                        (mapMessage (modelMessageId ex)
                           (withTextSources (fullText ex +:+ js_to_string (text chunk)) []))
                        (app p))
                     (Some (mkExchange (modelMessageId ex)
                              (fullText ex +:+ js_to_string (text chunk)) []))
                     (log p)).
    { simpl. rewrite Hi. unfold on_chunk. rewrite Hc, Hcs. reflexivity. }
    rewrite Hstep.
    match goal with |- context [run hostname _ (mkPage ?a (Some ?e) ?l)] =>
      destruct (IH (mkPage a (Some e) l) e
                 (withTextSources (fullText ex +:+ js_to_string (text chunk)) [] m))
        as (ex' & m' & H1 & H2 & H3 & H4 & H5 & H6 & H7 & H8) end.
    + reflexivity.
    + reflexivity.
    + simpl. apply mapMessage_same; assumption.
    + simpl. exact Hmid.
    + exists ex', m'. simpl in *.
      repeat split; try assumption.
      destruct chunks; assumption.
Qed.

(** X6. an answer without a list of sources leaves the panel as it was.
    A prompt sent with no exchange in flight, a stream whose fragments
    carry no list of sources and that ends: the answer has no citations of
    its own (an empty list once a fragment has come), while the panel still
    holds the sources and the selection it had before the prompt, those of
    an earlier answer if there was one; a marker clicked in the new answer
    is looked up among them. *)
Theorem answer_without_sources_keeps_the_panel now1 now2 userPrompt chunks p :
  inflight p = None → isLoading (app p) = false → chatSession (app p) = true →
  trim_is_empty userPrompt = false →
  Forall (λ chunk, chunkGroundingChunks chunk = None) chunks →
  let q := handleSendMessage hostname now1 now2 userPrompt None chunks None p in
  sources (app q) = sources (app p) ∧
  activeSource (app q) = activeSource (app p) ∧
  (∃ m, messages (app q) !! S (length (messages (app p))) = Some m ∧
        m_id m = toString (now2 + 1) ∧
        m_sources m = match chunks with [] => None | _ => Some [] end) ∧
  ∀ sid, activeSource (onSourceClick sid (app q)) =
         find (λ s, bool_decide (s_id s = sid)) (sources (app p)).
Proof.
  intros Hi Hload Hsess Hblank Hall q.
  set (p1 := step hostname (Send now1 now2 userPrompt None) p).
  assert (Hp1 : p1 = mkPage (send_begin now1 now2 userPrompt (app p))
                       (Some (mkExchange (toString (now2 + 1)) EmptyString []))
                       (StreamChat userPrompt :: log p)).
  { unfold p1. simpl. unfold send_guard. rewrite Hload, Hblank, Hsess. reflexivity. }
  assert (Hq : q = step hostname StreamEnd (run hostname (Chunk <$> chunks) p1)).
  { unfold q, handleSendMessage. simpl run. fold p1. rewrite run_app. reflexivity. }
  destruct (chunks_without_sources chunks p1
              (mkExchange (toString (now2 + 1)) EmptyString [])
              (S (length (messages (app p)))) (initialModelMessage now2) Hall)
    as (ex' & m' & H1 & H2 & H3 & H4 & H5 & H6 & H7 & H8).
  { rewrite Hp1. reflexivity. }
  { reflexivity. }
  { rewrite Hp1. simpl. rewrite lookup_app_r; rewrite length_app; simpl; [|lia].
    replace (S (length (messages (app p))) - (length (messages (app p)) + 1))
      with 0 by lia. reflexivity. }
  { reflexivity. }
  assert (Hs : sources (app q) = sources (app p)).
  { rewrite Hq. simpl. rewrite H1. simpl. rewrite H4, Hp1. reflexivity. }
  split; [exact Hs|].
  split; [rewrite Hq; simpl; rewrite H1; simpl; rewrite H5, Hp1; reflexivity|].
  split.
  - exists (withLoaded m'). rewrite Hq. simpl. rewrite H1. simpl.
    simpl in H2, H7.
    split; [apply mapMessage_same; [exact H6|congruence]|].
    simpl. split; [exact H7|]. exact H8.
  - intros sid. unfold onSourceClick. simpl. rewrite Hs. reflexivity.
Qed.

End ChatMore.

(** ** More on the citation markers *)

Section MarkdownMore.

Import Markdown.

Local Arguments String.append !_ _ / : simpl nomatch.

Lemma skip_chars_app x r : skip_chars (String.length x) (x +:+ r) = r.
Proof. induction x as [|c x IH]; simpl; [destruct r; reflexivity | exact IH]. Qed.

Lemma match_marker_unfold s :
  match_marker s =
  match marker_at s with
  | Some (ds, _) => Some ds
  | None => match s with String _ s' => match_marker s' | EmptyString => None end
  end.
Proof. destruct s; reflexivity. Qed.

Lemma split_from_skip_step c s k : split_from (String c s) (S k) = split_from s k.
Proof. reflexivity. Qed.

(** The parts of a text alternate and put together give the text back. *)
Lemma split_from_alternating s k :
  alternating (split_from s k) ∧ join (split_from s k) = skip_chars k s.
Proof.
  revert k. induction s as [|c s IH]; intros k.
  - split; [apply alternating_last; reflexivity | destruct k; reflexivity].
  - destruct k as [|k]; [|rewrite split_from_skip_step; apply IH].
    rewrite split_from_cons.
    destruct (marker_at (String c s)) as [[ds rest]|] eqn:Hm.
    + destruct (marker_at_inv _ _ _ Hm) as (Heq & Hd & Hne).
      destruct (IH (String.length ds + 2)) as [Halt Hjoin].
      split; [apply alternating_more; auto; reflexivity|].
      assert (Hs : s = String "S" (ds +:+ "]") +:+ rest).
      { unfold marker in Heq. simpl in Heq. injection Heq as _ Heq. exact Heq. }
      assert (Hskip : skip_chars (String.length ds + 2) s = rest).
      { rewrite Hs at 1.
        replace (String.length ds + 2) with (String.length (String "S" (ds +:+ "]")))
          by (simpl; rewrite length_append; simpl; lia).
        apply skip_chars_app. }
      change (join (EmptyString :: marker ds :: split_from s (String.length ds + 2)))
        with (marker ds +:+ join (split_from s (String.length ds + 2))).
      rewrite Hjoin, Hskip. symmetry. exact Heq.
    + destruct (IH 0) as [Halt Hjoin]. simpl skip_chars in Hjoin |- *.
      assert (Hhead : ∀ lit parts, split_from s 0 = lit :: parts →
                match_marker lit = None → match_marker (String c lit) = None).
      { intros lit parts Hsp Hlit. rewrite match_marker_unfold.
        destruct (marker_at (String c lit)) as [[ds' r']|] eqn:Hm'; [|exact Hlit].
        exfalso. apply (marker_at_app _ _ _ (join parts)) in Hm'.
        rewrite Hsp in Hjoin. simpl in Hjoin.
        change (String c lit +:+ join parts) with (String c (lit +:+ join parts)) in Hm'.
        rewrite Hjoin in Hm'. congruence. }
      inversion Halt as [lit Hlit Hsp | lit ds rest Hlit Hd Hne Hrest Hsp];
        rewrite <- Hsp in Hjoin; simpl in Hjoin.
      * split; [apply alternating_last; eapply Hhead; eauto|].
        simpl. congruence.
      * split; [apply alternating_more; try assumption; eapply Hhead; eauto|].
        simpl. simpl in Hjoin. congruence.
Qed.


Lemma SimpleMarkdown_render text : SimpleMarkdown text = render <$> split text.
Proof. reflexivity. Qed.

Lemma render_marker ds :
  all_digits ds = true → ds ≠ EmptyString → render (marker ds) = button ("S" +:+ ds).
Proof. intros Hd Hne. unfold render. rewrite match_marker_marker by assumption. reflexivity. Qed.

Lemma render_literal lit : match_marker lit = None → render lit = span lit.
Proof. intros H. unfold render. rewrite H. reflexivity. Qed.

Lemma alternating_source parts :
  alternating parts → join (source_of <$> (render <$> parts)) = join parts.
Proof.
  induction 1 as [lit Hlit | lit ds rest Hlit Hd Hne _ IH].
  - simpl. rewrite render_literal by assumption. reflexivity.
  - rewrite !fmap_cons, render_literal, render_marker by assumption.
    simpl join. simpl in IH. rewrite IH. reflexivity.
Qed.

(** X7. the rendering loses no text.  The parts of a text, put together
    again, are the text; and so are the elements of its rendering, each
    button standing for the marker of its id. *)
Theorem rendering_loses_no_text text :
  join (split text) = text ∧ join (source_of <$> SimpleMarkdown text) = text.
Proof.
  destruct (split_from_alternating text 0) as [Halt Hjoin].
  assert (H : join (split text) = text) by (destruct text; exact Hjoin).
  split; [exact H|].
  rewrite SimpleMarkdown_render, alternating_source; assumption.
Qed.

(** X8. a text is rendered as one span, the whole text, exactly when no
    marker occurs in it; the empty text is. *)
Theorem one_span_iff_no_marker text :
  SimpleMarkdown text = [span text] ↔ match_marker text = None.
Proof.
  destruct (split_from_alternating text 0) as [Halt Hjoin].
  assert (Hj : join (split text) = text) by (destruct text; exact Hjoin).
  rewrite SimpleMarkdown_render. unfold split in *. split.
  - intros H. inversion Halt as [lit Hlit Hsp | lit ds rest Hlit Hd Hne Hrest Hsp].
    + rewrite <- Hsp in Hj. simpl in Hj. rewrite append_empty in Hj. congruence.
    + rewrite <- Hsp in H. inversion Hrest; subst; discriminate H.
  - intros H.
    assert (Hsp : split_from text 0 = [text]).
    { clear Halt Hjoin Hj. induction text as [|c s IH]; [reflexivity|].
      rewrite match_marker_unfold in H. rewrite split_from_cons.
      destruct (marker_at (String c s)) as [[? ?]|]; [discriminate|].
      rewrite (IH H). reflexivity. }
    rewrite Hsp. simpl. rewrite render_literal by assumption. reflexivity.
Qed.

Lemma alternating_lookup parts :
  alternating parts →
  Nat.odd (length parts) = true ∧
  ∀ i part, parts !! i = Some part →
    if Nat.even i
    then match_marker part = None
    else ∃ ds, part = marker ds ∧ all_digits ds = true ∧ ds ≠ EmptyString.
Proof.
  induction 1 as [lit Hlit | lit ds rest Hlit Hd Hne _ [IHlen IH]].
  - split; [reflexivity|]. intros [|i] part Hi; [|discriminate].
    injection Hi as <-. exact Hlit.
  - split; [exact IHlen|]. intros [|[|i]] part Hi.
    + injection Hi as <-. exact Hlit.
    + injection Hi as <-. exists ds. auto.
    + apply (IH i part Hi).
Qed.

(** X9. literal text and buttons take turns.  The rendering has an odd
    number of elements; those at the even places (the first, the third,
    ...) are spans of text without a marker, those at the odd places are
    buttons with an id S followed by one or more digits. *)
Theorem spans_and_buttons_alternate text :
  Nat.odd (length (SimpleMarkdown text)) = true ∧
  ∀ i el, SimpleMarkdown text !! i = Some el →
    if Nat.even i
    then ∃ lit, el = span lit ∧ match_marker lit = None
    else ∃ ds, el = button ("S" +:+ ds) ∧ all_digits ds = true ∧ ds ≠ EmptyString.
Proof.
  destruct (split_from_alternating text 0) as [Halt _].
  destruct (alternating_lookup _ Halt) as [Hlen Hnth].
  rewrite SimpleMarkdown_render, length_fmap. split; [exact Hlen|].
  intros i el Hi. rewrite list_lookup_fmap in Hi.
  destruct (split text !! i) as [part|] eqn:Hp; [|discriminate].
  injection Hi as <-. specialize (Hnth i part Hp).
  destruct (Nat.even i).
  - exists part. split; [apply render_literal, Hnth | exact Hnth].
  - destruct Hnth as (ds & -> & Hd & Hne). exists ds.
    split; [apply render_marker; assumption | auto].
Qed.

End MarkdownMore.

(** ** More on the video job poller *)

Section PollerMore.

Import Poller.

(** All that the loop does is cycles, one for each handle it finds not
    done. *)
Lemma poll_loop_only_cycles replies operation p :
  ∃ operations,
    snd (fst (poll_loop replies operation p)) = cycles operations ∧
    Forall (λ o, not_done o = true) operations.
Proof.
  revert operation p. induction replies as [|[operation'|e] replies IH]; intros operation p;
    simpl; destruct (not_done operation) eqn:Hn.
  - exists [operation]. split; [reflexivity | repeat constructor; assumption].
  - exists []. split; [reflexivity | constructor].
  - destruct (IH operation' (setLoadingMessage "Still processing... Please wait." p))
      as (ops & Heq & Hall).
    destruct (poll_loop replies operation' _) as [[p' effs] r]. simpl in *.
    exists (operation :: ops). split; [rewrite Heq; reflexivity | constructor; assumption].
  - exists []. split; [reflexivity | constructor].
  - exists [operation]. split; [reflexivity | repeat constructor; assumption].
  - exists []. split; [reflexivity | constructor].
Qed.

Lemma try_block_shape env p :
  ∃ before operations after,
    snd (fst (try_block env p)) = before ++ cycles operations ++ after ∧
    forallb isRequest before = true ∧
    Forall (λ o, not_done o = true) operations ∧
    match snd (try_block env p) with
    | Returned => ∃ url prompt thumb, after = [OnGenerationComplete url prompt thumb]
    | _ => after = []
    end.
Proof.
  unfold try_block.
  destruct (checkApiKey env); [|exists [CheckApiKey], [], []; repeat split; constructor].
  destruct (fileToBase64 env);
    [|exists [CheckApiKey; FileToBase64], [], []; repeat split; constructor].
  destruct (generateVideo env) as [operation|e];
    [|exists [CheckApiKey; FileToBase64; GenerateVideo], [], []; repeat split; constructor].
  match goal with |- context [poll_loop ?r ?o ?q] =>
    destruct (poll_loop_only_cycles r o q) as (ops & Heq & Hall);
    destruct (poll_loop r o q) as [[p' effs] res] end.
  simpl in Heq. subst effs.
  exists [CheckApiKey; FileToBase64; GenerateVideo], ops.
  destruct res as [[last|]|e].
  - unfold deliver. destruct (truthy_string (downloadLink last)); simpl.
    + eexists. split; [reflexivity|]. repeat split; eauto.
    + exists []. rewrite ?app_nil_r. repeat split; auto.
  - exists []. simpl. rewrite !app_nil_r. repeat split; auto.
  - exists []. simpl. rewrite !app_nil_r. repeat split; auto.
Qed.

Lemma handleGenerate_shape env p :
  ∃ before operations after,
    snd (handleGenerate env p) = before ++ cycles operations ++ after ∧
    forallb isRequest before = true ∧
    Forall (λ o, not_done o = true) operations ∧
    ((∃ url prompt thumb, after = [OnGenerationComplete url prompt thumb] ∧
        error (fst (handleGenerate env p)) = EmptyString ∧
        isLoading (fst (handleGenerate env p)) = false ∧
        loadingMessage (fst (handleGenerate env p)) = EmptyString) ∨
     (∃ e, after = [ConsoleError e] ∧
        error (fst (handleGenerate env p)) ≠ EmptyString ∧
        isLoading (fst (handleGenerate env p)) = false ∧
        loadingMessage (fst (handleGenerate env p)) = EmptyString) ∨
     after = []).
Proof.
  unfold handleGenerate.
  destruct (prompt p) as [|c t] eqn:Hp;
    [exists [], [], []; repeat split; auto|].
  destruct (imageFile p) as [f|] eqn:Hf;
    [|exists [], [], []; repeat split; auto].
  match goal with |- context [try_block env ?q] =>
    destruct (try_block_shape env q) as (before & ops & after & Heq & Hb & Hall & Hafter);
    assert (Herr : error (fst (fst (try_block env q))) = EmptyString);
    [|destruct (try_block env q) as [[p' effs] c'] eqn:Ht] end.
  { unfold try_block. destruct (checkApiKey env); [|reflexivity].
    destruct (fileToBase64 env); [|reflexivity].
    destruct (generateVideo env) as [operation|e]; [|reflexivity].
    match goal with |- context [poll_loop ?r ?o ?q] =>
      assert (Hloop : error (fst (fst (poll_loop r o q))) = EmptyString);
      [|destruct (poll_loop r o q) as [[p' effs] res]] end.
    { generalize (polls env) operation.
      match goal with |- ∀ l o, error (fst (fst (poll_loop l o ?q))) = _ =>
        assert (Hq : error q = EmptyString) by reflexivity; revert Hq; generalize q end.
      intros q Hq l. revert q Hq. induction l as [|[o'|e] l IH]; intros q Hq o;
        simpl; destruct (not_done o); try exact Hq.
      specialize (IH (setLoadingMessage "Still processing... Please wait." q) Hq o').
      destruct (poll_loop l o' _) as [[? ?] ?]. exact IH. }
    simpl in Hloop. destruct res as [[last|]|e]; try exact Hloop.
    destruct (deliver env last p'). exact Hloop. }
  simpl in Heq, Hafter, Herr. subst effs.
  exists before, ops. destruct c' as [|e|].
  - destruct Hafter as (url & pr & th & ->).
    eexists. split; [reflexivity|]. split; [exact Hb|]. split; [exact Hall|].
    left. exists url, pr, th. simpl. repeat split. exact Herr.
  - subst after. exists [ConsoleError e]. simpl. rewrite app_nil_r.
    split; [rewrite <- app_assoc; reflexivity|]. split; [exact Hb|]. split; [exact Hall|].
    right. left. exists e. simpl. repeat split.
    destruct (includes _ _); intros H; discriminate H.
  - subst after. exists []. simpl. rewrite app_nil_r.
    split; [reflexivity|]. split; [exact Hb|]. split; [exact Hall|].
    right. right. reflexivity.
Qed.

Lemma requests_no_sleep before :
  forallb isRequest before = true →
  sleeps before = 0 ∧ pollsIssued before = 0 ∧
  handedOver before = 0 ∧ errorsLogged before = 0.
Proof.
  induction before as [|e before IH]; simpl; [auto|].
  intros H. apply andb_true_iff in H as [He H]. specialize (IH H).
  unfold sleeps, pollsIssued, handedOver, errorsLogged in *.
  destruct e; try discriminate; simpl; exact IH.
Qed.

Lemma cycles_no_callback operations :
  handedOver (cycles operations) = 0 ∧ errorsLogged (cycles operations) = 0.
Proof.
  induction operations; simpl; [auto|]. unfold handedOver, errorsLogged in *. simpl. exact IHoperations.
Qed.

Lemma handedOver_app l k : handedOver (l ++ k) = handedOver l + handedOver k.
Proof. unfold handedOver. rewrite List.filter_app, length_app. reflexivity. Qed.

Lemma errorsLogged_app l k : errorsLogged (l ++ k) = errorsLogged l + errorsLogged k.
Proof. unfold errorsLogged. rewrite List.filter_app, length_app. reflexivity. Qed.

(** X10. every sleep is followed by a poll, and only a job not done is
    polled.  Whatever the service answers, what a call does is: some of
    the three requests that start the job, then for each handle found not
    done a sleep of ten seconds and a poll with that handle, then at most
    one more effect that is neither a sleep nor a poll; so that there are
    as many sleeps as polls. *)
Theorem sleeps_and_polls_come_in_pairs env p :
  ∃ before operations after,
    snd (handleGenerate env p) = before ++ cycles operations ++ after ∧
    forallb isRequest before = true ∧
    Forall (λ o, not_done o = true) operations ∧
    length after ≤ 1 ∧ sleeps after = 0 ∧ pollsIssued after = 0 ∧
    sleeps (snd (handleGenerate env p)) = length operations ∧
    pollsIssued (snd (handleGenerate env p)) = length operations.
Proof.
  destruct (handleGenerate_shape env p) as (before & ops & after & Heq & Hb & Hall & Hafter).
  exists before, ops, after. rewrite Heq.
  destruct (requests_no_sleep before Hb) as (Hs & Hp & _ & _).
  rewrite !sleeps_app, !pollsIssued_app, sleeps_cycles, pollsIssued_cycles, Hs, Hp.
  assert (Ha : length after ≤ 1 ∧ sleeps after = 0 ∧ pollsIssued after = 0).
  { destruct Hafter as [(? & ? & ? & -> & _)|[(? & -> & _)| ->]]; repeat split; simpl; lia. }
  destruct Ha as (Ha1 & Ha2 & Ha3). rewrite Ha2, Ha3.
  repeat split; try assumption; lia.
Qed.

(** X11. a call hands the video over or fails, never both and neither
    twice.  The video is handed over at most once and an error is logged at
    most once, not both in one call; after a hand-over the panel is not
    loading and shows no error; after a logged error it is not loading and
    shows an error message. *)
Theorem call_hands_over_or_fails env p :
  handedOver (snd (handleGenerate env p)) + errorsLogged (snd (handleGenerate env p)) ≤ 1 ∧
  (handedOver (snd (handleGenerate env p)) = 1 →
     error (fst (handleGenerate env p)) = EmptyString ∧
     isLoading (fst (handleGenerate env p)) = false ∧
     loadingMessage (fst (handleGenerate env p)) = EmptyString) ∧
  (errorsLogged (snd (handleGenerate env p)) = 1 →
     error (fst (handleGenerate env p)) ≠ EmptyString ∧
     isLoading (fst (handleGenerate env p)) = false ∧
     loadingMessage (fst (handleGenerate env p)) = EmptyString).
Proof.
  destruct (handleGenerate_shape env p) as (before & ops & after & Heq & Hb & Hall & Hafter).
  rewrite Heq.
  destruct (requests_no_sleep before Hb) as (_ & _ & Hh & He).
  destruct (cycles_no_callback ops) as [Hch Hce].
  rewrite !handedOver_app, !errorsLogged_app, Hh, He, Hch, Hce.
  destruct Hafter as [(? & ? & ? & -> & H1 & H2 & H3)|[(? & -> & H1 & H2 & H3)| ->]];
    simpl; repeat split; auto; try lia; try discriminate.
Qed.

(** The loop up to a poll that fails. *)
Lemma poll_loop_throw pending operation e replies p :
  not_done operation = true →
  Forall (λ o, not_done o = true) pending →
  poll_loop ((Ok <$> pending) ++ Throw e :: replies) operation p =
  (waiting p, cycles (operation :: pending), Throw e).
Proof.
  intros Hop Hpending. revert operation p Hop.
  induction Hpending as [|o pending Ho _ IH]; intros operation p Hop.
  - simpl. rewrite Hop. reflexivity.
  - rewrite fmap_cons, <- app_comm_cons, poll_loop_cons by assumption.
    fold (waiting p). rewrite (IH o (waiting p) Ho). reflexivity.
Qed.

(** X12. a poll that fails ends the job.  When the handles come back not
    done and then a poll raises an error, the loop stops there: one cycle
    for each handle seen, the error logged, nothing handed over, the panel
    no longer loading and showing the message for an invalid key when the
    error says that the entity was not found, and the general one
    otherwise. *)
Theorem failed_poll_ends_the_job env p b64 operation pending e replies :
  prompt p ≠ EmptyString → is_Some (imageFile p) →
  checkApiKey env = Ok () → fileToBase64 env = Ok b64 →
  generateVideo env = Ok operation →
  polls env = (Ok <$> pending) ++ Throw e :: replies →
  not_done operation = true → Forall (λ o, not_done o = true) pending →
  snd (handleGenerate env p) =
    [CheckApiKey; FileToBase64; GenerateVideo] ++
    cycles (operation :: pending) ++ [ConsoleError e] ∧
  isLoading (fst (handleGenerate env p)) = false ∧
  loadingMessage (fst (handleGenerate env p)) = EmptyString ∧
  error (fst (handleGenerate env p)) =
    (if includes "Requested entity was not found" (e_message e)
     then "API Key is invalid or not found. Please select a valid key and try again."
     else "Failed to generate video. Please check the console.")%string.
Proof.
  intros Hp [f Hf] Hk Hb Hg Hpolls Hop Hpending.
  unfold handleGenerate, try_block.
  destruct (prompt p) as [|c t]; [contradiction|].
  rewrite Hf, Hk, Hb, Hg, Hpolls, poll_loop_throw by assumption.
  simpl. repeat split.
Qed.

End PollerMore.

(** ** The image requests and their panels *)

Section ImagesFacts.
Import Images.
Variable TypeError : string → JsError.

Lemma for_of_parts_first before d t after :
  Forall (λ q, inlineData q = None) before →
  for_of_parts (before ++ mkPart (Some d) t :: after) = Ok (dataUrl d).
Proof.
  induction 1 as [|q before Hq _ IH]; simpl; [reflexivity|].
  rewrite Hq. exact IH.
Qed.

Lemma for_of_parts_none ps :
  Forall (λ q, inlineData q = None) ps →
  for_of_parts ps = Throw (mkError "No image generated from edit.").
Proof.
  induction 1 as [|q ps Hq _ IH]; simpl; [reflexivity|].
  rewrite Hq. exact IH.
Qed.

Lemma for_of_parts_inv ps :
  (∃ before d t after,
      ps = before ++ mkPart (Some d) t :: after ∧
      Forall (λ q, inlineData q = None) before) ∨
  Forall (λ q, inlineData q = None) ps.
Proof.
  induction ps as [|[[d|] t] ps IH].
  - right. constructor.
  - left. exists [], d, t, ps. split; [reflexivity|constructor].
  - destruct IH as [(before & d & t' & after & -> & Hb)|Hall].
    + left. exists (mkPart None t :: before), d, t', after.
      split; [reflexivity|]. constructor; [reflexivity|exact Hb].
    + right. constructor; [reflexivity|exact Hall].
Qed.

Lemma editImage_parts response ps :
  partsOf response = Some ps →
  editImage TypeError (Ok response) = for_of_parts ps.
Proof.
  unfold partsOf, editImage. destruct (candidates response) as [cs|]; [|discriminate].
  simpl. destruct cs as [|c cs]; [discriminate|]. simpl.
  destruct (content c) as [ct|]; [|discriminate]. simpl.
  intros ->. reflexivity.
Qed.

Lemma editImage_no_parts response :
  partsOf response = None →
  ∃ what, editImage TypeError (Ok response) = Throw (TypeError what).
Proof.
  unfold partsOf, editImage. destruct (candidates response) as [cs|]; [|eauto].
  simpl. destruct cs as [|c cs]; [eauto|]. simpl.
  destruct (content c) as [ct|]; [|eauto]. simpl.
  intros ->. eauto.
Qed.

(** X13. the edited image is the first inline part of the first candidate.
    [editImage] returns the data URL of the first part of the first
    candidate that carries inline data, whatever comes before it being
    skipped and whatever comes after it ignored; with parts but none of
    them inline it raises "No image generated from edit."; without a first
    candidate, its content or its parts it raises the engine's TypeError;
    a request that failed fails the same way. *)
Theorem editImage_returns_first_inline_part :
  (∀ e, editImage TypeError (Throw e) = Throw e) ∧
  ∀ response,
    match partsOf response with
    | None => ∃ what, editImage TypeError (Ok response) = Throw (TypeError what)
    | Some ps =>
        (∃ before d t after,
            ps = before ++ mkPart (Some d) t :: after ∧
            Forall (λ q, inlineData q = None) before ∧
            editImage TypeError (Ok response) =
              Ok ("data:" +:+ js_to_string (mimeType d) +:+ ";base64," +:+
                  js_to_string (data d))) ∨
        (Forall (λ q, inlineData q = None) ps ∧
         editImage TypeError (Ok response) =
           Throw (mkError "No image generated from edit."))
    end.
Proof.
  split; [reflexivity|]. intros response.
  destruct (partsOf response) as [ps|] eqn:Hps.
  - rewrite (editImage_parts _ _ Hps).
    destruct (for_of_parts_inv ps) as [(before & d & t & after & -> & Hb)|Hall].
    + left. exists before, d, t, after. repeat split; [exact Hb|].
      apply for_of_parts_first, Hb.
    + right. split; [exact Hall|]. apply for_of_parts_none, Hall.
  - apply editImage_no_parts, Hps.
Qed.

Lemma generateImage_first response :
  generateImage TypeError (Ok response) =
  match firstImage response with
  | Some i => Ok ("data:image/jpeg;base64," +:+ js_to_string (imageBytes i))
  | None => generateImage TypeError (Ok response)
  end ∧
  (firstImage response = None →
   ∃ what, generateImage TypeError (Ok response) = Throw (TypeError what)).
Proof.
  unfold firstImage, generateImage.
  destruct (generatedImages response) as [[|g gs]|];
    simpl; eauto.
  destruct (image g); simpl; eauto. split; [reflexivity|discriminate].
Qed.

(** X14. what a request for an image ends in.  With an empty prompt the
    panel shows "Please enter a prompt." and nothing is requested.
    Otherwise one request is made with the prompt and the aspect ratio of
    the panel, and the panel is no longer loading afterwards: when the
    reply has a first image, its bytes are handed over once as a JPEG data
    URL with the prompt (the text "undefined" standing for missing bytes)
    and no error is shown; when the request failed or the reply has no
    first image, the error is logged, nothing is handed over and the panel
    shows the failure message. *)
Theorem image_request_outcome reply p :
  (g_prompt p = EmptyString →
     handleGenerate TypeError reply p =
       (g_setError "Please enter a prompt." p, [])) ∧
  (g_prompt p ≠ EmptyString →
     g_isLoading (fst (handleGenerate TypeError reply p)) = false ∧
     g_prompt (fst (handleGenerate TypeError reply p)) = g_prompt p ∧
     g_aspectRatio (fst (handleGenerate TypeError reply p)) = g_aspectRatio p ∧
     match receivedImage reply with
     | Some i =>
         snd (handleGenerate TypeError reply p) =
           [GenerateImages (g_prompt p) (g_aspectRatio p);
            OnGenerationComplete
              ("data:image/jpeg;base64," +:+ js_to_string (imageBytes i))
              (g_prompt p)] ∧
         g_error (fst (handleGenerate TypeError reply p)) = EmptyString
     | None =>
         (∃ e, snd (handleGenerate TypeError reply p) =
                 [GenerateImages (g_prompt p) (g_aspectRatio p);
                  ConsoleError e]) ∧
         g_error (fst (handleGenerate TypeError reply p)) =
           "Failed to generate image. Please check the console for details."%string
     end).
Proof.
  unfold handleGenerate. split.
  - intros ->. reflexivity.
  - intros Hp. destruct (g_prompt p) as [|c t] eqn:Hprompt; [contradiction|].
    destruct reply as [response|e]; simpl receivedImage.
    + destruct (generateImage_first response) as [Hsome Hnone].
      destruct (firstImage response) as [i|].
      * rewrite Hsome. simpl. rewrite Hprompt. repeat split.
      * destruct (Hnone eq_refl) as [what ->]. simpl. rewrite Hprompt. repeat split.
        eexists. reflexivity.
    + simpl. rewrite Hprompt. repeat split. eexists. reflexivity.
Qed.

Lemma for_of_parts_omap ps :
  for_of_parts ps =
  match omap inlineData ps with
  | d :: _ => Ok (dataUrl d)
  | [] => Throw (mkError "No image generated from edit.")
  end.
Proof.
  induction ps as [|[[d|] t] ps IH]; simpl; [reflexivity|reflexivity|exact IH].
Qed.

(** X15. an edit hands over the first image of the reply, or fails.  For a
    panel with a prompt and an image, when the file was read and the reply
    has parts: if some part carries inline data, the file is read, one
    request is made with the prompt, the data and the type of the file,
    and the data URL of the first such part is handed over with the
    preview of the original and the prompt, no error being shown; if none
    does, "No image generated from edit." is logged, nothing is handed
    over and the panel shows "Failed to edit image.".  The panel is not
    loading afterwards either way. *)
Theorem edit_hands_over_first_inline_part env p file base64Data response ps :
  prompt p ≠ EmptyString → imageFile p = Some file →
  fileToBase64 env = Ok base64Data →
  generateContent env = Ok response →
  partsOf response = Some ps →
  isLoading (fst (handleEdit TypeError env p)) = false ∧
  match omap inlineData ps with
  | d :: _ =>
      snd (handleEdit TypeError env p) =
        [FileToBase64 file;
         GenerateContent (prompt p) base64Data (Poller.f_type file);
         OnEditComplete
           ("data:" +:+ js_to_string (mimeType d) +:+ ";base64," +:+
            js_to_string (data d))
           (previewUrl p) (prompt p)] ∧
      error (fst (handleEdit TypeError env p)) = EmptyString
  | [] =>
      snd (handleEdit TypeError env p) =
        [FileToBase64 file;
         GenerateContent (prompt p) base64Data (Poller.f_type file);
         ConsoleError (mkError "No image generated from edit.")] ∧
      error (fst (handleEdit TypeError env p)) = "Failed to edit image."%string
  end.
Proof.
  intros Hp Hf Hb Hg Hps. unfold handleEdit.
  destruct (prompt p) as [|c t] eqn:Hprompt; [contradiction|].
  rewrite Hf, Hb, Hg, (editImage_parts _ _ Hps), for_of_parts_omap.
  destruct (omap inlineData ps) as [|d ds]; simpl; rewrite Hprompt; repeat split.
Qed.

(** X16. what an edit ends in.  Without a prompt or without an image the
    panel shows "Please provide an image and a prompt." and nothing else
    happens.  Otherwise the panel keeps its prompt, image and preview and
    is not loading afterwards, and either the edited image was handed over
    once, with the preview and the prompt of the panel, no error being
    logged or shown, or one error was logged, nothing was handed over and
    the panel shows "Failed to edit image.". *)
Theorem image_edit_outcome env p :
  (prompt p = EmptyString ∨ imageFile p = None →
     handleEdit TypeError env p =
       (setError "Please provide an image and a prompt." p, [])) ∧
  (prompt p ≠ EmptyString → is_Some (imageFile p) →
     isLoading (fst (handleEdit TypeError env p)) = false ∧
     prompt (fst (handleEdit TypeError env p)) = prompt p ∧
     imageFile (fst (handleEdit TypeError env p)) = imageFile p ∧
     previewUrl (fst (handleEdit TypeError env p)) = previewUrl p ∧
     ((∃ url,
         List.filter isCallback (snd (handleEdit TypeError env p)) =
           [OnEditComplete url (previewUrl p) (prompt p)] ∧
         List.filter isConsoleError (snd (handleEdit TypeError env p)) = [] ∧
         error (fst (handleEdit TypeError env p)) = EmptyString) ∨
      (∃ e,
         List.filter isCallback (snd (handleEdit TypeError env p)) = [] ∧
         List.filter isConsoleError (snd (handleEdit TypeError env p)) =
           [ConsoleError e] ∧
         error (fst (handleEdit TypeError env p)) =
           "Failed to edit image."%string))).
Proof.
  unfold handleEdit. split.
  - intros [-> | Hf]; [reflexivity|]. rewrite Hf. destruct (prompt p); reflexivity.
  - intros Hp [file Hf]. rewrite Hf.
    destruct (prompt p) as [|c t] eqn:Hprompt; [contradiction|].
    destruct (fileToBase64 env) as [b|e].
    + destruct (editImage TypeError (generateContent env)) as [url|e]; simpl;
        rewrite ?Hprompt, ?Hf; repeat split; auto.
      * left. exists url. repeat split.
      * right. exists e. repeat split.
    + simpl. rewrite ?Hprompt, ?Hf. repeat split; auto.
      right. exists e. repeat split.
Qed.

Lemma handleEdit_keeps env p :
  imageFile (fst (handleEdit TypeError env p)) = imageFile p ∧
  previewUrl (fst (handleEdit TypeError env p)) = previewUrl p.
Proof.
  unfold handleEdit. destruct (prompt p); [split; reflexivity|].
  destruct (imageFile p) eqn:Hf; [|simpl; rewrite Hf; split; reflexivity].
  destruct (fileToBase64 env); [|simpl; rewrite Hf; split; reflexivity].
  destruct (editImage TypeError (generateContent env));
    simpl; rewrite Hf; split; reflexivity.
Qed.

Lemma handleEdit_preview env p :
  (is_Some (imageFile p) → is_Some (previewUrl p)) →
  Forall (λ e, ∀ url original pr, e = OnEditComplete url original pr →
                                  is_Some original)
         (snd (handleEdit TypeError env p)).
Proof.
  intros Hinv. unfold handleEdit. destruct (prompt p); [constructor|].
  destruct (imageFile p) as [file|]; [|constructor].
  specialize (Hinv (mk_is_Some _ _ eq_refl)).
  destruct (fileToBase64 env);
    [destruct (editImage TypeError (generateContent env))|];
    repeat constructor; try discriminate.
  intros url original pr [= <- <- <-]. exact Hinv.
Qed.

Lemma run_preview evs st :
  (is_Some (imageFile (fst st)) → is_Some (previewUrl (fst st))) →
  Forall (λ e, ∀ url original pr, e = OnEditComplete url original pr →
                                  is_Some original) (snd st) →
  (is_Some (imageFile (fst (run TypeError evs st))) →
   is_Some (previewUrl (fst (run TypeError evs st)))) ∧
  Forall (λ e, ∀ url original pr, e = OnEditComplete url original pr →
                                  is_Some original)
         (snd (run TypeError evs st)).
Proof.
  revert st. induction evs as [|ev evs IH]; intros st Hinv Hall; [auto|].
  apply IH; destruct ev as [[file|] url|value|env]; simpl; auto.
  - pose proof (handleEdit_keeps env (fst st)) as [Hf Hu].
    destruct (handleEdit TypeError env (fst st)) as [p effs]. simpl in *.
    rewrite Hf, Hu. exact Hinv.
  - pose proof (handleEdit_preview env (fst st) Hinv) as He.
    destruct (handleEdit TypeError env (fst st)) as [p effs]. simpl in *.
    apply Forall_app. split; assumption.
Qed.

(** X17. an edit is never handed over without its original.  Whatever
    files are chosen, prompts typed and edits asked for on a fresh editor
    panel, every edited image that is handed over comes with the preview
    URL of an original (the value read under [previewUrl!] is not null),
    and the panel has a preview whenever it has an image. *)
Theorem every_edit_has_its_original evs :
  (is_Some (imageFile (fst (run TypeError evs (initialEditor, [])))) →
   is_Some (previewUrl (fst (run TypeError evs (initialEditor, []))))) ∧
  ∀ url original pr,
    OnEditComplete url original pr ∈ snd (run TypeError evs (initialEditor, [])) →
    is_Some original.
Proof.
  destruct (run_preview evs (initialEditor, [])) as [Hinv Hall].
  - simpl. intros [? H]. discriminate H.
  - constructor.
  - split; [exact Hinv|]. intros url original pr Hin.
    rewrite Forall_forall in Hall. exact (Hall _ Hin url original pr eq_refl).
Qed.

End ImagesFacts.

(** ** More on the live session *)

Section LiveMore.
Import Live.

Lemma in_sequence_tracked s : in_sequence s → tracked_started s.
Proof.
  intros [H _] h Hin. destruct (H h Hin) as (n & t & Hn & Ht & _).
  exists n. split; [exact Hn|]. rewrite Ht. eexists. reflexivity.
Qed.

Lemma in_sequence_of_empty ns cursor : in_sequence_of ∅ ns cursor.
Proof.
  split.
  - intros h Hin. apply not_elem_of_empty in Hin. contradiction.
  - intros h1 h2 n1 n2 t1 t2 Hin. apply not_elem_of_empty in Hin. contradiction.
Qed.

Lemma in_sequence_of_mono tracked tracked' ns ns' cursor cursor' :
  tracked' ⊆ tracked → Forall2 stopped_later ns ns' → (cursor ≤ cursor')%N →
  in_sequence_of tracked ns cursor → in_sequence_of tracked' ns' cursor'.
Proof.
  intros Hsub Hns Hc [H1 H2]. split.
  - intros h Hin. destruct (H1 h (Hsub h Hin)) as (n & t & Hn & Ht & Hle).
    destruct (Forall2_lookup_l _ _ _ _ _ Hns Hn) as (n' & Hn' & Hd & Hs & _).
    exists n', t. rewrite Hd, Hs. repeat split; [exact Hn'|exact Ht|lia].
  - intros h1 h2 n1' n2' t1 t2 Hin1 Hin2 Hlt Hn1' Hn2' Ht1 Ht2.
    destruct (Forall2_lookup_r _ _ _ _ _ Hns Hn1') as (n1 & Hn1 & Hd1 & Hs1 & _).
    destruct (Forall2_lookup_r _ _ _ _ _ Hns Hn2') as (n2 & Hn2 & Hd2 & Hs2 & _).
    rewrite Hd1. rewrite Hs1 in Ht1. rewrite Hs2 in Ht2.
    exact (H2 h1 h2 n1 n2 t1 t2 (Hsub _ Hin1) (Hsub _ Hin2) Hlt Hn1 Hn2 Ht1 Ht2).
Qed.

Lemma schedule_in_sequence d s : in_sequence s → in_sequence (schedule d s).
Proof.
  intros [H1 H2]. unfold in_sequence, schedule. simpl. split.
  - intros h Hin. apply elem_of_union in Hin as [Hin|Hin].
    + apply elem_of_singleton in Hin as ->.
      eexists _, _. split; [apply list_lookup_middle; reflexivity|].
      split; [reflexivity|]. simpl. lia.
    + destruct (H1 h Hin) as (n & t & Hn & Ht & Hle).
      exists n, t. split; [apply lookup_app_l_Some; exact Hn|].
      split; [exact Ht|lia].
  - intros h1 h2 n1 n2 t1 t2 Hin1 Hin2 Hlt Hn1 Hn2 Ht1 Ht2.
    assert (Hold : ∀ h, h ∈ audioSourcesRef s → h < length (nodes s)).
    { intros h Hin. destruct (H1 h Hin) as (n & _ & Hn & _).
      eapply lookup_lt_Some; exact Hn. }
    apply elem_of_union in Hin1 as [Hin1|Hin1], Hin2 as [Hin2|Hin2];
      rewrite ?elem_of_singleton in *; subst.
    + lia.
    + specialize (Hold _ Hin2). lia.
    + rewrite list_lookup_middle in Hn2 by reflexivity.
      injection Hn2 as <-. simpl in Ht2. injection Ht2 as <-.
      destruct (H1 h1 Hin1) as (n & t & Hn & Ht & Hle).
      rewrite (lookup_app_l_Some _ _ _ _ Hn) in Hn1. injection Hn1 as <-.
      rewrite Ht in Ht1. injection Ht1 as <-. exact Hle.
    + destruct (H1 h1 Hin1) as (m1 & u1 & Hm1 & _).
      destruct (H1 h2 Hin2) as (m2 & u2 & Hm2 & _).
      rewrite (lookup_app_l_Some _ _ _ _ Hm1) in Hn1. injection Hn1 as <-.
      rewrite (lookup_app_l_Some _ _ _ _ Hm2) in Hn2. injection Hn2 as <-.
      exact (H2 h1 h2 m1 m2 t1 t2 Hin1 Hin2 Hlt Hm1 Hm2 Ht1 Ht2).
Qed.

Lemma stopAndClear_in_sequence s :
  in_sequence s → in_sequence (fst (stopAndClear s)).
Proof.
  intros Hs.
  destruct (stopAndClear_started s (in_sequence_tracked s Hs)) as (ns & -> & _).
  apply in_sequence_of_empty.
Qed.

Lemma onmessage_interrupted_in_sequence flag s :
  in_sequence s → in_sequence (fst (onmessage_interrupted flag s)).
Proof.
  intros Hs. destruct flag; simpl; [apply stopAndClear_in_sequence|]; assumption.
Qed.

Lemma onmessage_transcripts_in_sequence message s :
  in_sequence s → in_sequence (onmessage_transcripts message s).
Proof.
  unfold in_sequence.
  destruct (onmessage_transcripts_same message s) as (-> & -> & -> & _). auto.
Qed.

Lemma stopConversation_in_sequence s :
  in_sequence s → in_sequence (fst (stopConversation s)).
Proof.
  intros Hs.
  destruct (stopConversation_started s (in_sequence_tracked s Hs))
    as (s' & -> & Hidle & _).
  destruct Hidle as (_ & _ & _ & _ & _ & _ & _ & He & _).
  unfold in_sequence. simpl. rewrite He. apply in_sequence_of_empty.
Qed.

Lemma step_in_sequence ev s : in_sequence s → in_sequence (step ev s).
Proof.
  intros Hs. destruct ev as [contexts mic connect| |message t|i audioBuffer|source| |]; simpl.
  - unfold startConversation. destruct (isActive s).
    + apply stopConversation_in_sequence, Hs.
    + destruct contexts; [destruct mic; [destruct connect|]|]; exact Hs.
  - unfold onopen. destruct (inputAudioContextRef s), (mediaStreamRef s); exact Hs.
  - unfold onmessage_begin.
    pose proof (onmessage_transcripts_in_sequence message s Hs) as Ht.
    destruct (base64Audio message) as [payload|e]; [|exact Ht].
    destruct (truthy_string payload && _).
    + unfold in_sequence. simpl.
      eapply in_sequence_of_mono; [reflexivity|apply Forall2_stopped_later_refl| |exact Ht].
      lia.
    + apply onmessage_interrupted_in_sequence, Ht.
  - destruct (suspended s !! i) as [frame|]; [|exact Hs].
    unfold onmessage_resume. destruct audioBuffer as [d|e]; [|exact Hs].
    apply onmessage_interrupted_in_sequence, schedule_in_sequence. exact Hs.
  - unfold in_sequence, onended. simpl.
    eapply in_sequence_of_mono; [|apply Forall2_stopped_later_refl|reflexivity|exact Hs].
    intros h Hin. apply elem_of_difference in Hin as [Hin _]. exact Hin.
  - unfold onerror. apply stopConversation_in_sequence. exact Hs.
  - apply stopConversation_in_sequence, Hs.
Qed.

Lemma run_in_sequence evs s : in_sequence s → in_sequence (run evs s).
Proof.
  revert s. induction evs as [|ev evs IH]; intros s Hs; simpl; [assumption|].
  apply IH, step_in_sequence, Hs.
Qed.

(** X18. the tracked sources never overlap as scheduled.  Whatever
    happens to the mounted component, in whatever order (messages, decoders
    answering late or out of order, sources ending, interruptions, errors,
    clicks), every tracked source was started at a time that, with the
    duration of its buffer, does not pass the cursor, and of two tracked
    sources the one created first ends, by the times handed to [start],
    no later than the other starts. *)
Theorem tracked_sources_never_overlap evs :
  let s := run evs initial in
  (∀ h, h ∈ audioSourcesRef s →
        ∃ n t, nodes s !! h = Some n ∧ startedAt n = Some t ∧
               (t + duration n ≤ nextStartTimeRef s)%N) ∧
  (∀ h1 h2 n1 n2 t1 t2,
      h1 ∈ audioSourcesRef s → h2 ∈ audioSourcesRef s → h1 < h2 →
      nodes s !! h1 = Some n1 → nodes s !! h2 = Some n2 →
      startedAt n1 = Some t1 → startedAt n2 = Some t2 →
      (t1 + duration n1 ≤ t2)%N).
Proof.
  apply (run_in_sequence evs initial). apply in_sequence_of_empty.
Qed.

(** X19. a connection error is never shown.  Whenever the session
    reports an error, the handler logs it and raises nothing, and the
    component ends at rest with no error message: the message "A connection
    error occurred." that the handler sets is replaced by the [null] that
    [stopConversation] sets right after. *)
Theorem connection_error_is_not_shown evs :
  let s := run evs initial in
  snd (onerror s) = None ∧
  error (fst (onerror s)) = None ∧
  idle (fst (onerror s)) ∧
  effects (fst (onerror s)) =
    releases s ++ ConsoleError "Live session error:" :: effects s.
Proof.
  intros s. unfold onerror.
  match goal with |- context [stopConversation ?q] =>
    destruct (stopConversation_started q) as (s' & Hs' & Hidle & Heff & _) end.
  { exact (reachable_tracked s (ex_intro _ evs eq_refl)). }
  rewrite Hs'. simpl. repeat split; try apply Hidle. exact Heff.
Qed.

Lemma forEach_stop_nodes sources s :
  ∃ ns, fst (forEach_stop sources s) = setNodes ns s.
Proof.
  revert s. induction sources as [|h sources IH]; intros s; simpl.
  - exists (nodes s). destruct s; reflexivity.
  - unfold stop. destruct (nodes s !! h) as [n|];
      [destruct (startedAt n)|]; try (exists (nodes s); destruct s; reflexivity).
    destruct (IH (setNodes (<[h:=mkNode (duration n) (Some n0) true]> (nodes s)) s))
      as [ns Hns].
    exists ns. rewrite Hns. reflexivity.
Qed.

Lemma onmessage_interrupted_transcripts flag s :
  transcriptionHistory (fst (onmessage_interrupted flag s)) = transcriptionHistory s ∧
  currentTranscription (fst (onmessage_interrupted flag s)) = currentTranscription s.
Proof.
  destruct flag; simpl; [|auto]. unfold stopAndClear.
  destruct (forEach_stop_nodes (elements (audioSourcesRef s)) s) as [ns Hns].
  destruct (forEach_stop _ s) as [s' [e|]]; simpl in *; subst s'; auto.
Qed.

Lemma step_received_turns message t s :
  turns (step (Received message t) s) = turns (onmessage_transcripts message s).
Proof.
  unfold turns. simpl. unfold onmessage_begin.
  destruct (base64Audio message) as [payload|e]; [|reflexivity].
  destruct (truthy_string payload && _); [reflexivity|].
  destruct (onmessage_interrupted_transcripts (is_interrupted message)
              (onmessage_transcripts message s)) as [-> ->].
  reflexivity.
Qed.

Lemma foldr_append_app (l k : list string) :
  foldr String.append EmptyString (l ++ k) =
  (foldr String.append EmptyString l +:+ foldr String.append EmptyString k)%string.
Proof.
  induction l as [|x l IH]; simpl; [reflexivity|].
  rewrite IH. symmetry. apply append_assoc.
Qed.

Lemma allText_turns (side : Transcription → string) hist cur :
  foldr String.append EmptyString (side <$> (hist ++ [cur])) =
  (foldr String.append EmptyString (side <$> hist) +:+ side cur)%string.
Proof.
  rewrite fmap_app, foldr_append_app. simpl. rewrite append_empty. reflexivity.
Qed.

(** X20. a message only ever appends to the transcript.  Whatever else a
    message carries, and whether or not the rest of its handler fails,
    after it the text of each side, read over the finished turns and the
    one in progress, is what it was followed by the fragment of the
    message for that side ("undefined" for a transcription without text);
    the finished turns are still there, in place; and if the message
    completes the turn, the turn in progress, fragments included, is the
    new last finished turn and the new turn in progress is empty. *)
Theorem message_appends_to_transcript message t s :
  let s' := step (Received message t) s in
  allText user s' = (allText user s +:+ fragmentOf inputTranscription message)%string ∧
  allText model s' = (allText model s +:+ fragmentOf outputTranscription message)%string ∧
  transcriptionHistory s `prefix_of` transcriptionHistory s' ∧
  ((serverContent message ≫= λ sc, Some (turnComplete sc)) = Some true →
   transcriptionHistory s' =
     transcriptionHistory s ++
       [mkTranscription
          (user (currentTranscription s) +:+ fragmentOf inputTranscription message)
          (model (currentTranscription s) +:+ fragmentOf outputTranscription message)] ∧
   currentTranscription s' = mkTranscription EmptyString EmptyString).
Proof.
  intros s'.
  assert (Ht : turns s' = turns (onmessage_transcripts message s))
    by apply step_received_turns.
  assert (Hh : transcriptionHistory s' =
               transcriptionHistory (onmessage_transcripts message s) ∧
               currentTranscription s' =
               currentTranscription (onmessage_transcripts message s)).
  { unfold turns in Ht. apply app_inj_tail in Ht. exact Ht. }
  destruct Hh as [Hh Hc]. unfold allText. rewrite Ht, Hh, Hc. clear Ht Hh Hc s'.
  unfold turns, fragmentOf, onmessage_transcripts.
  destruct (serverContent message) as [sc|]; simpl.
  2:{ rewrite !append_empty. repeat split; try reflexivity; discriminate. }
  destruct (inputTranscription sc) as [ti|], (outputTranscription sc) as [to|],
    (turnComplete sc); simpl;
    rewrite ?allText_turns, ?fmap_app, ?foldr_append_app; simpl;
    rewrite ?append_empty, ?append_assoc;
    repeat split; try reflexivity; try discriminate;
    try (apply prefix_app_r; reflexivity);
    destruct (currentTranscription s); reflexivity.
Qed.


(** X22. stopping does not cancel a decoder that is still at work.  A
    handler suspended in the decoder is still suspended after
    [stopConversation]; when its buffer then comes, a new source is created
    and started at the cursor, which the stop has put back to 0, and is
    tracked: the component is no longer at rest. *)
Theorem stop_leaves_pending_decodes s i frame d :
  tracked_started s →
  suspended s !! i = Some frame → f_interrupted frame = false →
  let s1 := fst (stopConversation s) in
  let s2 := step (Decoded i (Ok d)) s1 in
  idle s1 ∧ suspended s1 = suspended s ∧
  nodes s2 = nodes s1 ++ [mkNode d (Some 0%N) false] ∧
  audioSourcesRef s2 = {[ length (nodes s1) ]} ∧
  nextStartTimeRef s2 = d ∧
  effects s2 = effects s1.
Proof.
  intros Hs Hi Hf s1 s2.
  destruct (stopConversation_started s Hs) as (s' & Hs' & Hidle & _ & Hsusp & _).
  subst s2 s1. rewrite Hs'. simpl fst.
  split; [exact Hidle|]. split; [exact Hsusp|].
  destruct Hidle as (_ & _ & _ & _ & _ & _ & _ & He & Hc).
  simpl. rewrite Hsusp, Hi. unfold onmessage_resume, onmessage_interrupted.
  rewrite Hf. unfold schedule. simpl. rewrite He, Hc.
  repeat split. apply (right_id_L ∅ (∪)).
Qed.

End LiveMore.

(** ** More on the PCM encoding *)

Section CodecMore.
Import Codec.
Local Open Scope Z_scope.

Lemma shiftl_floor m n :
  0 < m →
  (0 ≤ n → Z.shiftl m n = m * 2 ^ n) ∧
  (n < 0 → Z.shiftl m n * 2 ^ (- n) ≤ m < (Z.shiftl m n + 1) * 2 ^ (- n)) ∧
  0 ≤ Z.shiftl m n.
Proof.
  intros Hm. split; [|split].
  - intros Hn. apply Z.shiftl_mul_pow2, Hn.
  - intros Hn. rewrite Z.shiftl_div_pow2 by lia.
    pose proof (Z.pow_pos_nonneg 2 (- n) ltac:(lia) ltac:(lia)) as Hp.
    pose proof (Z.div_mod m (2 ^ (- n)) ltac:(lia)) as Hd.
    pose proof (Z.mod_pos_bound m (2 ^ (- n)) Hp) as Hr.
    nia.
  - apply Z.shiftl_nonneg. lia.
Qed.

(** X23. a sample below full scale is stored without wrapping, cut toward
    zero.  For a binary32 sample [x] of magnitude [m * 2^e] below 1, the
    integer stored is, with the sign of [x], the integer part [a] of the
    magnitude times 32768: exactly that product when it is whole, else the
    whole number just below it; [a] is at most 32767, so nothing wraps and
    -32768 is not reached; and the opposite sample is stored as the
    opposite integer. *)
Theorem sample_below_full_scale s m e :
  float32 (S754_finite s m e) = true →
  Zpos m < 2 ^ (- e) →
  let v := ToInt16 (scaled (S754_finite s m e)) in
  let a := Z.shiftl (Zpos m) (e + 15) in
  v = cond_Zopp s a ∧
  0 ≤ a ≤ 32767 ∧
  (0 ≤ e + 15 → a = Zpos m * 2 ^ (e + 15)) ∧
  (e + 15 < 0 →
     a * 2 ^ (- (e + 15)) ≤ Zpos m < (a + 1) * 2 ^ (- (e + 15))) ∧
  ToInt16 (scaled (S754_finite (negb s) m e)) = - v ∧
  int16 [S754_finite s m e; S754_finite (negb s) m e] = [v; - v].
Proof.
  intros Hf Hlt v a.
  assert (Hf' : float32 (S754_finite (negb s) m e) = true) by exact Hf.
  destruct (shiftl_floor (Zpos m) (e + 15) ltac:(lia)) as (Hexact & Hfloor & Hnn).
  fold a in Hexact, Hfloor, Hnn.
  assert (He : e < 0).
  { destruct (Z.neg_nonneg_cases e) as [H|H]; [exact H|].
    destruct e as [|p|p]; [simpl in Hlt; lia| |lia].
    rewrite Z.pow_neg_r in Hlt by lia. lia. }
  assert (Ha : a < 2 ^ 15).
  { destruct (Z.neg_nonneg_cases (e + 15)) as [Hn|Hn].
    - specialize (Hfloor Hn).
      assert (Hpow : 2 ^ (- e) = 2 ^ 15 * 2 ^ (- (e + 15))).
      { rewrite <- Z.pow_add_r by lia. f_equal. lia. }
      pose proof (Z.pow_pos_nonneg 2 (- (e + 15)) ltac:(lia) ltac:(lia)).
      rewrite Hpow in Hlt. nia.
    - rewrite (Hexact Hn).
      assert (Hpow : 2 ^ 15 = 2 ^ (e + 15) * 2 ^ (- e)).
      { rewrite <- Z.pow_add_r by lia. f_equal. lia. }
      pose proof (Z.pow_pos_nonneg 2 (e + 15) ltac:(lia) ltac:(lia)).
      rewrite Hpow. nia. }
  change (2 ^ 15) with 32768 in Ha.
  assert (Hv : ∀ b, float32 (S754_finite b m e) = true →
                    ToInt16 (scaled (S754_finite b m e)) = cond_Zopp b a).
  { intros b Hb. rewrite ToInt16_in_range; rewrite (truncate_scaled b m e Hb).
    - reflexivity.
    - fold a. change (2 ^ 15) with 32768. destruct b; simpl; lia. }
  assert (Hneg : ToInt16 (scaled (S754_finite (negb s) m e)) = - v).
  { subst v. rewrite (Hv _ Hf), (Hv _ Hf'). destruct s; simpl; lia. }
  split; [exact (Hv s Hf)|]. split; [lia|]. split; [exact Hexact|].
  split; [exact Hfloor|]. split; [exact Hneg|].
  unfold int16. simpl. rewrite Hneg. reflexivity.
Qed.

(** X24. a positive sample at or above full scale is stored as a negative
    integer.  For a binary32 sample [x] with [1 ≤ x < 2] the integer part
    of [x] times 32768 lies in 32768 .. 65535, and what is stored is that
    number minus 65536, which is negative: there is no clamping to
    32767. *)
Theorem sample_at_full_scale_wraps m e :
  float32 (S754_finite false m e) = true →
  2 ^ (- e) ≤ Zpos m < 2 ^ (1 - e) →
  let v := ToInt16 (scaled (S754_finite false m e)) in
  let a := Z.shiftl (Zpos m) (e + 15) in
  32768 ≤ a ≤ 65535 ∧ v = a - 65536 ∧ - 32768 ≤ v < 0.
Proof.
  intros Hf [Hlo Hhi] v a.
  destruct (shiftl_floor (Zpos m) (e + 15) ltac:(lia)) as (Hexact & Hfloor & Hnn).
  fold a in Hexact, Hfloor, Hnn.
  assert (He : e ≤ 0).
  { destruct (Z.le_gt_cases e 0) as [H|H]; [exact H|].
    destruct (Z.eq_dec e 1) as [-> |Hne]; [simpl in Hhi; lia|].
    rewrite Z.pow_neg_r in Hhi by lia. lia. }
  assert (Ha : 2 ^ 15 ≤ a < 2 ^ 16).
  { destruct (Z.neg_nonneg_cases (e + 15)) as [Hn|Hn].
    - specialize (Hfloor Hn).
      assert (Hpow : 2 ^ (- e) = 2 ^ 15 * 2 ^ (- (e + 15))).
      { rewrite <- Z.pow_add_r by lia. f_equal. lia. }
      assert (Hpow' : 2 ^ (1 - e) = 2 ^ 16 * 2 ^ (- (e + 15))).
      { rewrite <- Z.pow_add_r by lia. f_equal. lia. }
      pose proof (Z.pow_pos_nonneg 2 (- (e + 15)) ltac:(lia) ltac:(lia)).
      rewrite Hpow in Hlo. rewrite Hpow' in Hhi. nia.
    - rewrite (Hexact Hn).
      assert (Hpow : 2 ^ 15 = 2 ^ (e + 15) * 2 ^ (- e)).
      { rewrite <- Z.pow_add_r by lia. f_equal. lia. }
      assert (Hpow' : 2 ^ 16 = 2 ^ (e + 15) * 2 ^ (1 - e)).
      { rewrite <- Z.pow_add_r by lia. f_equal. lia. }
      pose proof (Z.pow_pos_nonneg 2 (e + 15) ltac:(lia) ltac:(lia)).
      rewrite Hpow, Hpow'. nia. }
  change (2 ^ 15) with 32768 in Ha. change (2 ^ 16) with 65536 in Ha.
  assert (Hv : v = a - 65536).
  { subst v. unfold ToInt16. rewrite (truncate_scaled false m e Hf). simpl cond_Zopp.
    fold a. change (2 ^ 16) with 65536. change (2 ^ 15) with 32768.
    rewrite Z.mod_small by lia.
    destruct (32768 <=? a) eqn:E; [reflexivity|apply Z.leb_gt in E; lia]. }
  split; [lia|]. split; [exact Hv|]. lia.
Qed.

End CodecMore.


Section Instances.

Import Samples.

(** After the fragment with two sources, a fragment with one source:
    its one citation, numbered S1, is all that is left. *)
Lemma fragment_replaces_citations_witness :
  Chat.chunkGroundingChunks oneSource = Some [sourceB] ∧
  Forall (λ w, is_Some (hostname (Chat.uri w))) (Chat.webEntries [sourceB]) ∧
  ∃ ns ex' a',
    Chat.on_chunk hostname oneSource theExchange (Chat.app streaming) = Ok (ex', a') ∧
    Chat.currentSources ex' = ns ∧ Chat.sources a' = ns ∧
    length ns = length (Chat.webEntries [sourceB]) ∧
    (∀ i w, Chat.webEntries [sourceB] !! i = Some w →
       ∃ d, hostname (Chat.uri w) = Some d ∧
            ns !! i = Some (Chat.mkSource ("S" +:+ pretty (i + 1)%nat)
                                          (Chat.uri w) (Chat.title w) d)) ∧
    (∀ i m, Chat.messages (Chat.app streaming) !! i = Some m →
       Chat.m_id m = Chat.modelMessageId theExchange →
       ∃ m', Chat.messages a' !! i = Some m' ∧ Chat.m_sources m' = Some ns).
Proof.
  assert (H1 : Chat.chunkGroundingChunks oneSource = Some [sourceB]) by reflexivity.
  assert (H2 : Forall (λ w, is_Some (hostname (Chat.uri w))) (Chat.webEntries [sourceB])).
  { repeat constructor. vm_compute. eauto. }
  split; [exact H1|]. split; [exact H2|].
  exact (fragment_replaces_citations hostname oneSource [sourceB] theExchange
           (Chat.app streaming) H1 H2).
Defined.

(** C1 as stated fails.  After the fragment with two sources comes one
    whose grounding metadata has no list of sources: the two citations
    stay, the set is not replaced by the empty one.  And of a list with an
    entry that is not a web source in front of one that is, the one web
    source is S1. *)
Lemma metadata_without_sources_keeps_citations :
  Chat.candidates queriesOnly = Some [Chat.mkCandidate (Some (Chat.mkGM None))] ∧
  Chat.m_sources <$>
    Chat.messages (Chat.app (Chat.step hostname (Chat.Chunk queriesOnly) streaming)) =
  [None; Some [Chat.mkSource "S1" "https://a.example/x" "A" "a.example";
               Chat.mkSource "S2" "https://b.example/y" "B" "b.example"]] ∧
  Chat.m_sources <$>
    Chat.messages (Chat.app (Chat.step hostname (Chat.Chunk mixedSources) streaming)) =
  [None; Some [Chat.mkSource "S1" "https://b.example/y" "B" "b.example"]].
Proof. repeat split; reflexivity. Qed.

Example hel_lo :
  let p := Chat.handleSendMessage hostname 1700000000000 1700000000000 "hi" None
             [Chat.mkResponse (Some "Hel") None; Chat.mkResponse (Some "lo") None]
             None Chat.initialPage in
  Chat.messages (Chat.app p) =
    [Chat.mkMessage "1700000000000" Chat.USER "hi" None None None;
     Chat.mkMessage "1700000000001" Chat.MODEL "Hello" (Some []) None (Some false)] ∧
  Chat.isLoading (Chat.app p) = false ∧ Chat.inflight p = None ∧
  Chat.log p = [Chat.StreamChat "hi"].
Proof. repeat split; reflexivity. Qed.

Example two_sources_then_one :
  Chat.m_sources <$>
    Chat.messages (Chat.app (Chat.step hostname (Chat.Chunk oneSource) streaming)) =
  [None; Some [Chat.mkSource "S1" "https://b.example/y" "B" "b.example"]].
Proof. reflexivity. Qed.

(** *** The exchange in flight *)

Lemma streaming_reachable : Chat.reachable hostname streaming.
Proof. exists Chat.initialApp. eexists. split; reflexivity. Qed.

(** The stream breaks after the fragment with two sources: the answer
    becomes the apology and keeps its two citations. *)
Lemma stream_error_apology_witness :
  Chat.reachable hostname streaming ∧
  Chat.inflight streaming = Some theExchange ∧
  Chat.raised hostname (Chat.StreamError (mkError "network")) streaming =
    Some (mkError "network") ∧
  let r := Chat.step hostname (Chat.StreamError (mkError "network")) streaming in
  (∀ i m, Chat.messages (Chat.app streaming) !! i = Some m →
          Chat.m_id m = Chat.modelMessageId theExchange →
          Chat.messages (Chat.app r) !! i =
            Some (Chat.mkMessage (Chat.m_id m) (Chat.m_role m) Chat.apology
                    (Chat.m_sources m) (Chat.m_media m) (Some false))) ∧
  Chat.isLoading (Chat.app r) = false ∧ Chat.inflight r = None ∧
  Chat.streamsOpened (Chat.log r) = Chat.streamsOpened (Chat.log streaming).
Proof.
  assert (H1 := streaming_reachable).
  assert (H2 : Chat.inflight streaming = Some theExchange) by reflexivity.
  assert (H3 : Chat.raised hostname (Chat.StreamError (mkError "network")) streaming
               = Some (mkError "network")) by reflexivity.
  split; [exact H1|]. split; [exact H2|]. split; [exact H3|].
  destruct (stream_error_apology hostname streaming theExchange _ _ H1 H2 H3)
    as (_ & Hall & Hl & Hi & _ & Hs & _).
  exact (conj Hall (conj Hl (conj Hi Hs))).
Defined.

Example apology_keeps_citations :
  Chat.messages (Chat.app (Chat.step hostname (Chat.StreamError (mkError "network")) streaming))
    !! 1%nat =
  Some (Chat.mkMessage "1700000000001" Chat.MODEL
          "Sorry, I encountered an error. Please try again."
          (Some [Chat.mkSource "S1" "https://a.example/x" "A" "a.example";
                 Chat.mkSource "S2" "https://b.example/y" "B" "b.example"])
          None (Some false)).
Proof. reflexivity. Qed.

(** A second prompt while the first exchange streams changes nothing. *)
Lemma pending_exchange_is_exclusive_witness :
  Chat.reachable hostname streaming ∧
  Chat.inflight streaming = Some theExchange ∧
  Chat.isLoading (Chat.app streaming) = true ∧
  (∀ now1 now2 userPrompt opened,
     Chat.step hostname (Chat.Send now1 now2 userPrompt opened) streaming = streaming) ∧
  (∀ ev, Chat.is_send ev = false →
     length (Chat.messages (Chat.app (Chat.step hostname ev streaming))) =
       length (Chat.messages (Chat.app streaming)) ∧
     ∀ i m, Chat.messages (Chat.app streaming) !! i = Some m →
            Chat.m_id m ≠ Chat.modelMessageId theExchange →
            Chat.messages (Chat.app (Chat.step hostname ev streaming)) !! i = Some m).
Proof.
  assert (H1 := streaming_reachable).
  assert (H2 : Chat.inflight streaming = Some theExchange) by reflexivity.
  split; [exact H1|]. split; [exact H2|].
  exact (pending_exchange_is_exclusive hostname streaming theExchange H1 H2).
Defined.

(** C9, at the failing input.  The answer streams, its pending message
    the only one shown as loading, when an image that was being generated
    is handed over: its message gets the reading of the clock as its id,
    one millisecond after the prompt was sent, which is the id of the
    pending message.  The next fragment then puts the text and the
    citations of the answer into the message of the image as well, and an
    error of the stream puts the apology there. *)
Theorem message_with_the_pending_id_is_rewritten :
  Chat.inflight withImage = Some theExchange ∧
  Chat.m_id <$> Chat.messages (Chat.app withImage) =
    ["1700000000000"; "1700000000001"; "1700000000001"]%string ∧
  Chat.m_isLoading <$> Chat.messages (Chat.app withImage) =
    [None; Some true; None] ∧
  Chat.messages (Chat.app withImage) !! 2%nat =
    Some (Chat.mkMessage "1700000000001" Chat.MODEL
            "Here is the image I generated for you:" None (Some [generated]) None) ∧
  Chat.messages (Chat.app (Chat.step hostname (Chat.Chunk oneSource) withImage))
    !! 2%nat =
    Some (Chat.mkMessage "1700000000001" Chat.MODEL "Hello"
            (Some [Chat.mkSource "S1" "https://b.example/y" "B" "b.example"])
            (Some [generated]) None) ∧
  Chat.messages
    (Chat.app (Chat.step hostname (Chat.StreamError (mkError "network")) withImage))
    !! 2%nat =
    Some (Chat.mkMessage "1700000000001" Chat.MODEL
            "Sorry, I encountered an error. Please try again."
            None (Some [generated]) (Some false)).
Proof. repeat split; reflexivity. Qed.

(** C10 as stated fails: with S1 as the only citation, the marker of S9
    is a button like that of S1; it is not left in the text. *)
Lemma unresolved_marker_is_a_button :
  Chat.m_sources citing = Some [Chat.mkSource "S1" "https://a.example/x" "A" "a.example"] ∧
  Markdown.Message citing =
    [Markdown.span "See "; Markdown.button "S1"; Markdown.span " and ";
     Markdown.button "S9"; Markdown.span ""] ∧
  Markdown.span "[S9]" ∉ Markdown.Message citing.
Proof.
  split; [reflexivity|]. split; [reflexivity|].
  intros H. vm_compute in H.
  repeat (apply elem_of_cons in H as [H|H]; [discriminate H|]).
  inversion H.
Qed.

(** "See [S1] and [S9]" with S1 alone in the panel: both markers are
    buttons; the click on S1 selects the source S1, the click on S9
    selects none. *)
Lemma every_marker_is_a_button_witness :
  Chat.m_text citing = "See " +:+ Markdown.marker "1" +:+ " and [S9]" ∧
  Chat.m_text citing = "See [S1] and " +:+ Markdown.marker "9" +:+ "" ∧
  Markdown.Message citing =
    Markdown.SimpleMarkdown "See " ++
    Markdown.button "S1" :: Markdown.SimpleMarkdown " and [S9]" ∧
  Markdown.Message citing =
    Markdown.SimpleMarkdown "See [S1] and " ++
    Markdown.button "S9" :: Markdown.SimpleMarkdown "" ∧
  Markdown.click (Markdown.button "S1") panelWithS1 =
    Chat.setActiveSource
      (Some (Chat.mkSource "S1" "https://a.example/x" "A" "a.example"))
      panelWithS1 ∧
  Markdown.click (Markdown.button "S9") panelWithS1 =
    Chat.setActiveSource None panelWithS1.
Proof.
  assert (H1 : Markdown.all_digits "1" = true) by reflexivity.
  assert (H2 : "1"%string ≠ EmptyString) by discriminate.
  assert (H3 : Chat.m_text citing = "See " +:+ Markdown.marker "1" +:+ " and [S9]")
    by reflexivity.
  assert (H4 : Markdown.all_digits "9" = true) by reflexivity.
  assert (H5 : "9"%string ≠ EmptyString) by discriminate.
  assert (H6 : Chat.m_text citing = "See [S1] and " +:+ Markdown.marker "9" +:+ "")
    by reflexivity.
  assert (H7 : Chat.sources panelWithS1 =
               [] ++ Chat.mkSource "S1" "https://a.example/x" "A" "a.example" :: [])
    by reflexivity.
  assert (H8 : Chat.s_id (Chat.mkSource "S1" "https://a.example/x" "A" "a.example") =
               "S" +:+ "1") by reflexivity.
  assert (H9 : ∀ s', s' ∈ @nil Chat.Source → Chat.s_id s' ≠ "S" +:+ "1").
  { intros s' Hin. apply elem_of_nil in Hin. contradiction. }
  assert (H10 : ∀ s, s ∈ Chat.sources panelWithS1 → Chat.s_id s ≠ "S" +:+ "9").
  { intros s Hin. apply list_elem_of_singleton in Hin. subst s. discriminate. }
  split; [exact H3|]. split; [exact H6|].
  destruct (every_marker_is_a_button citing "See " "1" " and [S9]" H1 H2 H3)
    as (Hm1 & Hyes & _ & _).
  destruct (every_marker_is_a_button citing "See [S1] and " "9" "" H4 H5 H6)
    as (Hm9 & _ & Hno & _).
  exact (conj Hm1 (conj Hm9 (conj (Hyes panelWithS1 _ _ _ H7 H8 H9)
                                  (Hno panelWithS1 H10)))).
Defined.

Example click_on_S9_selects_nothing :
  Chat.activeSource (Markdown.click (Markdown.button "S9") panelWithS1) = None ∧
  Chat.activeSource (Markdown.click (Markdown.button "S1") panelWithS1) =
    Some (Chat.mkSource "S1" "https://a.example/x" "A" "a.example").
Proof. split; reflexivity. Qed.

(** *** The job poller *)

(** Three reports of a job not done, then the done handle with the
    address of the video: the address, with the key, is handed over. *)
Lemma three_pending_reports_witness :
  Poller.prompt panel ≠ EmptyString ∧ is_Some (Poller.imageFile panel) ∧
  Poller.done (doneWith (Some "https://v/1?a=b")) = Some true ∧
  snd (Poller.handleGenerate (remote (doneWith (Some "https://v/1?a=b"))) panel) =
    [Poller.CheckApiKey; Poller.FileToBase64; Poller.GenerateVideo] ++
    [Poller.SetTimeout 10000; Poller.CheckVideoStatus notDone;
     Poller.SetTimeout 10000; Poller.CheckVideoStatus notDone;
     Poller.SetTimeout 10000; Poller.CheckVideoStatus notDone] ++
    [Poller.OnGenerationComplete
       ("https://v/1?a=b" +:+ "&key=" +:+ js_to_string (Some "KEY"))
       (Poller.prompt panel) (Poller.previewUrl panel)] ∧
  Poller.sleeps (snd (Poller.handleGenerate (remote (doneWith (Some "https://v/1?a=b"))) panel)) = 3 ∧
  Poller.pollsIssued (snd (Poller.handleGenerate (remote (doneWith (Some "https://v/1?a=b"))) panel)) = 3 ∧
  Poller.isLoading (fst (Poller.handleGenerate (remote (doneWith (Some "https://v/1?a=b"))) panel)) = false ∧
  Poller.error (fst (Poller.handleGenerate (remote (doneWith (Some "https://v/1?a=b"))) panel)) = EmptyString.
Proof.
  assert (H1 : Poller.prompt panel ≠ EmptyString) by discriminate.
  assert (H2 : is_Some (Poller.imageFile panel)) by (eexists; reflexivity).
  assert (H3 : Poller.done (doneWith (Some "https://v/1?a=b")) = Some true)
    by reflexivity.
  assert (Hne : "https://v/1?a=b"%string ≠ EmptyString) by discriminate.
  split; [exact H1|]. split; [exact H2|]. split; [exact H3|].
  destruct (three_pending_reports (remote (doneWith (Some "https://v/1?a=b"))) panel
              "aW1n" notDone notDone notDone (doneWith (Some "https://v/1?a=b")) []
              H1 H2 eq_refl eq_refl eq_refl eq_refl eq_refl eq_refl eq_refl H3)
    as (tail & Heffs & Hs & Hp & Hl & Hyes & _).
  destruct (Hyes _ _ _ _ "https://v/1?a=b"%string eq_refl eq_refl eq_refl eq_refl Hne)
    as [Htail Herr].
  rewrite Htail in Heffs.
  exact (conj Heffs (conj Hs (conj Hp (conj Hl Herr)))).
Defined.

Example job_without_link_fails :
  Poller.handleGenerate (remote (doneWith None)) panel =
  (Poller.mkPanel "a cat" (Some (Poller.mkFile "image/png")) (Some "blob:1")
     Poller.landscape false "" "Failed to generate video. Please check the console.",
   [Poller.CheckApiKey; Poller.FileToBase64; Poller.GenerateVideo;
    Poller.SetTimeout 10000; Poller.CheckVideoStatus notDone;
    Poller.SetTimeout 10000; Poller.CheckVideoStatus notDone;
    Poller.SetTimeout 10000; Poller.CheckVideoStatus notDone;
    Poller.ConsoleError (mkError "Video generation finished but no URI was returned.")]).
Proof. reflexivity. Qed.

(** C8 as stated fails: the user gives the job up before the first
    sleep, and the three polls are issued all the same. *)
Lemma polls_go_on_after_abandonment :
  Poller.pollsIssued
    (snd (Poller.handleGenerate_abandoned (Some 0)
            (remote (doneWith (Some "https://v/1?a=b"))) panel)) = 3 ∧
  ¬ Poller.pollsIssued
      (snd (Poller.handleGenerate_abandoned (Some 0)
              (remote (doneWith (Some "https://v/1?a=b"))) panel)) ≤ 0.
Proof.
  assert (H : Poller.pollsIssued
    (snd (Poller.handleGenerate_abandoned (Some 0)
            (remote (doneWith (Some "https://v/1?a=b"))) panel)) = 3)
    by (vm_compute; reflexivity).
  split; [exact H | rewrite H; lia].
Qed.

Lemma poll_loop_is_not_cancellable_witness :
  Poller.prompt panel ≠ EmptyString ∧ is_Some (Poller.imageFile panel) ∧
  Forall (λ o, Poller.not_done o = true) [notDone; notDone] ∧
  S (length [notDone; notDone]) ≤
    Poller.pollsIssued
      (snd (Poller.handleGenerate_abandoned (Some 0)
              (remote (doneWith (Some "https://v/1?a=b"))) panel)).
Proof.
  assert (H1 : Poller.prompt panel ≠ EmptyString) by discriminate.
  assert (H2 : is_Some (Poller.imageFile panel)) by (eexists; reflexivity).
  assert (H3 : Forall (λ o, Poller.not_done o = true) [notDone; notDone])
    by (repeat constructor).
  split; [exact H1|]. split; [exact H2|]. split; [exact H3|].
  assert (E1 : Poller.checkApiKey (remote (doneWith (Some "https://v/1?a=b"))) = Ok ())
    by reflexivity.
  assert (E2 : Poller.fileToBase64 (remote (doneWith (Some "https://v/1?a=b"))) = Ok "aW1n")
    by reflexivity.
  assert (E3 : Poller.generateVideo (remote (doneWith (Some "https://v/1?a=b"))) = Ok notDone)
    by reflexivity.
  assert (E4 : Poller.polls (remote (doneWith (Some "https://v/1?a=b"))) =
               (Ok <$> [notDone; notDone] ++ [doneWith (Some "https://v/1?a=b")]) ++ [])
    by reflexivity.
  assert (E5 : Poller.not_done notDone = true) by reflexivity.
  destruct (poll_loop_is_not_cancellable (Some 0)
              (remote (doneWith (Some "https://v/1?a=b"))) panel "aW1n" notDone
              [notDone; notDone] (doneWith (Some "https://v/1?a=b")) []
              H1 H2 E1 E2 E3 E4 E5 H3)
    as (_ & _ & Hn).
  exact Hn.
Defined.

(** *** The live session *)

Lemma refused_reachable : Live.reachable refused.
Proof.
  exists [Live.Click (Ok ()) (Throw (mkError "NotAllowedError")) (Ok ())]. reflexivity.
Qed.

Lemma playing_reachable : Live.reachable playing.
Proof.
  exists [Live.Click (Ok ()) (Ok ()) (Ok ()); Live.Opened;
     Live.Received (Live.audioMessage "AAAA") 0%N; Live.Decoded 0 (Ok (Live.seconds 2));
     Live.Received (Live.audioMessage "AAAA") 0%N; Live.Decoded 0 (Ok (Live.seconds 3));
     Live.Received (Live.audioMessage "AAAA") 0%N; Live.Decoded 0 (Ok (Live.seconds 1))].
  vm_compute. reflexivity.
Qed.

(** Stop after a start that the microphone refused, and stop again. *)
Lemma stop_is_total_and_idempotent_witness :
  Live.tracked_started refused ∧
  ∃ s', Live.stopConversation refused = (s', None) ∧ Live.idle s' ∧
        Live.effects s' = Live.releases refused ++ Live.effects refused ∧
        Live.stopConversation s' = (s', None).
Proof.
  assert (H1 : Live.tracked_started refused)
    by (apply reachable_tracked, refused_reachable).
  split; [exact H1|].
  destruct (stop_is_total_and_idempotent refused H1) as (s' & Hs & Hi & He & _ & H2).
  exact (ex_intro _ s' (conj Hs (conj Hi (conj He H2)))).
Defined.

Example stop_twice_when_refused :
  Live.stopConversation (fst (Live.stopConversation refused)) =
  (fst (Live.stopConversation refused), None) ∧
  Live.effects (fst (Live.stopConversation refused)) =
  [Live.OutputContextClose; Live.InputContextClose;
   Live.ConsoleError "Failed to start conversation:"] ∧
  Live.stopConversation Live.initial = (Live.initial, None).
Proof. repeat split; vm_compute; reflexivity. Qed.

(** The interruption signal with three chunks scheduled. *)
Example interruption_after_three_chunks :
  size (Live.audioSourcesRef playing) = 3 ∧
  Live.nextStartTimeRef playing = Live.seconds 6 ∧
  let s' := Live.step (Live.Received Live.interruptedMessage (Live.seconds 1)) playing in
  elements (Live.audioSourcesRef s') = [] ∧ Live.nextStartTimeRef s' = 0%N ∧
  Live.stopped <$> Live.nodes s' = [true; true; true].
Proof. repeat split; vm_compute; reflexivity. Qed.

(** C6, at the failing input.  Three chunks are scheduled when a message
    comes that carries the interruption signal and a model turn whose
    first part is not inline data: reading the payload raises a TypeError
    (line 127), the handler ends there, and the interruption block (lines
    146-150) is not reached: the three sources stay tracked, none is
    stopped, the cursor stays at 6 s.  The same when the message carries an
    audio payload and the decoder fails (line 131). *)
Theorem interruption_lost_when_handler_throws :
  Live.reachable playing ∧
  size (Live.audioSourcesRef playing) = 3 ∧
  Live.is_interrupted interruptedText = true ∧
  Live.onmessage_begin interruptedText (Live.seconds 1) playing =
    Live.Finished (playing, Some (mkError "TypeError")) ∧
  (let s' := Live.step (Live.Received interruptedText (Live.seconds 1)) playing in
   size (Live.audioSourcesRef s') = 3 ∧
   Live.nextStartTimeRef s' = Live.seconds 6 ∧
   Live.stopped <$> Live.nodes s' = [false; false; false]) ∧
  Live.is_interrupted interruptedAudio = true ∧
  (let s' := Live.run [Live.Received interruptedAudio (Live.seconds 1);
                       Live.Decoded 0 (Throw (mkError "EncodingError"))] playing in
   size (Live.audioSourcesRef s') = 3 ∧
   Live.nextStartTimeRef s' = Live.seconds 6 ∧
   Live.stopped <$> Live.nodes s' = [false; false; false]).
Proof.
  split; [exact playing_reachable|].
  repeat split; vm_compute; reflexivity.
Qed.

(** C2 as stated fails.  A chunk of 2 s arrives at clock 0 with the cursor
    at 0, so that t0 = 0, and is decoded; the chunk of 3 s arrives at clock
    10 s and is started at 10 s, not at t0 + 2 s.  And when the chunk of
    3 s arrives at clock 5 s while the chunk of 2 s is still in the
    decoder, the chunk of 2 s is started at 5 s, not at the later of the
    cursor and the clock of its arrival, which is 0, and the chunk of 3 s
    at 7 s. *)
Lemma late_chunk_starts_late :
  let late :=
    Live.run [Live.Received (Live.audioMessage "AAAA") 0%N;
              Live.Decoded 0 (Ok (Live.seconds 2));
              Live.Received (Live.audioMessage "AAAA") (Live.seconds 10);
              Live.Decoded 0 (Ok (Live.seconds 3))] listening in
  let overlapped :=
    Live.run [Live.Received (Live.audioMessage "AAAA") 0%N;
              Live.Received (Live.audioMessage "AAAA") (Live.seconds 5);
              Live.Decoded 0 (Ok (Live.seconds 2));
              Live.Decoded 0 (Ok (Live.seconds 3))] listening in
  Live.nextStartTimeRef listening = 0%N ∧
  Live.startedAt <$> Live.nodes late = [Some 0%N; Some (Live.seconds 10)] ∧
  Live.seconds 10 ≠ (N.max (Live.nextStartTimeRef listening) 0 + Live.seconds 2)%N ∧
  Live.startedAt <$> Live.nodes overlapped =
    [Some (Live.seconds 5); Some (Live.seconds 7)] ∧
  Live.duration <$> Live.nodes overlapped = [Live.seconds 2; Live.seconds 3] ∧
  Live.seconds 5 ≠ N.max (Live.nextStartTimeRef listening) 0.
Proof. repeat split; vm_compute; (reflexivity || discriminate). Qed.

(** Two chunks in a session that listens, the second arriving at clock
    5 s. *)
Lemma payload_starts_at_the_cursor_when_decoded_witness :
  is_Some (Live.outputAudioContextRef listening) ∧
  let k := length (Live.suspended listening) in
  let t0 := N.max (Live.nextStartTimeRef listening) 0 in
  let t02 := N.max t0 (Live.seconds 5) in
  (let s2 := Live.run [Live.Received (Live.audioMessage "AAAA") 0%N;
                       Live.Decoded k (Ok (Live.seconds 2));
                       Live.Received (Live.audioMessage "AAAA") (Live.seconds 5);
                       Live.Decoded k (Ok (Live.seconds 3))] listening in
   Live.nodes s2 =
     Live.nodes listening ++
     [Live.mkNode (Live.seconds 2) (Some t0) false;
      Live.mkNode (Live.seconds 3)
        (Some (N.max (t0 + Live.seconds 2) (Live.seconds 5))) false] ∧
   Live.nextStartTimeRef s2 =
     (N.max (t0 + Live.seconds 2) (Live.seconds 5) + Live.seconds 3)%N) ∧
  (let s2 := Live.run [Live.Received (Live.audioMessage "AAAA") 0%N;
                       Live.Received (Live.audioMessage "AAAA") (Live.seconds 5);
                       Live.Decoded k (Ok (Live.seconds 2));
                       Live.Decoded k (Ok (Live.seconds 3))] listening in
   Live.nodes s2 =
     Live.nodes listening ++
     [Live.mkNode (Live.seconds 2) (Some t02) false;
      Live.mkNode (Live.seconds 3) (Some (t02 + Live.seconds 2)%N) false] ∧
   Live.nextStartTimeRef s2 = (t02 + Live.seconds 2 + Live.seconds 3)%N).
Proof.
  assert (H1 : is_Some (Live.outputAudioContextRef listening)) by (eexists; reflexivity).
  assert (H2 : Live.base64Audio (Live.audioMessage "AAAA") = Ok (Some "AAAA"%string))
    by reflexivity.
  assert (H3 : Live.is_interrupted (Live.audioMessage "AAAA") = false) by reflexivity.
  assert (Hne : "AAAA"%string ≠ EmptyString) by discriminate.
  split; [exact H1|]. intros k t0 t02.
  destruct (payload_starts_at_the_cursor_when_decoded listening
              (Live.audioMessage "AAAA") (Live.audioMessage "AAAA") "AAAA" "AAAA"
              0%N (Live.seconds 5) (Live.seconds 2) (Live.seconds 3)
              H1 H2 Hne H3 H2 Hne H3) as (_ & _ & Hseq & Hov & _).
  exact (conj Hseq Hov).
Defined.


(** *** The PCM encoding *)

(** C5 as stated fails: the sample 1.75 / 32768 is stored as 1, its
    integer part; rounded it would be 2. *)
Lemma sample_is_truncated_not_rounded :
  Codec.float32 (Codec.sample 7 (-17)) = true ∧
  Codec.scaled (Codec.sample 7 (-17)) = S754_finite false (7 * 2 ^ 50) (-52) ∧
  Codec.int16 [Codec.sample 7 (-17)] = [1%Z] ∧
  Codec.int16_rounded [Codec.sample 7 (-17)] = [2%Z] ∧
  Codec.int16 [Codec.sample 7 (-17)] ≠ Codec.int16_rounded [Codec.sample 7 (-17)].
Proof.
  split; [reflexivity|]. split; [reflexivity|]. split; [reflexivity|].
  split; [reflexivity|]. intros H. vm_compute in H. discriminate H.
Qed.

Example block_of_three_samples :
  Codec.onaudioprocess [Codec.sample 1 (-1); Codec.sample (-1) (-1); Codec.sample 1 (-15)] =
  Codec.mkPcmBlob "AEAAwAEA" "audio/pcm;rate=16000".
Proof. reflexivity. Qed.

Example samples_out_of_range_wrap :
  Codec.int16 [Codec.sample 1 0; Codec.sample 3 (-1); Codec.sample (-3) (-1);
               Codec.sample 32767 (-15); S754_nan; S754_infinity false] =
  [-32768; -16384; 16384; 32767; 0; 0]%Z.
Proof. reflexivity. Qed.

End Instances.

(** ** Instances of the further properties *)

Section MoreInstances.

Import Samples.

(** The two sources of the first fragment are S1 and S2. *)
Lemma citation_ids_are_distinct_witness :
  Chat.newSources hostname [sourceA; sourceB] =
    Some (Chat.currentSources theExchange) ∧
  (∀ i s, Chat.currentSources theExchange !! i = Some s →
          Chat.s_id s = "S" +:+ pretty (i + 1)%nat) ∧
  NoDup (Chat.s_id <$> Chat.currentSources theExchange).
Proof.
  assert (H : Chat.newSources hostname [sourceA; sourceB] =
              Some (Chat.currentSources theExchange)) by reflexivity.
  split; [exact H|].
  exact (citation_ids_are_distinct hostname [sourceA; sourceB] _ H).
Defined.

(** The answer in progress stays second while the stream goes on and
    ends. *)
Lemma transcript_is_append_only_witness :
  Chat.messages (Chat.app streaming) !! 1%nat = Some pendingAnswer ∧
  ∃ m', Chat.messages
          (Chat.app (Chat.run hostname [Chat.Chunk oneSource; Chat.StreamEnd] streaming))
          !! 1%nat = Some m' ∧
        Chat.m_id m' = Chat.m_id pendingAnswer ∧
        Chat.m_role m' = Chat.m_role pendingAnswer ∧
        Chat.m_media m' = Chat.m_media pendingAnswer.
Proof.
  assert (H : Chat.messages (Chat.app streaming) !! 1%nat = Some pendingAnswer)
    by reflexivity.
  split; [exact H|].
  exact (transcript_is_append_only hostname [Chat.Chunk oneSource; Chat.StreamEnd]
           streaming 1%nat pendingAnswer H).
Defined.

(** On a fresh page, after a prompt and a fragment, the one pending
    message is the answer of the exchange in flight. *)
Lemma no_pending_message_without_exchange_witness :
  Chat.isLoading Chat.initialApp = false ∧
  (∀ m, m ∈ Chat.messages Chat.initialApp → Chat.m_isLoading m ≠ Some true) ∧
  ∀ m, m ∈ Chat.messages (Chat.app (Chat.run hostname
              [Chat.Send 1700000000000 1700000000000 "hi" None; Chat.Chunk twoSources]
              (Chat.mkPage Chat.initialApp None []))) →
       Chat.m_isLoading m = Some true →
       ∃ ex, Chat.inflight (Chat.run hostname
               [Chat.Send 1700000000000 1700000000000 "hi" None; Chat.Chunk twoSources]
               (Chat.mkPage Chat.initialApp None [])) = Some ex ∧
             Chat.m_id m = Chat.modelMessageId ex.
Proof.
  assert (H1 : Chat.isLoading Chat.initialApp = false) by reflexivity.
  assert (H2 : ∀ m, m ∈ Chat.messages Chat.initialApp →
                    Chat.m_isLoading m ≠ Some true).
  { simpl. intros m Hin. apply elem_of_nil in Hin. contradiction. }
  split; [exact H1|]. split; [exact H2|].
  exact (no_pending_message_without_exchange hostname Chat.initialApp
           [Chat.Send 1700000000000 1700000000000 "hi" None; Chat.Chunk twoSources]
           H1 H2).
Defined.

(** "Hel" and "lo" make "Hello". *)
Lemma answer_is_the_fragments_in_order_witness :
  Forall (Chat.acceptable hostname) [twoSources; oneSource] ∧
  let q := Chat.handleSendMessage hostname 1700000000000 1700000000000 "hi" None
             [twoSources; oneSource] None Chat.initialPage in
  length (Chat.messages (Chat.app q)) = 2 ∧
  Chat.messages (Chat.app q) !! 0%nat =
    Some (Chat.userMessage 1700000000000 "hi") ∧
  (∃ m, Chat.messages (Chat.app q) !! 1%nat = Some m ∧
        Chat.m_id m = Chat.toString (1700000000000 + 1) ∧
        Chat.m_role m = Chat.MODEL ∧
        Chat.m_text m = Chat.joined [twoSources; oneSource] ∧
        Chat.m_isLoading m = Some false).
Proof.
  assert (H1 : Chat.inflight Chat.initialPage = None) by reflexivity.
  assert (H2 : Chat.isLoading (Chat.app Chat.initialPage) = false) by reflexivity.
  assert (H3 : Chat.chatSession (Chat.app Chat.initialPage) = true) by reflexivity.
  assert (H4 : Chat.trim_is_empty "hi" = false) by reflexivity.
  assert (H5 : (1700000000000 ≤ 1700000000000)%Z) by lia.
  assert (H6 : Forall (Chat.acceptable hostname) [twoSources; oneSource]).
  { repeat constructor; intros gcs Hg; vm_compute in Hg; injection Hg as <-;
      repeat constructor; vm_compute; eauto. }
  split; [exact H6|].
  destruct (answer_is_the_fragments_in_order hostname 1700000000000 1700000000000
              "hi" [twoSources; oneSource] Chat.initialPage H1 H2 H3 H4 H5 H6)
    as (Hlen & Hu & Hm & _).
  exact (conj Hlen (conj Hu Hm)).
Defined.

(** The fragment with the address that is not a URL comes while the
    first answer streams. *)
Lemma bad_source_address_ends_the_exchange_witness :
  Chat.inflight streaming = Some theExchange ∧
  hostname "not a url" = None ∧
  let r := Chat.step hostname (Chat.Chunk badSource) streaming in
  Chat.inflight r = None ∧ Chat.isLoading (Chat.app r) = false ∧
  Chat.sources (Chat.app r) = Chat.sources (Chat.app streaming).
Proof.
  assert (H1 : Chat.inflight streaming = Some theExchange) by reflexivity.
  assert (H2 : Chat.chunkGroundingChunks badSource =
               Some [webSource "not a url" "N"]) by reflexivity.
  assert (H3 : Chat.mkWeb "not a url" "N" ∈
               Chat.webEntries [webSource "not a url" "N"]).
  { simpl. apply list_elem_of_here. }
  assert (H4 : hostname (Chat.uri (Chat.mkWeb "not a url" "N")) = None)
    by reflexivity.
  split; [exact H1|]. split; [exact H4|].
  destruct (bad_source_address_ends_the_exchange hostname streaming theExchange
              badSource _ _ H1 H2 H3 H4) as (Hi & Hl & Hs & _).
  exact (conj Hi (conj Hl Hs)).
Defined.

(** A second prompt is answered without metadata: the panel still shows
    the two sources of the first answer. *)
Lemma answer_without_sources_keeps_the_panel_witness :
  Chat.inflight answered = None ∧
  Chat.chunkGroundingChunks plain = None ∧
  let q := Chat.handleSendMessage hostname 1700000000005 1700000000005 "more" None
             [plain] None answered in
  Chat.sources (Chat.app q) = Chat.currentSources theExchange ∧
  ∃ m, Chat.messages (Chat.app q) !! 3%nat = Some m ∧
       Chat.m_id m = Chat.toString (1700000000005 + 1) ∧
       Chat.m_sources m = Some [].
Proof.
  assert (H1 : Chat.inflight answered = None) by reflexivity.
  assert (H2 : Chat.isLoading (Chat.app answered) = false) by reflexivity.
  assert (H3 : Chat.chatSession (Chat.app answered) = true) by reflexivity.
  assert (H4 : Chat.trim_is_empty "more" = false) by reflexivity.
  assert (H5 : Chat.chunkGroundingChunks plain = None) by reflexivity.
  assert (H6 : Forall (λ chunk, Chat.chunkGroundingChunks chunk = None) [plain])
    by (repeat constructor).
  split; [exact H1|]. split; [exact H5|].
  destruct (answer_without_sources_keeps_the_panel hostname 1700000000005
              1700000000005 "more" [plain] answered H1 H2 H3 H4 H6)
    as (Hs & _ & Hm & _).
  exact (conj Hs Hm).
Defined.

(** The second poll of a job fails. *)
Lemma failed_poll_ends_the_job_witness :
  Poller.polls failing = (Ok <$> [notDone]) ++ [Throw (mkError "quota exceeded")] ∧
  snd (Poller.handleGenerate failing panel) =
    [Poller.CheckApiKey; Poller.FileToBase64; Poller.GenerateVideo] ++
    Poller.cycles [notDone; notDone] ++
    [Poller.ConsoleError (mkError "quota exceeded")] ∧
  Poller.isLoading (fst (Poller.handleGenerate failing panel)) = false.
Proof.
  assert (H1 : Poller.prompt panel ≠ EmptyString) by discriminate.
  assert (H2 : is_Some (Poller.imageFile panel)) by (eexists; reflexivity).
  assert (E1 : Poller.checkApiKey failing = Ok ()) by reflexivity.
  assert (E2 : Poller.fileToBase64 failing = Ok "aW1n") by reflexivity.
  assert (E3 : Poller.generateVideo failing = Ok notDone) by reflexivity.
  assert (E4 : Poller.polls failing =
               (Ok <$> [notDone]) ++ [Throw (mkError "quota exceeded")])
    by reflexivity.
  assert (E5 : Poller.not_done notDone = true) by reflexivity.
  assert (H3 : Forall (λ o, Poller.not_done o = true) [notDone])
    by (repeat constructor).
  split; [exact E4|].
  destruct (failed_poll_ends_the_job failing panel "aW1n" notDone [notDone]
              (mkError "quota exceeded") [] H1 H2 E1 E2 E3 E4 E5 H3)
    as (Heffs & Hload & _).
  exact (conj Heffs Hload).
Defined.

(** A reply that says "Done." and then carries the image. *)
Lemma edit_hands_over_first_inline_part_witness :
  Images.partsOf edited =
    Some [Images.mkPart None (Some "Done.");
          Images.mkPart
            (Some (Images.mkInlineData (Some "QUJD") (Some "image/png"))) None] ∧
  snd (Images.handleEdit typeError editing editor) =
    [Images.FileToBase64 (Poller.mkFile "image/png");
     Images.GenerateContent "add a hat" "aW1n" "image/png";
     Images.OnEditComplete "data:image/png;base64,QUJD" (Some "blob:2") "add a hat"] ∧
  Images.error (fst (Images.handleEdit typeError editing editor)) = EmptyString.
Proof.
  assert (H1 : Images.prompt editor ≠ EmptyString) by discriminate.
  assert (H2 : Images.imageFile editor = Some (Poller.mkFile "image/png"))
    by reflexivity.
  assert (H3 : Images.fileToBase64 editing = Ok "aW1n") by reflexivity.
  assert (H4 : Images.generateContent editing = Ok edited) by reflexivity.
  assert (H5 : Images.partsOf edited =
    Some [Images.mkPart None (Some "Done.");
          Images.mkPart
            (Some (Images.mkInlineData (Some "QUJD") (Some "image/png"))) None])
    by reflexivity.
  split; [exact H5|].
  destruct (edit_hands_over_first_inline_part typeError editing editor _ _ _ _
              H1 H2 H3 H4 H5) as [_ H].
  exact H.
Defined.


Lemma decoding_reachable : Live.reachable decoding.
Proof.
  exists [Live.Click (Ok ()) (Ok ()) (Ok ()); Live.Opened;
          Live.Received (Live.audioMessage "AAAA") 0%N].
  vm_compute. reflexivity.
Qed.

(** The session is stopped while a chunk is in the decoder; the buffer
    of 2 s comes afterwards. *)
Lemma stop_leaves_pending_decodes_witness :
  Live.tracked_started decoding ∧
  Live.suspended decoding !! 0%nat = Some (Live.mkFrame false) ∧
  let s1 := fst (Live.stopConversation decoding) in
  let s2 := Live.step (Live.Decoded 0 (Ok (Live.seconds 2))) s1 in
  Live.idle s1 ∧
  Live.audioSourcesRef s2 = {[ length (Live.nodes s1) ]} ∧
  Live.nextStartTimeRef s2 = Live.seconds 2.
Proof.
  assert (H1 : Live.tracked_started decoding)
    by (apply reachable_tracked, decoding_reachable).
  assert (H2 : Live.suspended decoding !! 0%nat = Some (Live.mkFrame false))
    by reflexivity.
  assert (H3 : Live.f_interrupted (Live.mkFrame false) = false) by reflexivity.
  split; [exact H1|]. split; [exact H2|].
  destruct (stop_leaves_pending_decodes decoding 0%nat (Live.mkFrame false)
              (Live.seconds 2) H1 H2 H3) as (Hidle & _ & _ & Hsrc & Hcur & _).
  exact (conj Hidle (conj Hsrc Hcur)).
Defined.

(** The sample 0.5 is stored as 16384, the sample -0.5 as -16384. *)
Lemma sample_below_full_scale_witness :
  Codec.float32 (S754_finite false 8388608 (-24)) = true ∧
  Codec.ToInt16 (Codec.scaled (S754_finite false 8388608 (-24))) =
    Z.shiftl 8388608 (-24 + 15) ∧
  Codec.ToInt16 (Codec.scaled (S754_finite true 8388608 (-24))) =
    (- Codec.ToInt16 (Codec.scaled (S754_finite false 8388608 (-24))))%Z.
Proof.
  assert (H1 : Codec.float32 (S754_finite false 8388608 (-24)) = true)
    by reflexivity.
  assert (H2 : (Zpos 8388608 < 2 ^ (- -24))%Z) by (vm_compute; reflexivity).
  split; [exact H1|].
  destruct (sample_below_full_scale false 8388608 (-24) H1 H2)
    as (Hv & _ & _ & _ & Hneg & _).
  exact (conj Hv Hneg).
Defined.

(** The sample 1.5 is stored as -16384. *)
Lemma sample_at_full_scale_wraps_witness :
  Codec.float32 (S754_finite false 12582912 (-23)) = true ∧
  Codec.ToInt16 (Codec.scaled (S754_finite false 12582912 (-23))) =
    (Z.shiftl 12582912 (-23 + 15) - 65536)%Z.
Proof.
  assert (H1 : Codec.float32 (S754_finite false 12582912 (-23)) = true)
    by reflexivity.
  assert (H2 : (2 ^ (- -23) ≤ Zpos 12582912 < 2 ^ (1 - -23))%Z)
    by (split; vm_compute; (reflexivity || discriminate)).
  split; [exact H1|].
  destruct (sample_at_full_scale_wraps 12582912 (-23) H1 H2) as (_ & Hv & _).
  exact Hv.
Defined.

End MoreInstances.
